(** * Rewriter: sampling, chunking, batch orchestration and retrieval

    A shallow embedding of the algorithmic core of the [rewriter] package
    ([analyzer/sampler.py], [llm/client.py], [llm/batch.py],
    [analyzer/style_extractor.py], [analyzer/examples.py]) together with the
    properties its specification states about it.

    Conventions of the embedding:
    - a Python [int] is a [Z]; [len(l)] is [Z.of_nat (length l)];
    - a Python [float] that holds a duration or a similarity is a [Q]
      (the values the code computes itself, [2.0 * 2 ** attempt] and [120.0],
      are exact in both);
    - a call that may raise returns an [outcome];
    - a [dict] keyed by request id is a [gmap string _]; a [dict] whose
      iteration order matters ([by_category]) is an association list in
      insertion order;
    - the external collaborators (the generation service, [random.Random],
      [json.loads], scikit-learn) are parameters with the contract the code
      relies on, and small concrete instances run the examples. *)

From Stdlib Require Import ZArith QArith Qminmax Qround Qabs Lia List String Ascii.
From stdpp Require Import base option list gmap strings sorting pretty.

Open Scope Z_scope.

#[local] Set Warnings "-clear-no-such-hyp,-register-all".

(** ** Python values shared by all modules *)

Module Py.

(** The exception classes the modelled code raises or lets through.
    [RateLimitError] is [anthropic.RateLimitError] with the number its
    [retry-after] header holds, if it has a non-empty one (a header that
    [float] cannot read is outside the model); [APIStatusError] is any other
    [anthropic.APIStatusError]; [OtherError] is an exception outside that
    class (a connection error, say). *)
Inductive exn : Type :=
| RuntimeError (msg : string)
| ValueError
| IndexError
| JSONDecodeError
| RateLimitError (retry_after : option Q)
| APIStatusError (status_code : Z)
| OtherError (name : string).

Inductive outcome (A : Type) : Type :=
| Returned (a : A)
| Raised (e : exn).
Arguments Returned {A} a.
Arguments Raised {A} e.

Definition returned {A} (o : outcome A) : option A :=
  match o with Returned a => Some a | Raised _ => None end.

Definition raises {A} (o : outcome A) : bool :=
  match o with Returned _ => false | Raised _ => true end.

#[global] Instance outcome_ret : MRet outcome := fun A a => Returned a.
#[global] Instance outcome_bind : MBind outcome := fun A B f o =>
  match o with Returned a => f a | Raised e => Raised e end.

(** [len(l)] *)
Definition len {A} (l : list A) : Z := Z.of_nat (length l).

(** *** Floats

    A Python [float] is an IEEE 754 double; it is held here as the rational
    it denotes.  [round_double] gives the double nearest to a rational, a
    tie going to the double with the even significand: a significand of 53
    bits above the exponent -1074 of the subnormal doubles.  Infinities are
    outside the model: every operation below stays under the largest
    double for the numbers a corpus and its settings hold. *)

(** The nearest integer, a tie going to the even one. *)
Definition round_half_even (q : Q) : Z :=
  let f := Qfloor q in
  match Qcompare (q - inject_Z f) (1 # 2) with
  | Lt => f
  | Gt => f + 1
  | Eq => if Z.even f then f else f + 1
  end.

(** The exponent of the largest power of two that is at most [q], for a
    positive [q]. *)
Definition floor_log2 (q : Q) : Z :=
  let e := Z.log2 (Qnum q) - Z.log2 (Z.pos (Qden q)) in
  if Qle_bool (Qpower 2 e) q then e else e - 1.

Definition round_double (q : Q) : Q :=
  if Qnum q =? 0 then 0%Q
  else
    let a := Qabs q in
    let e := Z.max (floor_log2 a - 52) (-1074) in
    let r := (inject_Z (round_half_even (a / Qpower 2 e)) * Qpower 2 e)%Q in
    if Qnum q <? 0 then (- r)%Q else r.

(** [float(n)] of an integer, and the product of two floats. *)
Definition float_of_int (n : Z) : Q := round_double (inject_Z n).

Definition float_mul (x y : Q) : Q := round_double (x * y).

(** The line feed, which Rocq strings have no escape for. *)
Definition LF : string := String (ascii_of_nat 10) EmptyString.

(** A slice bound as Python normalises it against a length: a negative
    bound counts from the end, and both ends are clamped. *)
Definition clamp_index (n i : Z) : nat :=
  Z.to_nat (if i <? 0 then Z.max 0 (n + i) else Z.min i n).

(** [l[start:stop]] and [l[start:]] for arbitrary integers. *)
Definition slice {A} (l : list A) (start stop : Z) : list A :=
  let a := clamp_index (len l) start in
  let b := clamp_index (len l) stop in
  take (b - a)%nat (drop a l).

Definition slice_from {A} (l : list A) (start : Z) : list A :=
  drop (clamp_index (len l) start) l.

End Py.
Export Py.

(** ** corpus/models.py and config.py *)

Module Models.

(** [Article]: the fields the modelled functions read.  [published_at] is a
    [datetime | None], here seconds relative to 1970-01-01. *)
Record Article : Type := {
  id : option Z;
  title : string;
  content : string;
  published_at : option Z;
  categories : list string;
}.

Record FewShotExample : Type := {
  article_id : Z;
  cluster_id : Z;
  distance_to_centroid : Q;
}.

(** [Settings]: the analysis and rewrite knobs. *)
Record Settings : Type := {
  model : string;
  analysis_model : string;
  max_tokens : Z;
  temperature : Q;
  sample_fraction : Q;
  chunk_max_tokens : Z;
  chunk_articles_cap : Z;   (* Settings.chunk_articles *)
  n_clusters : Z;
  n_examples : Z;
}.

Definition default_settings : Settings := {|
  model := "claude-sonnet-4-20250514";
  analysis_model := "claude-sonnet-4-20250514";
  max_tokens := 4096;
  temperature := 7 # 10;
  sample_fraction := 18 # 100;
  chunk_max_tokens := 90000;
  chunk_articles_cap := 12;
  n_clusters := 25;
  n_examples := 3;
|}.

End Models.
Export Models.

(** ** analyzer/sampler.py: chunk_articles *)

Module Chunker.

(** The three loop variables of [chunk_articles]. *)
Record chunk_state : Type := {
  chunks : list (list Article);
  current_chunk : list Article;
  current_tokens : Z;
}.

Definition article_text (article : Article) : string :=
  "## " +:+ title article +:+ LF +:+ LF +:+ content article.

(** One iteration of [for article in articles]. *)
Definition chunk_step (settings : Settings) (token_counter : string -> Z)
    (st : chunk_state) (article : Article) : chunk_state :=
  let max_tokens := chunk_max_tokens settings in
  let max_per_chunk := chunk_articles_cap settings in
  let article_tokens := token_counter (article_text article) in
  let st :=
    match current_chunk st with
    | [] => st
    | _ :: _ =>
        if (current_tokens st + article_tokens >? max_tokens)
           || (len (current_chunk st) >=? max_per_chunk)
        then {| chunks := chunks st ++ [current_chunk st];
                current_chunk := [];
                current_tokens := 0 |}
        else st
    end in
  {| chunks := chunks st;
     current_chunk := current_chunk st ++ [article];
     current_tokens := current_tokens st + article_tokens |}.

Definition chunk_loop (settings : Settings) (token_counter : string -> Z)
    (articles : list Article) : chunk_state :=
  foldl (chunk_step settings token_counter)
        {| chunks := []; current_chunk := []; current_tokens := 0 |} articles.

Definition chunk_articles (articles : list Article) (settings : Settings)
    (token_counter : string -> Z) : list (list Article) :=
  let st := chunk_loop settings token_counter articles in
  match current_chunk st with
  | [] => chunks st
  | _ :: _ => chunks st ++ [current_chunk st]
  end.

(** The combined token estimate of a chunk. *)
Definition chunk_tokens (token_counter : string -> Z) (chunk : list Article) : Z :=
  foldr (fun a acc => token_counter (article_text a) + acc) 0 chunk.

(** A chunk as the data model wants it: within the token budget and the
    item cap, or a single document. *)
Definition chunk_ok (settings : Settings) (token_counter : string -> Z)
    (chunk : list Article) : Prop :=
  (chunk_tokens token_counter chunk <= chunk_max_tokens settings
   /\ len chunk <= chunk_articles_cap settings)
  \/ length chunk = 1%nat.

(** What holds of the loop variables after any number of iterations. *)
Record chunk_inv (settings : Settings) (tc : string -> Z)
    (seen : list Article) (st : chunk_state) : Prop := {
  inv_closed_nonempty : Forall (fun c => c <> []) (chunks st);
  inv_closed_ok : Forall (chunk_ok settings tc) (chunks st);
  inv_order : concat (chunks st) ++ current_chunk st = seen;
  inv_tokens : current_tokens st = chunk_tokens tc (current_chunk st);
  inv_current_ok : current_chunk st = [] \/ chunk_ok settings tc (current_chunk st);
}.

End Chunker.

(** ** random.Random, as far as the sampler uses it *)

Module Random.

(** The generator is threaded explicitly: every draw returns the next
    generator state.  [rng_sample g population k] is [rng.sample(population, k)],
    which raises [ValueError] when [k] is negative or larger than the
    population; [rng_shuffle] is [rng.shuffle] (in place in the source). *)
Class RandomSource (G : Type) : Type := {
  rng_seed : Z -> G;
  rng_sample : forall {A : Type}, G -> list A -> Z -> outcome (list A * G);
  rng_shuffle : forall {A : Type}, G -> list A -> list A * G;
}.

(** The documented contract of the two draws: a sample of [k] elements
    without replacement, and a permutation. *)
Record RandomLaws (G : Type) `{RandomSource G} : Prop := {
  sample_in_range :
    forall (A : Type) (g : G) (l : list A) (k : Z),
      0 <= k <= len l ->
      exists r g', rng_sample g l k = Returned (r, g') /\ len r = k /\ r ⊆+ l;
  sample_out_of_range :
    forall (A : Type) (g : G) (l : list A) (k : Z),
      k < 0 \/ len l < k -> rng_sample g l k = Raised ValueError;
  shuffle_permutes :
    forall (A : Type) (g : G) (l : list A), (rng_shuffle g l).1 ≡ₚ l;
}.

(** A generator with no entropy: it samples a prefix and shuffles nothing.
    It satisfies the contract and serves to run examples. *)
#[global] Instance PrefixRandom : RandomSource unit := {|
  rng_seed := fun _ => tt;
  rng_sample := fun A g l k =>
    if (k <? 0) || (len l <? k) then Raised ValueError
    else Returned (take (Z.to_nat k) l, tt);
  rng_shuffle := fun A g l => (l, tt);
|}.

End Random.
Export Random.

(** ** analyzer/sampler.py: stratified_sample *)

Module Sampler.

(** [int(x)] of a float: truncation toward zero. *)
Definition py_int (x : Q) : Z := Z.quot (Qnum x) (Z.pos (Qden x)).

(** [round(p / q)] for integers [p] and [q > 0]: the nearest integer of the
    quotient, a tie going to the even neighbour.  The quota bounds proved
    below hold for any integer in its place. *)
Definition py_round (p q : Z) : Z :=
  let d := p / q in
  let r := p mod q in
  if 2 * r <? q then d
  else if q <? 2 * r then d + 1
  else if Z.even d then d else d + 1.

(** [max(10, int(len(articles) * settings.sample_fraction))]: the setting is
    the double its number denotes, the length is converted to a double and
    the product is the double nearest to the exact one, as [int * float] is
    in Python. *)
Definition target_count (settings : Settings) (n_articles : Z) : Z :=
  Z.max 10 (py_int (float_mul (float_of_int n_articles)
                              (round_double (sample_fraction settings)))).

(** The settings with another [sample_fraction]. *)
Definition with_sample_fraction (fraction : Q) (settings : Settings) : Settings :=
  {| model := model settings;
     analysis_model := analysis_model settings;
     max_tokens := max_tokens settings;
     temperature := temperature settings;
     sample_fraction := fraction;
     chunk_max_tokens := chunk_max_tokens settings;
     chunk_articles_cap := chunk_articles_cap settings;
     n_clusters := n_clusters settings;
     n_examples := n_examples settings |}.

Definition primary_category (a : Article) : string :=
  match categories a with
  | c :: _ => c
  | [] => "_uncategorized"
  end.

(** [by_category[cat].append(a)] on a [defaultdict(list)]: a new key goes
    last, an existing key keeps its place. *)
Fixpoint dict_append (cat : string) (a : Article)
    (d : list (string * list Article)) : list (string * list Article) :=
  match d with
  | [] => [(cat, [a])]
  | (k, v) :: d' =>
      if String.eqb k cat then (k, v ++ [a]) :: d'
      else (k, v) :: dict_append cat a d'
  end.

Definition group_by_category (articles : list Article) : list (string * list Article) :=
  foldl (fun d a => dict_append (primary_category a) a d) [] articles.

(** [key=lambda a: a.published_at or _epoch], the epoch being 0. *)
Definition date_key (a : Article) : Z := default 0 (published_at a).

(** [list.sort(key=...)] is stable: an element is placed before the later
    elements whose key is not smaller. *)
Fixpoint insert_by_date (a : Article) (l : list Article) : list Article :=
  match l with
  | [] => [a]
  | b :: l' => if date_key a <=? date_key b then a :: b :: l'
               else b :: insert_by_date a l'
  end.

Definition sort_by_date (l : list Article) : list Article :=
  foldr insert_by_date [] l.

(** [range(n)] *)
Definition py_range (n : Z) : list Z := Z.of_nat <$> seq 0 (Z.to_nat n).

(** A [for] loop whose body may raise. *)
Fixpoint for_each {S X : Type} (body : S -> X -> outcome S) (xs : list X) (st : S)
    : outcome S :=
  match xs with
  | [] => Returned st
  | x :: xs' => st' ← body st x; for_each body xs' st'
  end.

(** The per-category quota: proportional, rounded, floor 1, capped. *)
Definition cat_quota (target_n n_cat n_all : Z) : Z :=
  Z.min (Z.max 1 (py_round (target_n * n_cat) n_all)) n_cat.

Section WithRandom.
Context {G : Type} `{RandomSource G}.

(** The variables the time-slice loop updates. *)
Record slice_state : Type := {
  selected : list Article;
  remainder : Z;
  rng : G;
}.

(** One iteration of [for s in range(n_slices)]. *)
Definition slice_step (cat_articles : list Article) (n_slices slice_size : Z)
    (st : slice_state) (s : Z) : outcome slice_state :=
  let start := s * slice_size in
  let stop := if s <? n_slices - 1 then start + slice_size else len cat_articles in
  let time_slice := slice cat_articles start stop in
  let n_from_slice := remainder st / (n_slices - s) in
  let n_from_slice := Z.min n_from_slice (len time_slice) in
  '(picked, g) ← rng_sample (rng st) time_slice n_from_slice;
  mret {| selected := selected st ++ picked;
          remainder := remainder st - n_from_slice;
          rng := g |}.

(** The [else] branch: up to four time slices share the quota. *)
Definition time_slices (cat_articles : list Article) (cat_n : Z)
    (sel : list Article) (g : G) : outcome (list Article * G) :=
  let n_slices := Z.min cat_n 4 in
  let slice_size := len cat_articles / n_slices in
  st ← for_each (slice_step cat_articles n_slices slice_size) (py_range n_slices)
        {| selected := sel; remainder := cat_n; rng := g |};
  mret (selected st, rng st).

(** One iteration of [for cat, cat_articles in by_category.items()]. *)
Definition category_step (target_n n_all : Z) (st : list Article * G)
    (cat_articles : list Article) : outcome (list Article * G) :=
  let cat_n := cat_quota target_n (len cat_articles) n_all in
  if cat_n >=? len cat_articles then Returned (st.1 ++ cat_articles, st.2)
  else time_slices cat_articles cat_n st.1 st.2.

(** The groups in dictionary order, each sorted by date. *)
Definition sorted_groups (articles : list Article) : list (list Article) :=
  (fun kv => sort_by_date kv.2) <$> group_by_category articles.

(** Lines 36-69: grouping, sorting and the proportional allocation; the
    result is the selection before the overshoot correction. *)
Definition proportional_allocation (articles : list Article) (settings : Settings)
    (g : G) : outcome (list Article * G) :=
  let target_n := target_count settings (len articles) in
  for_each (category_step target_n (len articles)) (sorted_groups articles) ([], g).

Definition stratified_sample (articles : list Article) (settings : Settings)
    (seed : Z) : outcome (list Article) :=
  let g := rng_seed seed in
  let target_n := target_count settings (len articles) in
  '(sel, g) ← proportional_allocation articles settings g;
  '(sel, g) ← (if len sel >? target_n then rng_sample g sel target_n
               else mret (sel, g));
  mret (rng_shuffle g sel).1.

End WithRandom.

(** The sum of the per-category quotas. *)
Definition quota_sum (target_n n_all : Z) (groups : list (list Article)) : Z :=
  foldr (fun grp acc => cat_quota target_n (len grp) n_all + acc) 0 groups.

(** The documents of a list of groups. *)
Definition total_len (groups : list (list Article)) : Z :=
  foldr (fun grp acc => len grp + acc) 0 groups.

(** *** Concrete corpora *)

Definition article_in (cat : string) (i : Z) : Article :=
  {| id := Some i; title := "title"; content := "body";
     published_at := Some i; categories := [cat] |}.

(** Three documents of one category. *)
Definition small_corpus : list Article :=
  article_in "news" <$> [1; 2; 3].

(** Seven documents of one category, in date order. *)
Definition seven_articles : list Article :=
  article_in "news" <$> [1; 2; 3; 4; 5; 6; 7].

(** Fifty documents in three categories of 17, 17 and 16. *)
Definition fifty_articles : list Article :=
  (article_in "a" <$> (Z.of_nat <$> seq 0 17))
  ++ (article_in "b" <$> (Z.of_nat <$> seq 17 17))
  ++ (article_in "c" <$> (Z.of_nat <$> seq 34 16)).

End Sampler.

(** ** llm/client.py *)

Module Client.

(** Retry config *)
Definition MAX_RETRIES : Z := 10.
Definition BASE_DELAY : Q := 2.
Definition MAX_DELAY : Q := 120.

Record content_block : Type := {
  block_type : string;
  block_text : string;
}.

Record usage : Type := {
  input_tokens : Z;
  output_tokens : Z;
  cache_read_input_tokens : Z;
  cache_creation_input_tokens : Z;
}.

(** A message of the generation service: its content blocks and usage. *)
Record response : Type := {
  response_content : list content_block;
  response_usage : usage;
}.

Record message : Type := {
  role : string;
  message_content : string;
}.

(** The keyword arguments of [client.messages.create]. *)
Record create_kwargs : Type := {
  kw_model : string;
  kw_max_tokens : Z;
  kw_temperature : Q;
  kw_messages : list message;
  kw_system : option string;
}.

(** [min(a, b)] and [max(a, b)] keep their first argument unless the second
    is strictly smaller (larger). *)
Definition py_min (a b : Q) : Q := if Qlt_le_dec b a then b else a.
Definition py_max (a b : Q) : Q := if Qlt_le_dec a b then b else a.

(** [min(BASE_DELAY * (2 ** attempt), MAX_DELAY)] *)
Definition backoff (attempt : Z) : Q :=
  py_min (BASE_DELAY * inject_Z (2 ^ attempt)) MAX_DELAY.

(** [x or default] on an optional string or integer. *)
Definition str_or (x : option string) (d : string) : string :=
  match x with
  | Some s => if String.eqb s "" then d else s
  | None => d
  end.

Definition int_or (x : option Z) (d : Z) : Z :=
  match x with
  | Some n => if n =? 0 then d else n
  | None => d
  end.

(** [_extract_text]: the text of the first text block. *)
Fixpoint extract_text_blocks (blocks : list content_block) : string :=
  match blocks with
  | [] => ""
  | block :: rest =>
      if String.eqb (block_type block) "text" then block_text block
      else extract_text_blocks rest
  end.

Definition _extract_text (r : response) : string :=
  extract_text_blocks (response_content r).

Section WithService.
(** The generation service: a state machine answering [messages.create]. *)
Context {S : Type}.
Variable messages_create : S -> create_kwargs -> outcome response * S.

(** What a call can change: the service, the clock ([time.sleep] calls, in
    order) and the client's usage counters. *)
Record client : Type := {
  service : S;
  slept : list Q;
  totals : usage;
}.

Definition new_client (s : S) : client :=
  {| service := s; slept := [];
     totals := {| input_tokens := 0; output_tokens := 0;
                  cache_read_input_tokens := 0; cache_creation_input_tokens := 0 |} |}.

Definition sleep (delay : Q) (c : client) : client :=
  {| service := service c; slept := slept c ++ [delay]; totals := totals c |}.

Definition _track_usage (u : usage) (c : client) : client :=
  {| service := service c; slept := slept c;
     totals := {| input_tokens := input_tokens (totals c) + input_tokens u;
                  output_tokens := output_tokens (totals c) + output_tokens u;
                  cache_read_input_tokens :=
                    cache_read_input_tokens (totals c) + cache_read_input_tokens u;
                  cache_creation_input_tokens :=
                    cache_creation_input_tokens (totals c) + cache_creation_input_tokens u |} |}.

Definition with_service (s : S) (c : client) : client :=
  {| service := s; slept := slept c; totals := totals c |}.

(** The body of [for attempt in range(MAX_RETRIES)] and the [raise] after it. *)
Fixpoint complete_loop (attempts : list Z) (kwargs : create_kwargs) (c : client)
    : outcome string * client :=
  match attempts with
  | [] => (Raised (RuntimeError "Failed after 10 retries"), c)
  | attempt :: rest =>
      let '(result, s) := messages_create (service c) kwargs in
      let c := with_service s c in
      match result with
      | Returned resp =>
          (Returned (_extract_text resp), _track_usage (response_usage resp) c)
      | Raised (RateLimitError retry_after) =>
          let delay := backoff attempt in
          let delay :=
            match retry_after with
            | Some ra => py_max delay ra
            | None => delay
            end in
          complete_loop rest kwargs (sleep delay c)
      | Raised (APIStatusError status_code) =>
          if (status_code >=? 500) || (status_code =? 529)
          then complete_loop rest kwargs (sleep (backoff attempt) c)
          else (Raised (APIStatusError status_code), c)
      | Raised e => (Raised e, c)
      end
  end.

(** The keyword arguments [complete] builds from its own. *)
Definition complete_kwargs (settings : Settings) (system : string)
    (messages : list message) (model : option string) (max_tokens : option Z)
    (temperature : option Q) : create_kwargs :=
  {| kw_model := str_or model (Models.model settings);
     kw_max_tokens := int_or max_tokens (Models.max_tokens settings);
     kw_temperature := default (Models.temperature settings) temperature;
     kw_messages := messages;
     kw_system := if String.eqb system "" then None else Some system |}.

Definition complete (settings : Settings) (system : string) (messages : list message)
    (model : option string) (max_tokens : option Z) (temperature : option Q)
    (c : client) : outcome string * client :=
  let kwargs := complete_kwargs settings system messages model max_tokens temperature in
  complete_loop (Sampler.py_range MAX_RETRIES) kwargs c.

(** The outcomes the service gives to [n] calls in a row with the same
    arguments. *)
Fixpoint outcomes_of (kwargs : create_kwargs) (s : S) (n : nat) : list (outcome response) :=
  match n with
  | O => []
  | Datatypes.S n' =>
      let '(o, s') := messages_create s kwargs in
      o :: outcomes_of kwargs s' n'
  end.

End WithService.

(** A scripted service: it answers the calls with the outcomes of a list,
    one after the other. *)
Definition scripted (script : list (outcome response)) (kwargs : create_kwargs)
    : outcome response * list (outcome response) :=
  match script with
  | o :: rest => (o, rest)
  | [] => (Raised (OtherError "script exhausted"), [])
  end.

(** Which errors [complete] retries, and the delay before the next attempt. *)
Definition retryable (e : exn) : bool :=
  match e with
  | RateLimitError _ => true
  | APIStatusError status_code => (status_code >=? 500) || (status_code =? 529)
  | _ => false
  end.

Definition retry_delay (attempt : Z) (e : exn) : Q :=
  match e with
  | RateLimitError (Some ra) => if Qlt_le_dec (backoff attempt) ra then ra else backoff attempt
  | _ => backoff attempt
  end.

(** The delays of a run of errors met from attempt [i] on. *)
Fixpoint delays_from (i : Z) (errs : list exn) : list Q :=
  match errs with
  | [] => []
  | e :: rest => retry_delay i e :: delays_from (i + 1) rest
  end.

(** A response of one text block. *)
Definition sample_response (text : string) : response :=
  {| response_content := [ {| block_type := "text"; block_text := text |} ];
     response_usage := {| input_tokens := 12; output_tokens := 5;
                          cache_read_input_tokens := 0;
                          cache_creation_input_tokens := 0 |} |}.

End Client.

(** ** llm/batch.py *)

Module Batch.
Import Client.

(** A request of the orchestrator: a dict with the keys ['custom_id'],
    ['messages'] and, optionally, ['system']. *)
Record request : Type := {
  custom_id : string;
  system : option string;
  messages : list message;
}.

(** [event.result] of a batch: a succeeded result carries its message, the
    other result types ([errored], [canceled], [expired]) carry none. *)
Inductive batch_result : Type :=
| succeeded (message : response)
| errored
| canceled
| expired.

Record batch_event : Type := {
  event_custom_id : string;
  result : batch_result;
}.

(** The inner loop of [_collect_results]: every text block is appended. *)
Fixpoint join_text_blocks (text : string) (blocks : list content_block) : string :=
  match blocks with
  | [] => text
  | block :: rest =>
      join_text_blocks
        (if String.eqb (block_type block) "text" then text +:+ block_text block else text)
        rest
  end.

(** The entry [_collect_results] stores for one event. *)
Definition event_text (r : batch_result) : string :=
  match r with
  | succeeded message => join_text_blocks "" (response_content message)
  | _ => ""
  end.

(** One iteration of [for event in ...results(batch_id)]. *)
Definition collect_step (results : gmap string string) (event : batch_event)
    : gmap string string :=
  <[event_custom_id event := event_text (result event)]> results.

(** [_collect_results], over the events [batches.results(batch_id)] yields. *)
Definition _collect_results (events : list batch_event) : gmap string string :=
  foldl collect_step ∅ events.

Section WithService.
Context {S : Type}.
Variable messages_create : S -> create_kwargs -> outcome response * S.

(** The call [fallback_sequential] makes for a request. *)
Definition request_call (settings : Settings) (model : string) (max_tokens : Z)
    (temperature : Q) (req : request) (llm : client (S:=S))
    : outcome string * client (S:=S) :=
  complete messages_create settings (default "" (system req)) (messages req)
           (Some model) (Some max_tokens) (Some temperature) llm.

(** The loop of [fallback_sequential]; [i] is the index [enumerate] gives
    and [n] is [len(requests)]. *)
Fixpoint fallback_loop (settings : Settings) (model : string) (max_tokens : Z)
    (temperature : Q) (n i : Z) (requests : list request)
    (results : gmap string string) (llm : client (S:=S))
    : outcome (gmap string string) * client (S:=S) :=
  match requests with
  | [] => (Returned results, llm)
  | req :: rest =>
      let '(text, llm) := request_call settings model max_tokens temperature req llm in
      match text with
      | Raised e => (Raised e, llm)
      | Returned text =>
          let results := <[custom_id req := text]> results in
          let llm := if i <? n - 1 then sleep 1%Q llm else llm in
          fallback_loop settings model max_tokens temperature n (i + 1) rest results llm
      end
  end.

Definition fallback_sequential (settings : Settings) (service0 : S)
    (requests : list request)
    (model : option string) (max_tokens : option Z) (temperature : option Q)
    : outcome (gmap string string) * client (S:=S) :=
  let llm := new_client service0 in
  let model := str_or model (analysis_model settings) in
  let max_tokens := int_or max_tokens (Models.max_tokens settings) in
  let temperature := default (1 # 2)%Q temperature in
  fallback_loop settings model max_tokens temperature (len requests) 0 requests ∅ llm.

End WithService.

(** The request ids of a request list, as a set. *)
Definition request_ids (requests : list request) : gset string :=
  list_to_set (custom_id <$> requests).

Definition event_ids (events : list batch_event) : gset string :=
  list_to_set (event_custom_id <$> events).

(** A service that always answers, with the model's name as its text. *)
Definition echo_service (s : unit) (kw : create_kwargs) : outcome response * unit :=
  (Returned {| response_content := [ {| block_type := "text"; block_text := kw_model kw |} ];
               response_usage := {| input_tokens := 1; output_tokens := 1;
                                    cache_read_input_tokens := 0;
                                    cache_creation_input_tokens := 0 |} |}, tt).

Definition two_requests : list request :=
  [ {| custom_id := "chunk_0"; system := Some "analyse"; messages := [] |};
    {| custom_id := "chunk_1"; system := None; messages := [] |} ].

(** The text blocks of a response, and their texts joined. *)
Fixpoint text_blocks (blocks : list content_block) : list content_block :=
  match blocks with
  | [] => []
  | block :: rest =>
      if String.eqb (block_type block) "text" then block :: text_blocks rest
      else text_blocks rest
  end.

Fixpoint concat_texts (blocks : list content_block) : string :=
  match blocks with
  | [] => ""
  | block :: rest => block_text block +:+ concat_texts rest
  end.

(** *** The two paths in the words of the specification *)

(** The text of an outcome: the text blocks of a succeeded one, joined, and
    the empty string for any other. *)
Definition outcome_text (r : batch_result) : string :=
  match r with
  | succeeded message => concat_texts (text_blocks (response_content message))
  | _ => ""
  end.

(** The entry a mapping filled in order holds for a key: the value of the
    last pair with that key. *)
Fixpoint last_entry (key : string) (pairs : list (string * string)) : option string :=
  match pairs with
  | [] => None
  | (k, v) :: rest =>
      match last_entry key rest with
      | Some w => Some w
      | None => if String.eqb k key then Some v else None
      end
  end.

Section Served.
Context {S : Type}.
Variable call : request -> client (S:=S) -> outcome string * client (S:=S).

(** [served llm requests texts llm']: starting from [llm], each request is
    called in turn and returns its text, and a pause of one second follows
    each call. *)
Inductive served : client (S:=S) -> list request -> list string -> client (S:=S) -> Prop :=
| served_nil (llm : client) : served llm [] [] llm
| served_cons (llm llm1 llm2 : client) (req : request) (text : string)
    (rest : list request) (texts : list string) :
    call req llm = (Returned text, llm1) ->
    served (sleep 1%Q llm1) rest texts llm2 ->
    served llm (req :: rest) (text :: texts) llm2.

End Served.

(** A service that answers its first call and refuses the second with a
    status no retry is made for. *)
Definition second_call_refused : list (outcome response) :=
  [Returned (sample_response "first"); Raised (APIStatusError 400)].

End Batch.

(** ** Python strings and the json module *)

Module PyStr.

(** A [string] holds the UTF-8 encoding of a Python [str], one byte per
    [ascii]; a position in a text counts characters, not bytes. *)

Definition code (c : ascii) : nat := nat_of_ascii c.

(** The ASCII characters [str.isspace] accepts. *)
Definition is_space (c : ascii) : bool :=
  let n := code c in
  ((9 <=? n) && (n <=? 13) || (28 <=? n) && (n <=? 32))%nat.

(** The other characters [str.isspace] accepts, in their encodings: U+0085
    and U+00A0 in two bytes, and U+1680, U+2000 to U+200A, U+2028, U+2029,
    U+202F, U+205F and U+3000 in three. *)
Definition is_space2 (a b : ascii) : bool :=
  ((code a =? 194) && ((code b =? 133) || (code b =? 160)))%nat.

Definition is_space3 (a b c : ascii) : bool :=
  ((code a =? 225) && (code b =? 154) && (code c =? 128)
   || (code a =? 226) && (code b =? 128)
      && ((128 <=? code c) && (code c <=? 138)
          || (code c =? 168) || (code c =? 169) || (code c =? 175))
   || (code a =? 226) && (code b =? 129) && (code c =? 159)
   || (code a =? 227) && (code b =? 128) && (code c =? 128))%nat.

(** [s.lstrip()] *)
Fixpoint lstrip (s : string) : string :=
  match s with
  | String a s1 =>
      if is_space a then lstrip s1
      else
        match s1 with
        | String b s2 =>
            if is_space2 a b then lstrip s2
            else
              match s2 with
              | String c s3 => if is_space3 a b c then lstrip s3 else s
              | EmptyString => s
              end
        | EmptyString => s
        end
  | EmptyString => s
  end.

Definition reversed (s : string) : string :=
  string_of_list_ascii (rev_append (list_ascii_of_string s) []).

(** [lstrip] on a text read from its end: the bytes of a character come
    last byte first. *)
Fixpoint lstrip_reversed (s : string) : string :=
  match s with
  | String c s1 =>
      if is_space c then lstrip_reversed s1
      else
        match s1 with
        | String b s2 =>
            if is_space2 b c then lstrip_reversed s2
            else
              match s2 with
              | String a s3 => if is_space3 a b c then lstrip_reversed s3 else s
              | EmptyString => s
              end
        | EmptyString => s
        end
  | EmptyString => s
  end.

(** [s.rstrip()] *)
Definition rstrip (s : string) : string := reversed (lstrip_reversed (reversed s)).

(** [s.strip()] *)
Definition strip (s : string) : string := rstrip (lstrip s).

(** [s.startswith(p)] *)
Definition startswith (s p : string) : bool := String.prefix p s.

(** [s.split(sep)] for a one-character separator. *)
Fixpoint split (sep : ascii) (s : string) : list string :=
  match s with
  | EmptyString => [EmptyString]
  | String c rest =>
      if Ascii.eqb c sep then EmptyString :: split sep rest
      else match split sep rest with
           | line :: lines => String c line :: lines
           | [] => [String c EmptyString]
           end
  end.

(** [sep.join(lines)] *)
Fixpoint join (sep : string) (lines : list string) : string :=
  match lines with
  | [] => EmptyString
  | [line] => line
  | line :: rest => line +:+ sep +:+ join sep rest
  end.

(** A byte that continues a character begun before it. *)
Definition is_continuation (c : ascii) : bool :=
  ((128 <=? code c) && (code c <=? 191))%nat.

(** The characters of a text, each with its bytes. *)
Fixpoint chars (s : string) : list string :=
  match s with
  | EmptyString => []
  | String a rest =>
      match chars rest with
      | char :: others =>
          if match rest with
             | String b _ => is_continuation b
             | EmptyString => false
             end
          then String a char :: others
          else String a EmptyString :: char :: others
      | [] => [String a EmptyString]
      end
  end.

(** The position of the first and of the last occurrence of a character
    among the characters of a text, or -1. *)
Fixpoint first_index (x : string) (l : list string) : Z :=
  match l with
  | [] => -1
  | y :: rest =>
      if String.eqb y x then 0
      else let i := first_index x rest in if i <? 0 then -1 else i + 1
  end.

Fixpoint last_index (x : string) (l : list string) : Z :=
  match l with
  | [] => -1
  | y :: rest =>
      let i := last_index x rest in
      if 0 <=? i then i + 1
      else if String.eqb y x then 0 else -1
  end.

(** [s.find(c)] and [s.rfind(c)] for a character [c]. *)
Definition find (c : string) (s : string) : Z := first_index c (chars s).

Definition rfind (c : string) (s : string) : Z := last_index c (chars s).

(** [s[start:stop]] *)
Definition substr (s : string) (start stop : Z) : string :=
  String.concat EmptyString (slice (chars s) start stop).

End PyStr.

Module Json.

(** A Python value as [json.loads] returns it and as [_parse_json] builds
    it.  A [dict] keeps its keys in order; a float is kept as its literal. *)
Inductive json : Type :=
| JNull
| JBool (b : bool)
| JInt (n : Z)
| JFloat (literal : string)
| JString (s : string)
| JArray (items : list json)
| JObject (members : list (string * json)).

(** The double quote, which a Rocq string cannot hold as it stands. *)
Definition DQ : ascii := ascii_of_nat 34.

End Json.

(** ** analyzer/style_extractor.py *)

Module StyleExtractor.
Import PyStr Json.

Section ParseJson.
(** [json.loads]: any function from texts to a document or an exception. *)
Variable loads : string -> outcome json.

(** The record returned when nothing parses. *)
Definition parse_error_record (text : string) : json :=
  JObject [("raw", JString text); ("parse_error", JBool true)].

(** The text [_parse_json] hands to the decoder: stripped, and without
    the lines of a code fence when it starts with one. *)
Definition unfenced (text : string) : string :=
  let text := strip text in
  if startswith text "```" then
    let lines := split (ascii_of_nat 10) text in
    let lines := List.filter (fun l => negb (startswith (strip l) "```")) lines in
    join LF lines
  else text.

Definition _parse_json (text : string) : outcome json :=
  let text := unfenced text in
  match loads text with
  | Returned v => Returned v
  | Raised JSONDecodeError =>
      let start := find "{" text in
      let stop := rfind "}" text + 1 in
      if (start >=? 0) && (stop >? start) then
        match loads (substr text start stop) with
        | Returned v => Returned v
        | Raised JSONDecodeError => Returned (parse_error_record text)
        | Raised e => Raised e
        end
      else Returned (parse_error_record text)
  | Raised e => Raised e
  end.

End ParseJson.

(** The head of [StyleExtractor.run]: the corpus is read from the store,
    an empty corpus is refused, and the rest is sampled. *)
Definition run_sample {G : Type} `{RandomSource G} (all_articles : list Article)
    (settings : Settings) : outcome (list Article) :=
  match all_articles with
  | [] => Raised (RuntimeError "No articles in corpus. Run `rewriter import` first.")
  | _ :: _ => Sampler.stratified_sample all_articles settings 42
  end.

(** The three texts of the specification's examples, and the object two of
    them hold. *)
Definition quoted (s : string) : string := String DQ s +:+ String DQ EmptyString.

Definition object_text : string := "{" +:+ quoted "a" +:+ ":1}".

Definition object_value : json := JObject [("a", JInt 1)].

Definition fenced_text : string :=
  "```json" +:+ LF +:+ object_text +:+ LF +:+ "```".

Definition embedded_text : string := "blah " +:+ object_text +:+ " blah".

Definition plain_text : string := "no json here".

(** Two texts [json.loads] refuses with another exception than
    [JSONDecodeError]: an integer literal of 4301 digits, over the limit of
    4300 digits of the conversion to [int] ([ValueError]), and 100000
    opening brackets, deeper than the interpreter recurses
    ([RecursionError]). *)
Definition long_integer : string := string_of_list_ascii (replicate (Z.to_nat 4301) "1"%char).

Definition deep_nesting : string := string_of_list_ascii (replicate (Z.to_nat 100000) "["%char).

Definition RecursionError : exn := OtherError "RecursionError".

(** A stand-in for [json.loads] on the texts above and their parts: it
    returns the object for its text and raises what [json.loads] raises on
    the others.  It serves to run the examples; what is proved of
    [_parse_json] is proved for every decoder. *)
Definition stand_in_loads (text : string) : outcome json :=
  if String.eqb text object_text then Returned object_value
  else if String.eqb text long_integer then Raised ValueError
  else if String.eqb text deep_nesting then Raised RecursionError
  else Raised JSONDecodeError.

(** The backtick and the fence of three. *)
Definition BACKTICK : ascii := ascii_of_nat 96.

Definition FENCE : string := "```".

End StyleExtractor.

(** ** analyzer/examples.py *)

Module Examples.
Import Sampler.

(** [l[i]] for a non-negative index. *)
Definition index {A : Type} (l : list A) (i : nat) : outcome A :=
  match l !! i with
  | Some x => Returned x
  | None => Raised IndexError
  end.

(** [m[indices]]: the rows of a matrix at the given positions. *)
Fixpoint rows {A : Type} (m : list A) (indices : list nat) : outcome (list A) :=
  match indices with
  | [] => Returned []
  | i :: rest => x ← index m i; xs ← rows m rest; mret (x :: xs)
  end.

(** [np.where(labels == cluster_id)[0]], counting positions from [i]. *)
Fixpoint where_eq (labels : list Z) (cluster_id : Z) (i : nat) : list nat :=
  match labels with
  | [] => []
  | l :: rest =>
      if l =? cluster_id then i :: where_eq rest cluster_id (Datatypes.S i)
      else where_eq rest cluster_id (Datatypes.S i)
  end.

(** [np.argmax]: the first position of the largest value. *)
Fixpoint argmax_from (best_i : nat) (best : Q) (i : nat) (l : list Q) : nat :=
  match l with
  | [] => best_i
  | x :: rest =>
      if Qlt_le_dec best x then argmax_from i x (Datatypes.S i) rest
      else argmax_from best_i best (Datatypes.S i) rest
  end.

Definition argmax (l : list Q) : nat :=
  match l with
  | [] => 0%nat
  | x :: rest => argmax_from 0 x 1 rest
  end.

(** [np.argsort]: the positions in ascending order of their values.  Equal
    values keep their order here; numpy's default sort promises nothing
    about them. *)
Fixpoint insert_by_value (p : nat * Q) (l : list (nat * Q)) : list (nat * Q) :=
  match l with
  | [] => [p]
  | q :: rest => if Qle_bool p.2 q.2 then p :: q :: rest else q :: insert_by_value p rest
  end.

Definition argsort (values : list Q) : list nat :=
  fst <$> foldr insert_by_value [] (zip (seq 0 (length values)) values).

(** *** The store, as far as the selector uses it *)

Record store : Type := {
  articles : list Article;          (* the rows of the articles table *)
  examples : list FewShotExample;   (* the rows of the examples table *)
}.

Definition row_id (a : Article) : Z := default 0 (id a).

Fixpoint insert_by_id (a : Article) (l : list Article) : list Article :=
  match l with
  | [] => [a]
  | b :: rest => if row_id a <=? row_id b then a :: b :: rest else b :: insert_by_id a rest
  end.

(** [SELECT * FROM articles WHERE id IN (...) ORDER BY id] *)
Definition get_articles_by_ids (st : store) (ids : list Z) : list Article :=
  match ids with
  | [] => []
  | _ :: _ =>
      foldr insert_by_id []
        (List.filter (fun a => bool_decide (row_id a ∈ ids)) (articles st))
  end.

Fixpoint insert_by_cluster (e : FewShotExample) (l : list FewShotExample)
    : list FewShotExample :=
  match l with
  | [] => [e]
  | f :: rest => if cluster_id e <=? cluster_id f then e :: f :: rest
                 else f :: insert_by_cluster e rest
  end.

(** [SELECT article_id FROM examples ORDER BY cluster_id] *)
Definition get_example_article_ids (st : store) : list Z :=
  article_id <$> foldr insert_by_cluster [] (examples st).

Section WithSklearn.
(** scikit-learn, as the selector uses it: the rows of a TF-IDF matrix are
    values of [vec]; [fit_transform] fits a vectorizer on the texts and
    returns it with their matrix; [transform] projects a text with a fitted
    vectorizer; [kmeans k m] is [KMeans(n_clusters=k, random_state=42,
    n_init=10)] fitted on [m], giving [fit_predict]'s labels and
    [cluster_centers_], or raising on a [k] it refuses;
    [cosine_similarity] compares two rows. *)
Context {vec vectorizer : Type}.
Variable fit_transform : list string -> vectorizer * list vec.
Variable transform : vectorizer -> string -> vec.
Variable kmeans : Z -> list vec -> outcome (list Z * list vec).
Variable cosine_similarity : vec -> vec -> Q.

(** [_vectorizer], [_tfidf_matrix] and [_article_ids] of the selector. *)
Record selector_model : Type := {
  _vectorizer : vectorizer;
  _tfidf_matrix : list vec;
  _article_ids : list (option Z);
}.

(** One iteration of [for cluster_id in range(n_clusters)]. *)
Definition cluster_step (m : selector_model) (labels : list Z) (centers : list vec)
    (examples : list FewShotExample) (cluster_id : Z) : outcome (list FewShotExample) :=
  let indices := where_eq labels cluster_id 0 in
  match indices with
  | [] => Returned examples
  | _ :: _ =>
      cluster_vectors ← rows (_tfidf_matrix m) indices;
      centroid ← index centers (Z.to_nat cluster_id);
      let distances := (fun v => cosine_similarity v centroid) <$> cluster_vectors in
      best_idx ← index indices (argmax distances);
      article_id ← index (_article_ids m) best_idx;
      best ← index distances (argmax distances);
      match article_id with
      | Some article_id =>
          Returned (examples ++ [ {| article_id := article_id;
                                     cluster_id := cluster_id;
                                     distance_to_centroid := (1 - best)%Q |} ])
      | None => Raised ValueError
      end
  end.

(** The example of a cluster: a member of the cluster, no member of which
    is more similar to the centroid, with one minus its similarity as
    distance. *)
Definition representative (m : selector_model) (labels : list Z) (centers : list vec)
    (e : FewShotExample) : Prop :=
  exists (i : nat) (v centroid : vec),
    labels !! i = Some (cluster_id e)
    /\ _article_ids m !! i = Some (Some (article_id e))
    /\ _tfidf_matrix m !! i = Some v
    /\ centers !! Z.to_nat (cluster_id e) = Some centroid
    /\ distance_to_centroid e = (1 - cosine_similarity v centroid)%Q
    /\ forall (j : nat) (w : vec),
         labels !! j = Some (cluster_id e) ->
         _tfidf_matrix m !! j = Some w ->
         (cosine_similarity w centroid <= cosine_similarity v centroid)%Q.

(** [build_clusters] over [articles = store.get_all_articles()]; the
    examples and the model it saves are its result. *)
Definition build_clusters (articles : list Article) (settings : Settings)
    : outcome (list FewShotExample * selector_model) :=
  match articles with
  | [] => Raised (RuntimeError "No articles in corpus")
  | _ :: _ =>
      let texts := (fun a => title a +:+ " " +:+ content a) <$> articles in
      let article_ids := id <$> articles in
      let '(vectorizer, matrix) := fit_transform texts in
      let m := {| _vectorizer := vectorizer; _tfidf_matrix := matrix;
                  _article_ids := article_ids |} in
      let n_clusters := Z.min (Models.n_clusters settings) (len articles) in
      '(labels, centers) ← kmeans n_clusters matrix;
      examples ← for_each (cluster_step m labels centers) (py_range n_clusters) [];
      mret (examples, m)
  end.

(** [[i for i, aid in enumerate(article_ids) if aid in example_ids]] *)
Fixpoint positions_in (article_ids : list (option Z)) (example_ids : list Z) (i : nat)
    : list nat :=
  match article_ids with
  | [] => []
  | aid :: rest =>
      if match aid with
         | Some a => bool_decide (a ∈ example_ids)
         | None => false
         end
      then i :: positions_in rest example_ids (Datatypes.S i)
      else positions_in rest example_ids (Datatypes.S i)
  end.

Fixpoint lookup_ids (m : selector_model) (example_indices top_idx : list nat)
    : outcome (list Z) :=
  match top_idx with
  | [] => Returned []
  | i :: rest =>
      ei ← index example_indices i;
      aid ← index (_article_ids m) ei;
      ids ← lookup_ids m example_indices rest;
      match aid with
      | Some aid => Returned (aid :: ids)
      | None => Raised ValueError
      end
  end.

(** [find_similar], with the model loaded. *)
Definition find_similar (m : selector_model) (st : store) (text : string) (n : Z)
    : outcome (list Article) :=
  let example_ids := get_example_article_ids st in
  match example_ids with
  | [] => Raised (RuntimeError "No examples selected. Run `rewriter analyze` first.")
  | _ :: _ =>
      let input_vec := transform (_vectorizer m) text in
      let example_indices := positions_in (_article_ids m) example_ids 0 in
      match example_indices with
      | [] => Raised (RuntimeError "Example articles not found in TF-IDF model")
      | _ :: _ =>
          example_matrix ← rows (_tfidf_matrix m) example_indices;
          let similarities := cosine_similarity input_vec <$> example_matrix in
          let top_n := Z.min n (len example_indices) in
          let top_idx := reverse (slice_from (argsort similarities) (- top_n)) in
          article_ids ← lookup_ids m example_indices top_idx;
          Returned (get_articles_by_ids st article_ids)
      end
  end.

End WithSklearn.

(** *** A small stand-in for scikit-learn

    Rows are lists of rationals of unit length, for which the cosine
    similarity is the dot product; the vectorizer knows three texts; the
    clustering deals the rows out to the clusters in turn and takes the
    first [k] rows as centres. *)

Fixpoint dot (u v : list Q) : Q :=
  match u, v with
  | x :: u', y :: v' => (x * y + dot u' v')%Q
  | _, _ => 0%Q
  end.

Definition toy_vector (text : string) : list Q :=
  if String.eqb text "alpha one" then [1%Q; 0%Q]
  else if String.eqb text "beta two" then [0%Q; 1%Q]
  else if String.eqb text "alpha beta" then [(3 # 5)%Q; (4 # 5)%Q]
  else [0%Q; 0%Q].

Definition toy_fit_transform (texts : list string) : unit * list (list Q) :=
  (tt, toy_vector <$> texts).

Definition toy_transform (v : unit) (text : string) : list Q := toy_vector text.

Definition toy_kmeans (k : Z) (rows : list (list Q)) : outcome (list Z * list (list Q)) :=
  if (1 <=? k) && (k <=? len rows)
  then Returned ((fun i => Z.of_nat i mod k) <$> seq 0 (length rows), take (Z.to_nat k) rows)
  else Raised ValueError.

Definition article_1 : Article :=
  {| id := Some 1; title := "alpha"; content := "one";
     published_at := Some 100; categories := ["a"] |}.

Definition article_2 : Article :=
  {| id := Some 2; title := "beta"; content := "two";
     published_at := Some 200; categories := ["b"] |}.

Definition article_3 : Article :=
  {| id := Some 3; title := "alpha"; content := "beta";
     published_at := Some 300; categories := ["a"] |}.

(** The selector after [build_clusters] over the first two documents: each
    is the example of its own cluster. *)
Definition two_examples : list FewShotExample :=
  [ {| article_id := 1; cluster_id := 0; distance_to_centroid := (1 - (1 * 1 + (0 * 0 + 0)))%Q |};
    {| article_id := 2; cluster_id := 1; distance_to_centroid := (1 - (0 * 0 + (1 * 1 + 0)))%Q |} ].

Definition two_model : selector_model (vec:=list Q) (vectorizer:=unit) :=
  {| _vectorizer := tt;
     _tfidf_matrix := [[1%Q; 0%Q]; [0%Q; 1%Q]];
     _article_ids := [Some 1; Some 2] |}.

Definition two_store : store :=
  {| articles := [article_1; article_2]; examples := two_examples |}.

End Examples.

(** ** Further notions about the chunks *)

Module ChunkerNotions.
Import Chunker.

(** The test of [chunk_articles] that closes the running chunk [chunk]
    before [article] joins it. *)
Definition closes (settings : Settings) (token_counter : string -> Z)
    (chunk : list Article) (article : Article) : Prop :=
  chunk_tokens token_counter chunk + token_counter (article_text article)
    > chunk_max_tokens settings
  \/ len chunk >= chunk_articles_cap settings.

(** [next] starts with a document that closed [chunk]. *)
Definition follows (settings : Settings) (token_counter : string -> Z)
    (chunk next : list Article) : Prop :=
  match next with
  | article :: _ => closes settings token_counter chunk article
  | [] => False
  end.

(** Every chunk but the first starts with a document that did not fit the
    chunk before it. *)
Fixpoint greedy (settings : Settings) (token_counter : string -> Z)
    (chunks : list (list Article)) : Prop :=
  match chunks with
  | [] => True
  | chunk :: rest =>
      match rest with
      | [] => True
      | next :: _ => follows settings token_counter chunk next
      end /\ greedy settings token_counter rest
  end.

End ChunkerNotions.

(** ** Further notions about the sample *)

Module SamplerNotions.
Import Sampler.

(** The time slice [s] of a category: [cat_articles[start:end]] as the
    loop of [stratified_sample] cuts it. *)
Definition time_slice (cat_articles : list Article) (n_slices slice_size s : Z)
    : list Article :=
  slice cat_articles (s * slice_size)
        (if s <? n_slices - 1 then s * slice_size + slice_size else len cat_articles).

(** Some document of [sample] has the primary category of [a]. *)
Definition represented (sample : list Article) (a : Article) : Prop :=
  exists b, b ∈ sample /\ primary_category b = primary_category a.

(** The documents of a group share their primary category. *)
Definition one_category (grp : list Article) : Prop :=
  forall a b, a ∈ grp -> b ∈ grp -> primary_category a = primary_category b.

(** Documents in chronological order, a missing date counting as the
    epoch. *)
Definition by_date (a b : Article) : Prop := date_key a <= date_key b.

End SamplerNotions.

(** ** The batch submission and the polling loop *)

Module BatchPolling.
Import Client Batch.

Definition POLL_INTERVAL : Z := 30.

(** The [params] that [submit_batch] files for a request. *)
Definition submit_params (settings : Settings) (model : option string)
    (max_tokens : option Z) (temperature : option Q) (req : request) : create_kwargs :=
  let model := str_or model (analysis_model settings) in
  let max_tokens := int_or max_tokens (Models.max_tokens settings) in
  let temperature := default (1 # 2)%Q temperature in
  {| kw_model := model;
     kw_max_tokens := max_tokens;
     kw_temperature := temperature;
     kw_messages := messages req;
     kw_system := match system req with
                  | Some s => if String.eqb s "" then None else Some s
                  | None => None
                  end |}.

(** [batch_requests] of [submit_batch]: a [Request(custom_id, params)] for
    every request, in order. *)
Definition batch_requests (settings : Settings) (requests : list request)
    (model : option string) (max_tokens : option Z) (temperature : option Q)
    : list (string * create_kwargs) :=
  (fun req => (custom_id req, submit_params settings model max_tokens temperature req))
    <$> requests.

Section WithBatches.
(** The batch service: [retrieve] answers [batches.retrieve(batch_id)] with
    the batch's [processing_status], and [results] gives the events that
    [batches.results(batch_id)] yields. *)
Context {B : Type}.
Variable retrieve : B -> string -> outcome string * B.
Variable results : B -> string -> list batch_event.

(** What polling changes: the service and the clock (the [time.sleep]
    calls, in order). *)
Record poller : Type := {
  batches : B;
  waited : list Z;
}.

(** [wait_for_batch]: the loop [while True] has no bound of its own, so the
    model counts its iterations down from [fuel] and gives [None] when they
    do not suffice. *)
Fixpoint wait_for_batch (fuel : nat) (batch_id : string) (p : poller)
    : option (outcome (gmap string string) * poller) :=
  match fuel with
  | O => None
  | Datatypes.S fuel' =>
      let '(batch, b) := retrieve (batches p) batch_id in
      match batch with
      | Raised e => Some (Raised e, {| batches := b; waited := waited p |})
      | Returned status =>
          if String.eqb status "ended"
          then Some (Returned (_collect_results (results b batch_id)),
                     {| batches := b; waited := waited p |})
          else wait_for_batch fuel' batch_id
                 {| batches := b; waited := waited p ++ [POLL_INTERVAL] |}
      end
  end.

(** The service after [n] polls, and the answer to the poll after them. *)
Fixpoint poll_state (batch_id : string) (b : B) (n : nat) : B :=
  match n with
  | O => b
  | Datatypes.S n' => poll_state batch_id (retrieve b batch_id).2 n'
  end.

Definition poll_answer (batch_id : string) (b : B) (n : nat) : outcome string :=
  (retrieve (poll_state batch_id b n) batch_id).1.

(** The poll after [n] polls finds the batch still in progress. *)
Definition pending (batch_id : string) (b : B) (n : nat) : Prop :=
  exists status,
    poll_answer batch_id b n = Returned status /\ String.eqb status "ended" = false.

End WithBatches.

(** A batch that ends at its third poll, and one that never ends. *)
Definition third_poll (n : nat) (batch_id : string) : outcome string * nat :=
  (Returned (if (n <? 2)%nat then "in_progress" else "ended"), Datatypes.S n).

Definition never_ended (n : nat) (batch_id : string) : outcome string * nat :=
  (Returned "in_progress", Datatypes.S n).

Definition one_event (b : nat) (batch_id : string) : list batch_event :=
  [ {| event_custom_id := "chunk_0"; result := succeeded (sample_response "ok") |} ].

End BatchPolling.

(** ** The usage counters of the client *)

Module ClientUsage.
Import Client Batch.

(** [response.usage] as the service hands it over.  An attribute can hold
    no number: the SDK types the two cache counts as optional, and
    [getattr(usage, name, 0)] gives its default only for an attribute that
    is missing, which reads as [Some 0] here. *)
Record raw_usage : Type := {
  raw_input_tokens : option Z;
  raw_output_tokens : option Z;
  raw_cache_read_input_tokens : option Z;
  raw_cache_creation_input_tokens : option Z;
}.

Record raw_response : Type := {
  raw_content : list content_block;
  raw_usage_of : raw_usage;
}.

Definition TypeError : exn := OtherError "TypeError".

(** [_track_usage]: four [+=] in turn; adding [None] to a counter raises
    [TypeError] and leaves the counters before it updated. *)
Definition _track_usage (u : raw_usage) (t : usage) : outcome unit * usage :=
  match raw_input_tokens u with
  | None => (Raised TypeError, t)
  | Some n =>
      let t := {| input_tokens := input_tokens t + n;
                  output_tokens := output_tokens t;
                  cache_read_input_tokens := cache_read_input_tokens t;
                  cache_creation_input_tokens := cache_creation_input_tokens t |} in
      match raw_output_tokens u with
      | None => (Raised TypeError, t)
      | Some n =>
          let t := {| input_tokens := input_tokens t;
                      output_tokens := output_tokens t + n;
                      cache_read_input_tokens := cache_read_input_tokens t;
                      cache_creation_input_tokens := cache_creation_input_tokens t |} in
          match raw_cache_read_input_tokens u with
          | None => (Raised TypeError, t)
          | Some n =>
              let t := {| input_tokens := input_tokens t;
                          output_tokens := output_tokens t;
                          cache_read_input_tokens := cache_read_input_tokens t + n;
                          cache_creation_input_tokens := cache_creation_input_tokens t |} in
              match raw_cache_creation_input_tokens u with
              | None => (Raised TypeError, t)
              | Some n =>
                  (Returned tt,
                   {| input_tokens := input_tokens t;
                      output_tokens := output_tokens t;
                      cache_read_input_tokens := cache_read_input_tokens t;
                      cache_creation_input_tokens := cache_creation_input_tokens t + n |})
              end
          end
      end
  end.

Section WithService.
Context {S : Type}.
Variable messages_create : S -> create_kwargs -> outcome raw_response * S.

Definition with_totals (t : usage) (c : client (S:=S)) : client (S:=S) :=
  {| service := service c; slept := slept c; totals := t |}.

(** The loop of [complete], with the usage tracked as the code tracks it:
    [_track_usage] runs inside the [try], and neither [except] clause
    catches what it raises. *)
Fixpoint complete_loop (attempts : list Z) (kwargs : create_kwargs) (c : client (S:=S))
    : outcome string * client (S:=S) :=
  match attempts with
  | [] => (Raised (RuntimeError "Failed after 10 retries"), c)
  | attempt :: rest =>
      let '(result, s) := messages_create (service c) kwargs in
      let c := with_service s c in
      match result with
      | Returned resp =>
          let '(tracked, t) := _track_usage (raw_usage_of resp) (totals c) in
          match tracked with
          | Returned _ => (Returned (extract_text_blocks (raw_content resp)), with_totals t c)
          | Raised e => (Raised e, with_totals t c)
          end
      | Raised (RateLimitError retry_after) =>
          let delay := backoff attempt in
          let delay :=
            match retry_after with
            | Some ra => py_max delay ra
            | None => delay
            end in
          complete_loop rest kwargs (sleep delay c)
      | Raised (APIStatusError status_code) =>
          if (status_code >=? 500) || (status_code =? 529)
          then complete_loop rest kwargs (sleep (backoff attempt) c)
          else (Raised (APIStatusError status_code), c)
      | Raised e => (Raised e, c)
      end
  end.

Definition complete (settings : Settings) (system : string) (messages : list message)
    (model : option string) (max_tokens : option Z) (temperature : option Q)
    (c : client (S:=S)) : outcome string * client (S:=S) :=
  let kwargs := complete_kwargs settings system messages model max_tokens temperature in
  complete_loop (Sampler.py_range MAX_RETRIES) kwargs c.

(** The service after [n] calls in a row with the same arguments, and what
    it answered to them. *)
Fixpoint service_after (kwargs : create_kwargs) (s : S) (n : nat) : S :=
  match n with
  | O => s
  | Datatypes.S n' => service_after kwargs (messages_create s kwargs).2 n'
  end.

Fixpoint answers (kwargs : create_kwargs) (s : S) (n : nat) : list (outcome raw_response) :=
  match n with
  | O => []
  | Datatypes.S n' =>
      (messages_create s kwargs).1 :: answers kwargs (messages_create s kwargs).2 n'
  end.

End WithService.

(** *** The accounting in the words of its purpose *)

(** The four counters, and the four numbers of a usage, in the order
    [_track_usage] adds them. *)
Definition counters (t : usage) : list Z :=
  [input_tokens t; output_tokens t; cache_read_input_tokens t;
   cache_creation_input_tokens t].

Definition reported (u : raw_usage) : list (option Z) :=
  [raw_input_tokens u; raw_output_tokens u; raw_cache_read_input_tokens u;
   raw_cache_creation_input_tokens u].

(** Every counter takes its number, up to the first number that is
    missing. *)
Fixpoint add_while_present (cs : list Z) (rs : list (option Z)) : list Z :=
  match cs, rs with
  | c :: cs', Some r :: rs' => (c + r) :: add_while_present cs' rs'
  | _, _ => cs
  end.

(** The text of the first text block, or the empty string. *)
Definition first_text (blocks : list content_block) : string :=
  match text_blocks blocks with
  | block :: _ => block_text block
  | [] => ""
  end.

(** A response whose usage has all four numbers. *)
Definition raw_of (r : response) : raw_response :=
  {| raw_content := response_content r;
     raw_usage_of :=
       {| raw_input_tokens := Some (input_tokens (response_usage r));
          raw_output_tokens := Some (output_tokens (response_usage r));
          raw_cache_read_input_tokens := Some (cache_read_input_tokens (response_usage r));
          raw_cache_creation_input_tokens :=
            Some (cache_creation_input_tokens (response_usage r)) |} |}.

End ClientUsage.

(** ** The chunk analysis of the style extractor *)

Module Analysis.
Import Client Batch Chunker PyStr.

(** [ChunkAnalysis], without its time stamp. *)
Record ChunkAnalysis : Type := {
  chunk_id : Z;
  article_ids : list Z;
  analysis_text : string;
  token_count : Z;
}.

(** The custom id [chunk_<i>] of the request for chunk [i]. *)
Definition chunk_custom_id (i : Z) : string := "chunk_" +:+ pretty i.

(** [[a.id for a in chunk if a.id]]: an id that is [None] or [0] is left
    out. *)
Definition truthy_ids (chunk : list Article) : list Z :=
  omap (fun a => match id a with
                 | Some i => if i =? 0 then None else Some i
                 | None => None
                 end) chunk.

Section AnalyzeChunks.
Context {S : Type}.
Variable messages_create : S -> create_kwargs -> outcome response * S.
(** The prompts of [rewriter.analyzer.prompts] (the system prompt and the
    user template, filled in by [str.format]), the date format
    [strftime('%Y-%m-%d')], the token counter of the client, and the batch
    path [submit_and_wait] as far as its caller sees it: it returns the
    collected results or raises. *)
Variable CHUNK_ANALYSIS_SYSTEM : string.
Variable CHUNK_ANALYSIS_USER : string -> string.
Variable strftime : Z -> string.
Variable count_tokens : string -> Z.
Variable submit_and_wait : list request -> outcome (gmap string string).

(** [_format_chunk] *)
Definition format_article (a : Article) : string :=
  let header := "### «" +:+ title a +:+ "»" in
  let header :=
    match categories a with
    | [] => header
    | _ :: _ => header +:+ " [" +:+ join ", " (categories a) +:+ "]"
    end in
  let header :=
    match published_at a with
    | Some d => header +:+ " (" +:+ strftime d +:+ ")"
    | None => header
    end in
  header +:+ LF +:+ LF +:+ content a.

Definition _format_chunk (articles : list Article) : string :=
  join (LF +:+ LF +:+ "---" +:+ LF +:+ LF) (format_article <$> articles).

(** The request of chunk [i]. *)
Definition chunk_request (i : Z) (chunk : list Article) : request :=
  {| custom_id := chunk_custom_id i;
     system := Some CHUNK_ANALYSIS_SYSTEM;
     messages := [ {| role := "user";
                      message_content := CHUNK_ANALYSIS_USER (_format_chunk chunk) |} ] |}.

(** [for i, chunk in enumerate(chunks)], from index [i] on. *)
Fixpoint build_requests (i : Z) (chunks : list (list Article)) : list request :=
  match chunks with
  | [] => []
  | chunk :: rest => chunk_request i chunk :: build_requests (i + 1) rest
  end.

(** The analysis of chunk [i], given the results. *)
Definition chunk_analysis (results : gmap string string) (i : Z) (chunk : list Article)
    : ChunkAnalysis :=
  let text := default "" (results !! chunk_custom_id i) in
  {| chunk_id := i;
     article_ids := truthy_ids chunk;
     analysis_text := text;
     token_count := count_tokens text |}.

Fixpoint save_analyses (results : gmap string string) (i : Z)
    (chunks : list (list Article)) : list ChunkAnalysis :=
  match chunks with
  | [] => []
  | chunk :: rest => chunk_analysis results i chunk :: save_analyses results (i + 1) rest
  end.

(** The [# Execute] step: the batch path, with the sequential path as its
    fallback on any exception, or the sequential path alone. *)
Definition execute (settings : Settings) (service0 : S) (use_batch : bool)
    (requests : list request) : outcome (gmap string string) :=
  let sequential :=
    (fallback_sequential messages_create settings service0 requests None None None).1 in
  if use_batch then
    match submit_and_wait requests with
    | Returned results => Returned results
    | Raised _ => sequential
    end
  else sequential.

(** [_analyze_chunks]; the analyses it returns are also the rows it saves,
    in order. *)
Definition _analyze_chunks (settings : Settings) (service0 : S)
    (sample : list Article) (use_batch : bool) : outcome (list ChunkAnalysis) :=
  let chunks := chunk_articles sample settings count_tokens in
  let requests := build_requests 0 chunks in
  results ← execute settings service0 use_batch requests;
  mret (save_analyses results 0 chunks).

End AnalyzeChunks.

End Analysis.

(** ** The category distribution of the store *)

Module CorpusStore.

(** [dist[cat] = dist.get(cat, 0) + 1] on a dict in insertion order. *)
Fixpoint dict_incr (cat : string) (dist : list (string * Z)) : list (string * Z) :=
  match dist with
  | [] => [(cat, 0 + 1)]
  | (k, v) :: dist' =>
      if String.eqb k cat then (k, v + 1) :: dist'
      else (k, v) :: dict_incr cat dist'
  end.

(** The two nested loops over the articles and their categories. *)
Definition count_categories (articles : list Article) : list (string * Z) :=
  foldl (fun dist a => foldl (fun dist cat => dict_incr cat dist) dist (categories a))
        [] articles.

(** [sorted(dist.items(), key=lambda x: -x[1])]: a stable sort, so an item
    is placed before the later items whose key is not smaller. *)
Fixpoint insert_by_count (p : string * Z) (l : list (string * Z)) : list (string * Z) :=
  match l with
  | [] => [p]
  | q :: l' => if - p.2 <=? - q.2 then p :: q :: l' else q :: insert_by_count p l'
  end.

Definition sort_by_count (l : list (string * Z)) : list (string * Z) :=
  foldr insert_by_count [] l.

(** [get_categories_distribution], over the rows [get_all_articles]
    returns. *)
Definition get_categories_distribution (articles : list Article) : list (string * Z) :=
  sort_by_count (count_categories articles).

(** The category labels of the articles, with repetitions, and how often a
    label occurs among them. *)
Definition labels (articles : list Article) : list string :=
  concat (categories <$> articles).

Definition occurrences (cat : string) (l : list string) : Z :=
  len (List.filter (String.eqb cat) l).

Definition dict_get (dist : list (string * Z)) (cat : string) : option Z :=
  snd <$> List.find (fun kv => String.eqb kv.1 cat) dist.

Definition total (dist : list (string * Z)) : Z :=
  foldr (fun kv acc => kv.2 + acc) 0 dist.

End CorpusStore.

(** ** Further notions about the examples *)

Module ExamplesNotions.
Import Examples.

(** [save_examples]: the rows of the examples table are replaced. *)
Definition save_examples (st : store) (new : list FewShotExample) : store :=
  {| articles := articles st; examples := new |}.

(** Rows in ascending order of their id. *)
Definition by_id (a b : Article) : Prop := row_id a <= row_id b.

End ExamplesNotions.

(** * Properties *)

Module ChunkerFacts.
Import Chunker.

Lemma chunk_tokens_snoc tc (c : list Article) a :
  chunk_tokens tc (c ++ [a]) = chunk_tokens tc c + tc (article_text a).
Proof.
  unfold chunk_tokens. induction c as [|b c IH]; simpl; [lia|].
  rewrite IH. lia.
Qed.

Lemma chunk_inv_init settings tc :
  chunk_inv settings tc []
    {| chunks := []; current_chunk := []; current_tokens := 0 |}.
Proof. split; simpl; auto. Qed.

Lemma chunk_inv_step settings tc seen st a :
  chunk_inv settings tc seen st ->
  chunk_inv settings tc (seen ++ [a]) (chunk_step settings tc st a).
Proof.
  intros [Hne Hok Hord Htok Hcur].
  unfold chunk_step.
  destruct (current_chunk st) as [|b rest] eqn:Ecur.
  - (* the running chunk is empty: the document starts it *)
    split; simpl; rewrite ?Ecur; simpl; auto.
    + subst seen. now rewrite app_nil_r.
    + rewrite Htok. unfold chunk_tokens. simpl. lia.
    + right. right. reflexivity.
  - destruct ((current_tokens st + tc (article_text a) >? chunk_max_tokens settings)
              || (len (b :: rest) >=? chunk_articles_cap settings)) eqn:Eclose.
    + (* close the running chunk, start a new one with the document *)
      split; simpl.
      * apply Forall_app; split; [exact Hne|]. constructor; [discriminate|constructor].
      * apply Forall_app; split; [exact Hok|].
        constructor; [|constructor].
        destruct Hcur as [Hcur|Hcur]; [discriminate|exact Hcur].
      * rewrite concat_app. simpl. rewrite app_nil_r. subst seen.
        now rewrite <- app_assoc.
      * unfold chunk_tokens. simpl. lia.
      * right. right. reflexivity.
    + (* the document joins the running chunk *)
      apply orb_false_iff in Eclose as [Etok Elen].
      rewrite Z.gtb_ltb, Z.ltb_ge in Etok. rewrite Z.geb_leb, Z.leb_gt in Elen.
      split; simpl; rewrite ?Ecur; auto.
      * subst seen. now rewrite app_assoc.
      * rewrite (chunk_tokens_snoc tc (b :: rest) a), Htok. reflexivity.
      * right. left. split.
        -- rewrite (chunk_tokens_snoc tc (b :: rest) a), <- Htok. lia.
        -- unfold len in *. rewrite length_app. simpl in *. lia.
Qed.

Lemma chunk_loop_inv settings tc articles :
  chunk_inv settings tc articles (chunk_loop settings tc articles).
Proof.
  unfold chunk_loop.
  induction articles as [|a l IH] using rev_ind.
  - apply chunk_inv_init.
  - rewrite foldl_app. simpl. now apply chunk_inv_step.
Qed.

(** C3. For every document list, token budget, item cap and token counter,
    [chunk_articles] returns chunks that are all non-empty, whose
    concatenation in order is the input list, and each of which either fits
    the token budget and the item cap or consists of exactly one document. *)
Theorem chunk_articles_partition :
  forall (articles : list Article) (settings : Settings) (token_counter : string -> Z),
    Forall (fun c => c <> []) (chunk_articles articles settings token_counter)
    /\ concat (chunk_articles articles settings token_counter) = articles
    /\ Forall (chunk_ok settings token_counter)
              (chunk_articles articles settings token_counter).
Proof.
  intros articles settings tc.
  destruct (chunk_loop_inv settings tc articles) as [Hne Hok Hord Htok Hcur].
  unfold chunk_articles.
  destruct (current_chunk (chunk_loop settings tc articles)) as [|b rest] eqn:Ecur.
  - rewrite app_nil_r in Hord. auto.
  - repeat split.
    + apply Forall_app; split; [exact Hne|]. constructor; [discriminate|constructor].
    + rewrite concat_app. simpl. now rewrite app_nil_r.
    + apply Forall_app; split; [exact Hok|]. constructor; [|constructor].
      destruct Hcur as [Hcur|Hcur]; [discriminate|exact Hcur].
Qed.

End ChunkerFacts.

Module SamplerFacts.
Import Sampler.

Lemma len_nonneg {A} (l : list A) : 0 <= len l.
Proof. unfold len. lia. Qed.

Lemma len_app {A} (l k : list A) : len (l ++ k) = len l + len k.
Proof. unfold len. rewrite length_app. lia. Qed.

Lemma len_nil_iff {A} (l : list A) : len l = 0 <-> l = [].
Proof. unfold len. destruct l; simpl; split; intros; try done; lia. Qed.

(** A slice with bounds inside the list has the length of its bounds. *)
Lemma len_slice {A} (l : list A) (a b : Z) :
  0 <= a <= b -> b <= len l -> len (slice l a b) = b - a.
Proof.
  intros Hab Hb. unfold slice, clamp_index, len in *.
  rewrite length_take, length_drop.
  destruct (a <? 0) eqn:Ea; [apply Z.ltb_lt in Ea; lia|].
  destruct (b <? 0) eqn:Eb; [apply Z.ltb_lt in Eb; lia|].
  lia.
Qed.

Lemma cat_quota_bounds target_n n_cat n_all :
  1 <= n_cat -> 1 <= cat_quota target_n n_cat n_all <= n_cat.
Proof. unfold cat_quota. lia. Qed.

(** *** Grouping and sorting keep every document *)

Lemma total_len_cons grp groups : total_len (grp :: groups) = len grp + total_len groups.
Proof. reflexivity. Qed.

Lemma quota_sum_cons target_n n_all grp groups :
  quota_sum target_n n_all (grp :: groups)
  = cat_quota target_n (len grp) n_all + quota_sum target_n n_all groups.
Proof. reflexivity. Qed.

Lemma dict_append_total cat a d :
  total_len ((dict_append cat a d).*2) = total_len (d.*2) + 1.
Proof.
  induction d as [|[k v] d IH]; [reflexivity|].
  cbn [dict_append]. destruct (String.eqb k cat).
  - rewrite !fmap_cons, !total_len_cons. cbn [snd]. rewrite len_app.
    unfold len at 2. simpl. lia.
  - rewrite !fmap_cons, !total_len_cons, IH. lia.
Qed.

Lemma dict_append_nonempty cat a d :
  Forall (fun grp => grp <> []) (d.*2) ->
  Forall (fun grp => grp <> []) ((dict_append cat a d).*2).
Proof.
  induction d as [|[k v] d IH]; simpl; intros Hd.
  - constructor; [discriminate|constructor].
  - inversion Hd as [|? ? Hv Hd']; subst.
    destruct (String.eqb k cat); simpl; constructor; auto.
    destruct v; discriminate.
Qed.

Lemma group_by_category_spec articles :
  total_len ((group_by_category articles).*2) = len articles
  /\ Forall (fun grp => grp <> []) ((group_by_category articles).*2).
Proof.
  unfold group_by_category.
  induction articles as [|a l [IHt IHn]] using rev_ind; [split; [reflexivity|constructor]|].
  rewrite foldl_app. simpl. split.
  - rewrite dict_append_total, IHt, len_app. reflexivity.
  - now apply dict_append_nonempty.
Qed.

Lemma insert_by_date_perm a l : insert_by_date a l ≡ₚ a :: l.
Proof.
  induction l as [|b l IH]; simpl; [reflexivity|].
  destruct (date_key a <=? date_key b); [reflexivity|].
  rewrite IH. apply Permutation_swap.
Qed.

Lemma sort_by_date_perm l : sort_by_date l ≡ₚ l.
Proof.
  unfold sort_by_date. induction l as [|a l IH]; simpl; [reflexivity|].
  rewrite insert_by_date_perm. now constructor.
Qed.

Lemma len_sort_by_date l : len (sort_by_date l) = len l.
Proof. unfold len. now rewrite (Permutation_length (sort_by_date_perm l)). Qed.

Lemma sorted_groups_spec articles :
  total_len (sorted_groups articles) = len articles
  /\ Forall (fun grp => 1 <= len grp) (sorted_groups articles).
Proof.
  unfold sorted_groups.
  destruct (group_by_category_spec articles) as [Ht Hn].
  rewrite <- Ht. clear Ht.
  induction (group_by_category articles) as [|[k v] d IH].
  - split; [reflexivity|constructor].
  - rewrite !fmap_cons in *. cbn [snd] in *.
    inversion Hn as [|? ? Hv Hd]; subst.
    destruct (IH Hd) as [IHt IHn]. split.
    + rewrite !total_len_cons, len_sort_by_date, IHt. reflexivity.
    + constructor; [|exact IHn].
      rewrite len_sort_by_date. destruct v; [done|]. unfold len. simpl. lia.
Qed.

Lemma quota_sum_le_total target_n n_all groups :
  Forall (fun grp => 1 <= len grp) groups ->
  Z.of_nat (length groups) <= quota_sum target_n n_all groups <= total_len groups.
Proof.
  induction 1 as [|grp groups Hg _ IH]; [cbn; lia|].
  rewrite quota_sum_cons, total_len_cons. cbn [length].
  pose proof (cat_quota_bounds target_n (len grp) n_all Hg). lia.
Qed.

(** *** The time-slice loop fills the quota *)

Section Allocation.
Context {G : Type} `{RandomSource G}.
Hypothesis laws : RandomLaws G.

(** One slice: the draw is in range, so it returns what was asked for. *)
Lemma slice_step_returns (cat_articles : list Article) (n_slices slice_size : Z)
    (st : slice_state) (s stop m : Z) :
  stop = (if s <? n_slices - 1 then s * slice_size + slice_size else len cat_articles) ->
  len (slice cat_articles (s * slice_size) stop) = m ->
  0 <= remainder st / (n_slices - s) ->
  exists r g',
    slice_step cat_articles n_slices slice_size st s
    = Returned {| selected := selected st ++ r;
                  remainder := remainder st - Z.min (remainder st / (n_slices - s)) m;
                  rng := g' |}
    /\ len r = Z.min (remainder st / (n_slices - s)) m.
Proof.
  intros -> Hm Hx. unfold slice_step. cbv zeta. rewrite Hm.
  pose proof (len_nonneg (slice cat_articles (s * slice_size)
    (if s <? n_slices - 1 then s * slice_size + slice_size else len cat_articles))).
  destruct (sample_in_range G laws Article (rng st)
              (slice cat_articles (s * slice_size)
                 (if s <? n_slices - 1 then s * slice_size + slice_size
                  else len cat_articles))
              (Z.min (remainder st / (n_slices - s)) m))
    as (r & g' & -> & Hr & _); [lia|].
  exists r, g'. split; [reflexivity|exact Hr].
Qed.

(** From slice [s] on, with [k] slices left: whenever the quota still to
    fill fits into the documents of the slices left, the loop returns and
    fills it.  The last slice runs to the end of the group and is asked for
    all of the remainder, which is why the caps on the earlier slices cost
    nothing. *)
Lemma slices_from_fill (cat_articles : list Article) (n_slices : Z) :
  forall (k s : nat) (st : slice_state),
    n_slices = Z.of_nat (s + k) ->
    1 <= n_slices ->
    0 <= remainder st <= len cat_articles - Z.of_nat s * (len cat_articles / n_slices) ->
    (k = 0%nat -> remainder st = 0) ->
    exists picked g',
      for_each (slice_step cat_articles n_slices (len cat_articles / n_slices))
               (Z.of_nat <$> seq s k) st
      = Returned {| selected := selected st ++ picked; remainder := 0; rng := g' |}
      /\ len picked = remainder st.
Proof.
  set (L := len cat_articles). set (ss := L / n_slices).
  induction k as [|k IH]; intros s st Hns Hpos Hrem Hlast.
  - exists [], (rng st). specialize (Hlast eq_refl). cbn. rewrite app_nil_r.
    split; [|now rewrite Hlast].
    destruct st as [sel0 rem0 g0]. cbn in *. now subst rem0.
  - assert (Hfit : n_slices * ss <= L) by (apply Z.mul_div_le; lia).
    assert (Hss : 0 <= ss) by (apply Z.div_pos; [apply len_nonneg|lia]).
    cbn [seq fmap list_fmap for_each].
    set (d := n_slices - Z.of_nat s).
    assert (Hd : d = Z.of_nat (S k)) by lia.
    assert (Hx : 0 <= remainder st / d) by (apply Z.div_pos; lia).
    assert (Hxle : remainder st / d <= remainder st)
      by (apply Z.div_le_upper_bound; nia).
    destruct k as [|k].
    + (* the last slice: it runs to the end and takes all that is left *)
      destruct (slice_step_returns cat_articles n_slices ss st (Z.of_nat s)
                  L (L - Z.of_nat s * ss))
        as (r & g' & -> & Hr).
      * replace (Z.of_nat s <? n_slices - 1) with false; [reflexivity|].
        symmetry. apply Z.ltb_ge. lia.
      * apply len_slice; fold L; nia.
      * exact Hx.
      * fold d in Hr |- *. replace d with 1 in * by lia.
        rewrite Z.div_1_r, Z.min_l in * by lia.
        exists r, g'. cbn. rewrite Z.sub_diag. split; [reflexivity|exact Hr].
    + (* an earlier slice of [ss] documents, capped at its size *)
      destruct (slice_step_returns cat_articles n_slices ss st (Z.of_nat s)
                  (Z.of_nat s * ss + ss) ss)
        as (r & g' & -> & Hr).
      * replace (Z.of_nat s <? n_slices - 1) with true; [reflexivity|].
        symmetry. apply Z.ltb_lt. lia.
      * rewrite len_slice; fold L; nia.
      * exact Hx.
      * fold d in Hr |- *.
        set (n := Z.min (remainder st / d) ss) in *.
        cbn [mbind outcome_bind].
        assert (Hnext : remainder st - n <= L - Z.of_nat (S s) * ss).
        { destruct (Z.le_gt_cases ss (remainder st / d)) as [Hcap|Hfree].
          - (* capped: the slice gives all it has *)
            replace n with ss by lia. lia.
          - (* not capped: the rest fits the slices left even without the
               documents beyond [n_slices * ss] *)
            replace n with (remainder st / d) by lia.
            pose proof (Z.div_mod (remainder st) d ltac:(lia)) as Hdm.
            pose proof (Z.mod_pos_bound (remainder st) d ltac:(lia)) as Hmod.
            assert ((d - 1) * (remainder st / d) <= (d - 1) * (ss - 1)) by nia.
            nia. }
        destruct (IH (S s)
                    {| selected := selected st ++ r; remainder := remainder st - n;
                       rng := g' |})
          as (picked & g'' & Hrun & Hpicked); cbn [remainder selected rng];
          [lia|lia|lia|discriminate|].
        exists (r ++ picked), g''. rewrite app_assoc. split.
        -- exact Hrun.
        -- cbn [remainder] in Hpicked. rewrite len_app, Hr, Hpicked. lia.
Qed.

(** A category whose quota is smaller than its size gets exactly its quota. *)
Lemma time_slices_fill (cat_articles : list Article) (cat_n : Z)
    (sel : list Article) (g : G) :
  1 <= cat_n <= len cat_articles ->
  exists picked g',
    time_slices cat_articles cat_n sel g = Returned (sel ++ picked, g')
    /\ len picked = cat_n.
Proof.
  intros Hq. unfold time_slices, py_range.
  destruct (slices_from_fill cat_articles (Z.min cat_n 4) (Z.to_nat (Z.min cat_n 4)) 0
              {| selected := sel; remainder := cat_n; rng := g |})
    as (picked & g' & -> & Hlen); cbn [remainder selected rng]; try lia.
  exists picked, g'. split; [reflexivity|exact Hlen].
Qed.

Lemma category_step_fill (target_n n_all : Z) (sel : list Article) (g : G)
    (cat_articles : list Article) :
  1 <= len cat_articles ->
  exists picked g',
    category_step target_n n_all (sel, g) cat_articles = Returned (sel ++ picked, g')
    /\ len picked = cat_quota target_n (len cat_articles) n_all.
Proof.
  intros Hne. unfold category_step.
  pose proof (cat_quota_bounds target_n (len cat_articles) n_all Hne) as Hq.
  destruct (cat_quota target_n (len cat_articles) n_all >=? len cat_articles) eqn:Eall.
  - rewrite Z.geb_leb in Eall. apply Z.leb_le in Eall.
    exists cat_articles, g. split; [reflexivity|lia].
  - apply time_slices_fill. exact Hq.
Qed.

Lemma allocation_fill (target_n n_all : Z) (groups : list (list Article)) :
  Forall (fun grp => 1 <= len grp) groups ->
  forall (sel : list Article) (g : G),
    exists picked g',
      for_each (category_step target_n n_all) groups (sel, g) = Returned (sel ++ picked, g')
      /\ len picked = quota_sum target_n n_all groups.
Proof.
  induction 1 as [|grp groups Hg _ IH]; intros sel g.
  - exists [], g. cbn. rewrite app_nil_r. auto.
  - cbn [for_each].
    destruct (category_step_fill target_n n_all sel g grp Hg) as (p1 & g1 & -> & Hp1).
    cbn [mbind outcome_bind].
    destruct (IH (sel ++ p1) g1) as (p2 & g2 & -> & Hp2).
    exists (p1 ++ p2), g2. rewrite app_assoc, len_app, quota_sum_cons. split; [reflexivity|lia].
Qed.

End Allocation.

Lemma prefix_random_laws : RandomLaws unit.
Proof.
  split.
  - intros A g l k Hk. exists (take (Z.to_nat k) l), tt. cbn.
    replace ((k <? 0) || (len l <? k)) with false.
    + repeat split.
      * unfold len in *. rewrite length_take. lia.
      * apply sublist_submseteq, sublist_take.
    + symmetry. apply orb_false_iff. split; [apply Z.ltb_ge|apply Z.ltb_ge]; lia.
  - intros A g l k Hk. cbn.
    replace ((k <? 0) || (len l <? k)) with true; [reflexivity|].
    symmetry. apply orb_true_iff. destruct Hk; [left|right]; apply Z.ltb_lt; lia.
  - intros A g l. reflexivity.
Qed.

(** *** The sample as a whole *)

Section SampleSize.
Context {G : Type} `{RandomSource G}.
Hypothesis laws : RandomLaws G.

Lemma proportional_allocation_fill (articles : list Article) (settings : Settings) (g : G) :
  exists sel g',
    proportional_allocation articles settings g = Returned (sel, g')
    /\ len sel = quota_sum (target_count settings (len articles)) (len articles)
                          (sorted_groups articles).
Proof.
  unfold proportional_allocation.
  destruct (sorted_groups_spec articles) as [_ Hne].
  destruct (allocation_fill laws (target_count settings (len articles)) (len articles)
              (sorted_groups articles) Hne [] g) as (picked & g' & Hrun & Hlen).
  exists picked, g'. split; [exact Hrun|exact Hlen].
Qed.

Lemma quota_sum_bounds (articles : list Article) (target_n : Z) :
  quota_sum target_n (len articles) (sorted_groups articles) <= len articles
  /\ (articles <> [] -> 1 <= quota_sum target_n (len articles) (sorted_groups articles)).
Proof.
  destruct (sorted_groups_spec articles) as [Ht Hne].
  pose proof (quota_sum_le_total target_n (len articles) _ Hne) as Hq.
  split; [lia|].
  intros Harticles.
  destruct (sorted_groups articles) as [|grp groups].
  - cbn in Ht. symmetry in Ht. apply len_nil_iff in Ht. contradiction.
  - cbn [length] in Hq. lia.
Qed.

Lemma stratified_sample_returns (articles : list Article) (settings : Settings) (seed : Z) :
  exists sample,
    stratified_sample articles settings seed = Returned sample
    /\ len sample <= len articles
    /\ len sample <= target_count settings (len articles)
    /\ (articles <> [] -> 1 <= len sample).
Proof.
  unfold stratified_sample.
  destruct (proportional_allocation_fill articles settings (rng_seed seed))
    as (sel & g & -> & Hsel).
  destruct (quota_sum_bounds articles (target_count settings (len articles))) as [Hle Hge].
  rewrite <- Hsel in Hle, Hge.
  cbn [mbind outcome_bind].
  assert (Htarget : 10 <= target_count settings (len articles))
    by (unfold target_count; lia).
  destruct (len sel >? target_count settings (len articles)) eqn:Eover.
  - (* overshoot: down-sample to the target *)
    rewrite Z.gtb_ltb in Eover. apply Z.ltb_lt in Eover.
    destruct (sample_in_range G laws Article g sel (target_count settings (len articles)))
      as (r & g' & -> & Hr & _); [lia|].
    cbn [mbind outcome_bind mret outcome_ret].
    exists (rng_shuffle g' r).1. split; [reflexivity|].
    assert (Hshuf : len (rng_shuffle g' r).1 = len r)
      by (unfold len; now rewrite (Permutation_length (shuffle_permutes G laws Article g' r))).
    rewrite Hshuf, Hr. repeat split; [lia|lia|intros _; lia].
  - rewrite Z.gtb_ltb in Eover. apply Z.ltb_ge in Eover.
    cbn [mbind outcome_bind mret outcome_ret].
    exists (rng_shuffle g sel).1. split; [reflexivity|].
    assert (Hshuf : len (rng_shuffle g sel).1 = len sel)
      by (unfold len; now rewrite (Permutation_length (shuffle_permutes G laws Article g sel))).
    rewrite Hshuf. repeat split; [lia|lia|exact Hge].
Qed.

End SampleSize.

(** With a quota of 6 out of 7 the third slice is capped at its single
    document ([4 // 2 = 2] were asked of it) and the last slice makes up for
    it: 1 + 1 + 1 + 3. *)
Example time_slices_capped_slice :
  time_slices (G:=unit) seven_articles 6 [] tt
  = Returned (article_in "news" <$> [1; 2; 3; 4; 5; 6], tt).
Proof. reflexivity. Qed.

(** A corpus of fifty with the default fraction has target 10, and the
    rounded quotas 3 + 3 + 3 stay below it: nothing tops the sample up. *)
Example fifty_articles_sample_of_nine :
  target_count default_settings (len fifty_articles) = 10
  /\ (len <$> returned (stratified_sample (G:=unit) fifty_articles default_settings 42))
     = Some 9.
Proof. split; reflexivity. Qed.

(** The target is computed on doubles.  The double of 0.29 lies below
    29/100 and its product with 100 is the double 28.999999999999996, so
    the target of a hundred documents is 28 where the exact product gives
    29; the double of 0.18 lies above 18/100, the product with 100 rounds to
    the double 18 and the target is 18; on 150 documents at 0.18, and on
    300 at 0.07 (a product of 21.000000000000004), the target is the one of
    the exact product as well. *)
Example target_count_of_doubles :
  target_count (with_sample_fraction (29 # 100) default_settings) 100 = 28
  /\ py_int (100 * (29 # 100)) = 29
  /\ target_count default_settings 100 = 18
  /\ target_count default_settings 150 = 27
  /\ target_count (with_sample_fraction (7 # 100) default_settings) 300 = 21
  /\ py_int (300 * (7 # 100)) = 21.
Proof. repeat split; vm_compute; reflexivity. Qed.

(** Below the floor of ten the fraction does not matter, and the target is
    never below ten. *)
Lemma target_count_at_least_ten (settings : Settings) (n_articles : Z) :
  10 <= target_count settings n_articles.
Proof. unfold target_count. lia. Qed.



(** C4, as the code has it. For every corpus [stratified_sample] returns a
    sample whose size is at most the corpus size and at most the target
    count [max(10, int(corpus_size * sample_fraction))], the product being
    the one of doubles that [target_count] computes; the sample of a
    non-empty corpus is not empty. *)
Theorem stratified_sample_size_bounds :
  forall (G : Type) (R : RandomSource G),
    RandomLaws G ->
    forall (articles : list Article) (settings : Settings) (seed : Z),
      exists sample,
        stratified_sample articles settings seed = Returned sample
        /\ len sample <= len articles
        /\ len sample <= target_count settings (len articles)
        /\ (articles <> [] -> 1 <= len sample).
Proof. intros G R laws. now apply stratified_sample_returns. Qed.

Lemma stratified_sample_size_bounds_witness :
  exists sample,
    stratified_sample (G:=unit) fifty_articles default_settings 42 = Returned sample
    /\ len sample <= len fifty_articles
    /\ len sample <= target_count default_settings (len fifty_articles)
    /\ (fifty_articles <> [] -> 1 <= len sample).
Proof.
  exact (stratified_sample_size_bounds unit PrefixRandom prefix_random_laws
           fifty_articles default_settings 42).
Defined.

(** C4 as stated fails: a corpus of three documents has target count 10,
    and its sample, under any generator, has three documents. *)
Lemma small_corpus_sample_below_ten :
  target_count default_settings (len small_corpus) = 10
  /\ stratified_sample (G:=unit) small_corpus default_settings 42 = Returned small_corpus
  /\ len small_corpus = 3
  /\ (forall (G : Type) (R : RandomSource G),
        RandomLaws G ->
        forall (seed : Z) (sample : list Article),
          stratified_sample small_corpus default_settings seed = Returned sample ->
          ~ (10 <= len sample)).
Proof.
  split; [reflexivity|]. split; [reflexivity|]. split; [reflexivity|].
  intros G R laws seed sample Hrun.
  destruct (stratified_sample_returns laws small_corpus default_settings seed)
    as (sample' & Hrun' & Hle & _).
  rewrite Hrun in Hrun'. injection Hrun' as <-.
  change (len small_corpus) with 3 in Hle. lia.
Qed.

End SamplerFacts.

Module ClientFacts.
Import Client.

Lemma py_min_spec (a b : Q) : (py_min a b == Qmin a b)%Q.
Proof.
  unfold py_min. destruct (Qlt_le_dec b a) as [Hlt|Hle].
  - symmetry. apply Q.min_r. now apply Qlt_le_weak.
  - symmetry. now apply Q.min_l.
Qed.

Lemma py_max_spec (a b : Q) : (py_max a b == Qmax a b)%Q.
Proof.
  unfold py_max. destruct (Qlt_le_dec a b) as [Hlt|Hle].
  - symmetry. apply Q.max_r. now apply Qlt_le_weak.
  - symmetry. now apply Q.max_l.
Qed.

Lemma backoff_le_max (attempt : Z) : (backoff attempt <= MAX_DELAY)%Q.
Proof.
  unfold backoff. rewrite py_min_spec. apply Q.le_min_r.
Qed.

Lemma backoff_mono (i j : Z) : 0 <= i <= j -> (backoff i <= backoff j)%Q.
Proof.
  intros Hij. unfold backoff. rewrite !py_min_spec.
  apply Q.min_le_compat_r.
  unfold BASE_DELAY, Qle. cbn [Qmult Qnum Qden inject_Z].
  assert (2 ^ i <= 2 ^ j) by (apply Z.pow_le_mono_r; lia).
  lia.
Qed.

Lemma retry_delay_le_hint (attempt : Z) (ra : Q) :
  (retry_delay attempt (RateLimitError (Some ra)) == Qmax (backoff attempt) ra)%Q.
Proof. cbn. fold (py_max (backoff attempt) ra). apply py_max_spec. Qed.

Lemma delays_from_lookup (errs : list exn) :
  forall (i0 : Z) (i : nat) (e : exn),
    errs !! i = Some e ->
    delays_from i0 errs !! i = Some (retry_delay (i0 + Z.of_nat i) e).
Proof.
  induction errs as [|e0 errs IH]; intros i0 i e Hi; [discriminate|].
  destruct i as [|i]; cbn [delays_from].
  - cbn in Hi. injection Hi as ->. cbn [lookup list_lookup]. now rewrite Z.add_0_r.
  - change ((e0 :: errs) !! Datatypes.S i) with (errs !! i) in Hi.
    change (delays_from (i0 + 1) errs !! i = Some (retry_delay (i0 + Z.of_nat (Datatypes.S i)) e)).
    rewrite (IH (i0 + 1) i e Hi). do 2 f_equal. lia.
Qed.

Lemma delays_nondecreasing (n : nat) (i : Z) :
  0 <= i ->
  StronglySorted Qle (delays_from i (replicate n (RateLimitError None)))
  /\ Forall (fun d => (d <= MAX_DELAY)%Q) (delays_from i (replicate n (RateLimitError None)))
  /\ Forall (fun d => (backoff i <= d)%Q) (delays_from i (replicate n (RateLimitError None))).
Proof.
  revert i. induction n as [|n IH]; intros i Hi.
  - repeat split; constructor.
  - cbn [replicate delays_from retry_delay].
    destruct (IH (i + 1) ltac:(lia)) as (Hs & Hmax & Hmin).
    repeat split.
    + constructor; [exact Hs|].
      eapply Forall_impl; [exact Hmin|]. cbn. intros d Hd.
      eapply Qle_trans; [|exact Hd]. apply backoff_mono. lia.
    + constructor; [apply backoff_le_max|exact Hmax].
    + constructor; [apply Qle_refl|].
      eapply Forall_impl; [exact Hmin|]. cbn. intros d Hd.
      eapply Qle_trans; [|exact Hd]. apply backoff_mono. lia.
Qed.

(** A run of retryable errors: each one costs an attempt and a sleep of
    its delay, and the loop goes on with the next attempt. *)
Lemma complete_loop_retries (kw : create_kwargs) (errs : list exn) :
  Forall (fun e => retryable e = true) errs ->
  forall (i k : nat) (c : client) (rest : list (outcome response)),
    (length errs <= k)%nat ->
    service c = (Raised <$> errs) ++ rest ->
    complete_loop scripted (Z.of_nat <$> seq i k) kw c
    = complete_loop scripted (Z.of_nat <$> seq (i + length errs) (k - length errs)) kw
        {| service := rest;
           slept := slept c ++ delays_from (Z.of_nat i) errs;
           totals := totals c |}.
Proof.
  induction 1 as [|e errs He _ IH]; intros i k c rest Hk Hsvc.
  - cbn [length delays_from]. rewrite Nat.add_0_r, Nat.sub_0_r, app_nil_r.
    cbn in Hsvc. rewrite <- Hsvc. now destruct c.
  - destruct k as [|k]; [cbn in Hk; lia|].
    cbn [seq fmap list_fmap complete_loop]. rewrite Hsvc. cbn [fmap list_fmap app scripted].
    assert (Hnext : forall d,
      complete_loop scripted (Z.of_nat <$> seq (Datatypes.S i) k) kw
        (sleep d (with_service ((Raised <$> errs) ++ rest) c))
      = complete_loop scripted
          (Z.of_nat <$> seq (i + length (e :: errs)) (Datatypes.S k - length (e :: errs))) kw
          {| service := rest;
             slept := slept c ++ d :: delays_from (Z.of_nat i + 1) errs;
             totals := totals c |}).
    { intros d. rewrite (IH (Datatypes.S i) k _ rest); cbn in Hk |- *; [|lia|reflexivity].
      replace (i + Datatypes.S (length errs))%nat with (Datatypes.S (i + length errs)) by lia.
      rewrite <- app_assoc. cbn [app].
      replace (Z.of_nat (Datatypes.S i)) with (Z.of_nat i + 1) by lia. reflexivity. }
    destruct e as [msg| | | |ra|code|name]; try discriminate He.
    + destruct ra as [ra|]; apply Hnext.
    + cbn in He. rewrite He. apply Hnext.
Qed.

(** One call of [complete] sees of a service only the outcomes of its
    attempts: it runs against any service as against the script of them. *)
Lemma complete_loop_as_script {S : Type}
    (messages_create : S -> create_kwargs -> outcome response * S)
    (kw : create_kwargs) (attempts : list Z) :
  forall (c : client (S:=S)),
    (complete_loop messages_create attempts kw c).1
    = (complete_loop scripted attempts kw
         {| service := outcomes_of messages_create kw (service c) (length attempts);
            slept := slept c; totals := totals c |}).1
    /\ slept (complete_loop messages_create attempts kw c).2
       = slept (complete_loop scripted attempts kw
                  {| service := outcomes_of messages_create kw (service c) (length attempts);
                     slept := slept c; totals := totals c |}).2.
Proof.
  induction attempts as [|attempt rest IH]; intros c; [split; reflexivity|].
  cbn [complete_loop length outcomes_of service].
  destruct (messages_create (service c) kw) as [o s'] eqn:Ecall.
  cbn [scripted].
  assert (Hnext : forall d,
    (complete_loop messages_create rest kw (sleep d (with_service s' c))).1
    = (complete_loop scripted rest kw
         (sleep d (with_service (outcomes_of messages_create kw s' (length rest))
                    {| service := o :: outcomes_of messages_create kw s' (length rest);
                       slept := slept c; totals := totals c |}))).1
    /\ slept (complete_loop messages_create rest kw (sleep d (with_service s' c))).2
       = slept (complete_loop scripted rest kw
           (sleep d (with_service (outcomes_of messages_create kw s' (length rest))
                      {| service := o :: outcomes_of messages_create kw s' (length rest);
                         slept := slept c; totals := totals c |}))).2)
    by (intros d; apply (IH (sleep d (with_service s' c)))).
  destruct o as [resp|e]; [split; reflexivity|].
  destruct e as [msg| | | |ra|code|name]; try (split; reflexivity).
  - destruct ra as [ra|]; apply Hnext.
  - destruct ((code >=? 500) || (code =? 529)); [apply Hnext|split; reflexivity].
Qed.

Lemma complete_loop_scripted_run (kw : create_kwargs) (errs : list exn)
    (script : list (outcome response)) :
  Forall (fun e => retryable e = true) errs ->
  (length errs <= 10)%nat ->
  complete_loop scripted (Sampler.py_range MAX_RETRIES) kw (new_client ((Raised <$> errs) ++ script))
  = complete_loop scripted (Z.of_nat <$> seq (length errs) (10 - length errs)) kw
      {| service := script; slept := delays_from 0 errs; totals := totals (new_client script) |}.
Proof.
  intros Herrs Hlen.
  change (Sampler.py_range MAX_RETRIES) with (Z.of_nat <$> seq 0 10).
  rewrite (complete_loop_retries kw errs Herrs 0 10
             (new_client ((Raised <$> errs) ++ script)) script Hlen eq_refl).
  reflexivity.
Qed.

(** C2. A call through [LLMClient.complete] runs against any service as
    against the script of the outcomes of its attempts, and against a script
    that starts with a run [errs] of retryable errors:
    - a rate-limit response and a server error (status >= 500, or 529) are
      the retryable ones, every other error is not;
    - the error of attempt [i] (0-based) is followed by a sleep of
      [min(BASE_DELAY * 2^i, MAX_DELAY)], raised to the retry-after hint of a
      rate-limit response when that is larger;
    - fewer than [MAX_RETRIES] such errors followed by a success give the
      text of the response, after exactly those sleeps;
    - followed by any other error, that error propagates at once, with no
      further call and no further sleep;
    - [MAX_RETRIES] of them exhaust the attempts and raise the fatal
      [RuntimeError];
    - the delays of rate-limit responses without hints are non-decreasing
      and at most [MAX_DELAY]. *)
Theorem complete_retry_policy :
  forall (settings : Settings) (system : string) (messages : list message)
         (model : option string) (max_tokens : option Z) (temperature : option Q)
         (errs : list exn) (rest : list (outcome response)),
    Forall (fun e => retryable e = true) errs ->
    let run := fun script =>
      complete scripted settings system messages model max_tokens temperature
               (new_client script) in
    let after := fun c : client (S:=list (outcome response)) =>
      (service c, slept c) in
    (forall (S : Type) (messages_create : S -> create_kwargs -> outcome response * S)
            (s0 : S),
        let script :=
          outcomes_of messages_create
            (complete_kwargs settings system messages model max_tokens temperature)
            s0 (Z.to_nat MAX_RETRIES) in
        (complete messages_create settings system messages model max_tokens temperature
                  (new_client s0)).1 = (run script).1
        /\ slept (complete messages_create settings system messages model max_tokens
                           temperature (new_client s0)).2 = slept (run script).2)
    /\ ((forall ra, retryable (RateLimitError ra) = true)
     /\ (forall code, retryable (APIStatusError code) = true <-> 500 <= code \/ code = 529)
     /\ (forall e, (forall ra, e <> RateLimitError ra) ->
                   (forall code, e <> APIStatusError code) -> retryable e = false))
    /\ ((forall i, retry_delay i (RateLimitError None)
                   == Qmin (BASE_DELAY * inject_Z (2 ^ i)) MAX_DELAY)%Q
        /\ (forall i ra, retry_delay i (RateLimitError (Some ra))
                         == Qmax (Qmin (BASE_DELAY * inject_Z (2 ^ i)) MAX_DELAY) ra)%Q
        /\ (forall i code, retry_delay i (APIStatusError code)
                           == Qmin (BASE_DELAY * inject_Z (2 ^ i)) MAX_DELAY)%Q)
    /\ (forall (i : nat) e,
          errs !! i = Some e ->
          delays_from 0 errs !! i = Some (retry_delay (Z.of_nat i) e))
    /\ (forall resp,
          len errs < MAX_RETRIES ->
          (run ((Raised <$> errs) ++ Returned resp :: rest)).1 = Returned (_extract_text resp)
          /\ after (run ((Raised <$> errs) ++ Returned resp :: rest)).2
             = (rest, delays_from 0 errs))
    /\ (forall e,
          retryable e = false ->
          len errs < MAX_RETRIES ->
          (run ((Raised <$> errs) ++ Raised e :: rest)).1 = Raised e
          /\ after (run ((Raised <$> errs) ++ Raised e :: rest)).2
             = (rest, delays_from 0 errs))
    /\ (len errs = MAX_RETRIES ->
        (run ((Raised <$> errs) ++ rest)).1 = Raised (RuntimeError "Failed after 10 retries")
        /\ after (run ((Raised <$> errs) ++ rest)).2 = (rest, delays_from 0 errs))
    /\ (forall n : nat,
          StronglySorted Qle (delays_from 0 (replicate n (RateLimitError None)))
          /\ Forall (fun d => (d <= MAX_DELAY)%Q)
                    (delays_from 0 (replicate n (RateLimitError None)))).
Proof.
  intros settings system messages model max_tokens temperature errs rest Herrs run after.
  split; [|split; [|split; [|split; [|split; [|split; [|split]]]]]].
  - intros S create s0 script. unfold run, complete.
    apply (complete_loop_as_script create _ (Sampler.py_range MAX_RETRIES) (new_client s0)).
  - repeat split.
    + cbn. intros Hc. apply orb_true_iff in Hc as [Hc|Hc].
      * rewrite Z.geb_leb in Hc. apply Z.leb_le in Hc. now left.
      * apply Z.eqb_eq in Hc. now right.
    + cbn. intros Hc. apply orb_true_iff. destruct Hc as [Hc|Hc].
      * left. rewrite Z.geb_leb. now apply Z.leb_le.
      * right. now apply Z.eqb_eq.
    + intros e Hrl Hst. destruct e; try reflexivity.
      * now destruct (Hrl retry_after).
      * now destruct (Hst status_code).
  - repeat split.
    + intros i. cbn. apply py_min_spec.
    + intros i ra. rewrite retry_delay_le_hint.
      unfold backoff. now rewrite py_min_spec.
    + intros i code. cbn. apply py_min_spec.
  - intros i e Hi. now rewrite (delays_from_lookup errs 0 i e Hi).
  - intros resp Hlen. unfold run, complete, MAX_RETRIES, len in *.
    rewrite (complete_loop_scripted_run _ errs _ Herrs) by lia.
    destruct (10 - length errs)%nat as [|k] eqn:Ek; [lia|].
    split; reflexivity.
  - intros e He Hlen. unfold run, complete, MAX_RETRIES, len in *.
    rewrite (complete_loop_scripted_run _ errs _ Herrs) by lia.
    destruct (10 - length errs)%nat as [|k] eqn:Ek; [lia|].
    cbn [seq fmap list_fmap complete_loop scripted service].
    destruct e as [msg| | | |ra|code|name]; try discriminate He; try (split; reflexivity).
    cbn in He. rewrite He. split; reflexivity.
  - intros Hlen. unfold run, complete, MAX_RETRIES, len in *.
    rewrite (complete_loop_scripted_run _ errs _ Herrs) by lia.
    replace (10 - length errs)%nat with 0%nat by lia.
    split; reflexivity.
  - intros n. destruct (delays_nondecreasing n 0 ltac:(lia)) as (Hs & Hmax & _).
    split; assumption.
Qed.

(** Three retried errors (a rate limit, a rate limit with a hint of 30
    seconds, a 503), then a success: the sleeps are 2, 30 and 8 seconds. *)
Lemma complete_retry_policy_witness :
  let errs := [RateLimitError None; RateLimitError (Some 30%Q); APIStatusError 503] in
  let script := (Raised <$> errs) ++ [Returned (sample_response "ok")] in
  let run := complete scripted default_settings "system" [] None None None
                      (new_client script) in
  Forall (fun e => retryable e = true) errs
  /\ len errs < MAX_RETRIES
  /\ run.1 = Returned "ok"
  /\ (service run.2, slept run.2) = ([], [2%Q; 30%Q; (2 * inject_Z 4)%Q]).
Proof.
  cbv zeta.
  assert (Herrs : Forall (fun e => retryable e = true)
            [RateLimitError None; RateLimitError (Some 30%Q); APIStatusError 503])
    by (repeat constructor).
  split; [exact Herrs|]. split; [reflexivity|].
  destruct (complete_retry_policy default_settings "system" [] None None None
              _ [] Herrs) as (_ & _ & _ & _ & Hok & _).
  exact (Hok (sample_response "ok") eq_refl).
Defined.

End ClientFacts.

Module BatchFacts.
Import Client Batch.

(** *** [_collect_results] *)

Lemma collect_from_dom (events : list batch_event) (acc : gmap string string) :
  dom (foldl collect_step acc events) = dom acc ∪ event_ids events.
Proof.
  revert acc. induction events as [|ev events IH]; intros acc.
  - unfold event_ids. cbn [foldl fmap list_fmap list_to_set]. set_solver.
  - cbn [foldl]. rewrite IH. unfold collect_step, event_ids.
    rewrite dom_insert_L. cbn [fmap list_fmap list_to_set]. set_solver.
Qed.

Lemma collect_from_lookup_other (events : list batch_event) (acc : gmap string string)
    (key : string) :
  key ∉ event_custom_id <$> events ->
  foldl collect_step acc events !! key = acc !! key.
Proof.
  revert acc. induction events as [|ev events IH]; intros acc Hkey; [reflexivity|].
  cbn [fmap list_fmap] in Hkey. apply not_elem_of_cons in Hkey as [Hne Hkey].
  cbn [foldl]. rewrite IH by exact Hkey.
  unfold collect_step. now rewrite lookup_insert_ne.
Qed.

Lemma collect_results_last (pre post : list batch_event) (ev : batch_event) :
  event_custom_id ev ∉ event_custom_id <$> post ->
  _collect_results (pre ++ ev :: post) !! event_custom_id ev
  = Some (event_text (result ev)).
Proof.
  intros Hlast. unfold _collect_results. fold collect_step.
  rewrite foldl_app. cbn [foldl].
  rewrite collect_from_lookup_other by exact Hlast.
  unfold collect_step at 1. apply lookup_insert_eq.
Qed.

(** *** [fallback_sequential] *)

Section Fallback.
Context {S : Type}.
Variable messages_create : S -> create_kwargs -> outcome response * S.
Variable settings : Settings.
Variables (model : string) (max_tokens : Z) (temperature : Q).

(** The loop either returns with an entry for every request it was given,
    on top of the entries it started with, or raises what the call of one
    of its requests raised. *)
Lemma fallback_loop_spec (n : Z) (requests : list request) :
  forall (i : Z) (results : gmap string string) (llm : client (S:=S)),
    match (fallback_loop messages_create settings model max_tokens temperature
             n i requests results llm).1 with
    | Returned r => dom r = dom results ∪ request_ids requests
    | Raised e =>
        exists pre req post llm',
          requests = pre ++ req :: post /\ (request_call messages_create settings model max_tokens temperature req llm').1
            = Raised e
    end.
Proof.
  induction requests as [|req rest IH]; intros i results llm.
  - cbn. unfold request_ids. cbn. set_solver.
  - cbn [fallback_loop].
    destruct (request_call messages_create settings model max_tokens temperature req llm)
      as [[text|e] llm1] eqn:Ecall.
    + specialize (IH (i + 1) (<[custom_id req := text]> results)
                    (if i <? n - 1 then sleep 1%Q llm1 else llm1)).
      destruct (fallback_loop _ _ _ _ _ _ _ rest _ _) as [[r|e] llm2]; cbn [fst] in *.
      * rewrite IH, dom_insert_L. unfold request_ids.
        cbn [fmap list_fmap list_to_set]. set_solver.
      * destruct IH as (pre & req' & post & llm' & -> & Hraise).
        exists (req :: pre), req', post, llm'. split; [reflexivity|exact Hraise].
    + cbn [fst]. exists [], req, rest, llm. split; [reflexivity|].
      now rewrite Ecall.
Qed.

(** When every call returns, so does the loop. *)
Lemma fallback_loop_returns (n : Z) (requests : list request) :
  (forall req llm, exists text llm',
      request_call messages_create settings model max_tokens temperature req llm
      = (Returned text, llm')) ->
  forall (i : Z) (results : gmap string string) (llm : client (S:=S)),
    exists r llm',
      fallback_loop messages_create settings model max_tokens temperature
        n i requests results llm = (Returned r, llm').
Proof.
  intros Hcalls. induction requests as [|req rest IH]; intros i results llm.
  - exists results, llm. reflexivity.
  - cbn [fallback_loop].
    destruct (Hcalls req llm) as (text & llm1 & Ecall).
    rewrite Ecall. apply IH.
Qed.

End Fallback.

Lemma request_ids_size (requests : list request) :
  NoDup (custom_id <$> requests) -> size (request_ids requests) = length requests.
Proof.
  intros Hnodup. unfold request_ids.
  rewrite size_list_to_set by exact Hnodup. apply length_fmap.
Qed.

Lemma complete_first_attempt {S : Type}
    (messages_create : S -> create_kwargs -> outcome response * S)
    (settings : Settings) (system : string) (messages : list message)
    (model : option string) (max_tokens : option Z) (temperature : option Q)
    (llm : client (S:=S)) :
  (forall kw s, exists resp s', messages_create s kw = (Returned resp, s')) ->
  exists text llm',
    complete messages_create settings system messages model max_tokens temperature llm
    = (Returned text, llm').
Proof.
  intros Hok. unfold complete.
  change (Sampler.py_range MAX_RETRIES) with (0 :: (Z.of_nat <$> seq 1 9)).
  cbn [complete_loop].
  match goal with |- context [messages_create ?s ?kw] =>
    destruct (Hok kw s) as (resp & s' & ->) end.
  eexists _, _. reflexivity.
Qed.

(** The two paths on concrete inputs: the fallback pauses one second
    between the two requests, and a failed outcome in the middle of a batch
    costs only its own text. *)
Example fallback_sequential_two_requests :
  (fallback_sequential echo_service default_settings tt two_requests None None None).1
  = Returned (<["chunk_1" := "claude-sonnet-4-20250514"]>
               (<["chunk_0" := "claude-sonnet-4-20250514"]> ∅))
  /\ slept (fallback_sequential echo_service default_settings tt two_requests
              None None None).2 = [1%Q].
Proof. split; reflexivity. Qed.

Example collect_results_with_failure :
  _collect_results
    [ {| event_custom_id := "chunk_0"; result := succeeded (sample_response "a") |};
      {| event_custom_id := "chunk_1"; result := errored |};
      {| event_custom_id := "chunk_2"; result := succeeded (sample_response "c") |} ]
  = <["chunk_2" := "c"]> (<["chunk_1" := ""]> (<["chunk_0" := "a"]> ∅)).
Proof. reflexivity. Qed.

(** *** The text of a response on the two paths *)

Lemma append_cons (a : ascii) (s t : string) : String a s +:+ t = String a (s +:+ t).
Proof. reflexivity. Qed.

Lemma append_empty_l (t : string) : "" +:+ t = t.
Proof. reflexivity. Qed.

Lemma append_empty_r (s : string) : s +:+ "" = s.
Proof. induction s as [|a s IH]; [reflexivity|]. now rewrite append_cons, IH. Qed.

Lemma append_assoc (s t u : string) : (s +:+ t) +:+ u = s +:+ (t +:+ u).
Proof. induction s as [|a s IH]; [reflexivity|]. now rewrite !append_cons, IH. Qed.

Lemma append_eq_self (s t : string) : s +:+ t = s <-> t = "".
Proof.
  split.
  - induction s as [|a s IH]; [auto|].
    rewrite append_cons. intros Heq. injection Heq as Heq. auto.
  - intros ->. apply append_empty_r.
Qed.

Lemma join_text_blocks_concat (blocks : list content_block) (text : string) :
  join_text_blocks text blocks = text +:+ concat_texts (text_blocks blocks).
Proof.
  revert text. induction blocks as [|b rest IH]; intros text;
    cbn [join_text_blocks text_blocks].
  - cbn [concat_texts]. now rewrite append_empty_r.
  - destruct (String.eqb (block_type b) "text"); rewrite IH; [|reflexivity].
    cbn [concat_texts]. now rewrite append_assoc.
Qed.

Lemma extract_text_first (blocks : list content_block) :
  extract_text_blocks blocks
  = match text_blocks blocks with
    | [] => ""
    | block :: _ => block_text block
    end.
Proof.
  induction blocks as [|b rest IH]; cbn; [reflexivity|].
  now destruct (String.eqb (block_type b) "text").
Qed.

(** C10, as the code has it. For every response the batch path returns the
    concatenation of all its text blocks and the sequential path
    ([_extract_text]) the first text block (the empty string if there is
    none); the two agree exactly when the text blocks after the first are
    all empty together, so in particular for a response with at most one
    text block, and they differ for some response with several. *)
Theorem batch_text_versus_first_block :
  (forall message : response,
      event_text (succeeded message)
      = concat_texts (text_blocks (response_content message))
      /\ _extract_text message
         = match text_blocks (response_content message) with
           | [] => ""
           | block :: _ => block_text block
           end
      /\ (event_text (succeeded message) = _extract_text message
          <-> concat_texts (tail (text_blocks (response_content message))) = "")
      /\ ((length (text_blocks (response_content message)) <= 1)%nat ->
          event_text (succeeded message) = _extract_text message))
  /\ (exists message : response,
        (1 < length (text_blocks (response_content message)))%nat
        /\ event_text (succeeded message) <> _extract_text message).
Proof.
  split.
  - intros [blocks u]. unfold event_text, _extract_text. cbn [response_content].
    rewrite join_text_blocks_concat, extract_text_first, append_empty_l.
    destruct (text_blocks blocks) as [|b rest]; cbn [concat_texts tail length].
    + repeat split; auto.
    + repeat split; try apply append_eq_self.
      intros Hlen. destruct rest; [apply append_empty_r|cbn in Hlen; lia].
  - exists {| response_content := [ {| block_type := "text"; block_text := "a" |};
                                   {| block_type := "text"; block_text := "b" |} ];
             response_usage := {| input_tokens := 0; output_tokens := 0;
                                  cache_read_input_tokens := 0;
                                  cache_creation_input_tokens := 0 |} |}.
    split; [cbn; lia|discriminate].
Qed.

(** C10 as stated fails in one direction: a response with two text blocks,
    the second one empty, has the same text on both paths. *)
Lemma two_text_blocks_same_text :
  let message :=
    {| response_content := [ {| block_type := "text"; block_text := "a" |};
                             {| block_type := "text"; block_text := "" |} ];
       response_usage := {| input_tokens := 0; output_tokens := 0;
                            cache_read_input_tokens := 0;
                            cache_creation_input_tokens := 0 |} |} in
  length (text_blocks (response_content message)) = 2%nat
  /\ event_text (succeeded message) = "a"
  /\ _extract_text message = "a".
Proof. cbv zeta. repeat split. Qed.

(** *** Which entry every key holds *)

Lemma event_text_outcome_text (r : batch_result) : event_text r = outcome_text r.
Proof.
  destruct r as [message| | |]; try reflexivity.
  unfold event_text, outcome_text.
  now rewrite join_text_blocks_concat, append_empty_l.
Qed.

Lemma filled_lookup (pairs : list (string * string)) :
  forall (acc : gmap string string) (key : string),
    foldl (fun m p => <[p.1 := p.2]> m) acc pairs !! key
    = match last_entry key pairs with
      | Some v => Some v
      | None => acc !! key
      end.
Proof.
  induction pairs as [|[k v] rest IH]; intros acc key; [reflexivity|].
  cbn [foldl last_entry fst snd]. rewrite IH.
  destruct (last_entry key rest) as [w|]; [reflexivity|].
  destruct (String.eqb_spec k key) as [->|Hne].
  - apply lookup_insert_eq.
  - now apply lookup_insert_ne.
Qed.

Lemma collect_results_filled (events : list batch_event) :
  _collect_results events
  = foldl (fun m p => <[p.1 := p.2]> m) ∅
      ((fun ev => (event_custom_id ev, outcome_text (result ev))) <$> events).
Proof.
  unfold _collect_results. generalize (∅ : gmap string string) as acc.
  induction events as [|ev events IH]; intros acc; [reflexivity|].
  cbn [foldl fmap list_fmap]. rewrite IH. unfold collect_step. cbn [fst snd].
  now rewrite event_text_outcome_text.
Qed.

Section Trace.
Context {S : Type}.
Variable messages_create : S -> create_kwargs -> outcome response * S.
Variable settings : Settings.
Variables (model : string) (max_tokens : Z) (temperature : Q).

#[local] Abbreviation call :=
  (request_call messages_create settings model max_tokens temperature).

(** The loop from index [i] on, [n] being the number of all requests: it
    returns the mapping filled with the texts of its calls, the last of
    which no pause follows, or raises what the first failing call raised. *)
Lemma fallback_loop_trace (n : Z) (requests : list request) :
  forall (i : Z) (results : gmap string string) (llm : client (S:=S)),
    i + len requests = n ->
    match fallback_loop messages_create settings model max_tokens temperature
            n i requests results llm with
    | (Returned r, llm') =>
        exists texts,
          r = foldl (fun m p => <[p.1 := p.2]> m) results
                (zip (custom_id <$> requests) texts)
          /\ length texts = length requests
          /\ ((requests = [] /\ llm' = llm)
              \/ exists pre last texts' text llm1,
                   requests = pre ++ [last] /\ texts = texts' ++ [text]
                   /\ served call llm pre texts' llm1
                   /\ call last llm1 = (Returned text, llm'))
    | (Raised e, llm') =>
        exists pre req post texts llm1,
          requests = pre ++ req :: post
          /\ served call llm pre texts llm1
          /\ call req llm1 = (Raised e, llm')
    end.
Proof.
  induction requests as [|req rest IH]; intros i results llm Hn.
  - cbn [fallback_loop]. exists []. split; [reflexivity|]. split; [reflexivity|]. now left.
  - cbn [fallback_loop].
    destruct (call req llm) as [[text|e] llm1] eqn:Ecall.
    + destruct rest as [|req' rest'].
      * cbn [fallback_loop]. exists [text]. split; [reflexivity|]. split; [reflexivity|].
        right. exists [], req, [], text, llm. split; [reflexivity|]. split; [reflexivity|].
        split; [constructor|].
        replace (i <? n - 1) with false in *
          by (symmetry; apply Z.ltb_ge; unfold len in Hn; cbn [length] in Hn; lia).
        exact Ecall.
      * replace (i <? n - 1) with true
          by (symmetry; apply Z.ltb_lt; unfold len in Hn; cbn [length] in Hn; lia).
        specialize (IH (i + 1) (<[custom_id req := text]> results) (sleep 1%Q llm1)).
        destruct (fallback_loop _ _ _ _ _ _ _ (req' :: rest') _ _) as [[r|e] llm'].
        -- destruct IH as (texts & Hr & Hlen & Hrun);
             [unfold len in *; cbn [length] in *; lia|].
           destruct Hrun as [[Hnil _]|(pre & last & texts' & text' & llmk & Hreq & Htexts
                                        & Hserved & Hlast)]; [discriminate|].
           exists (text :: texts). split; [exact Hr|]. split; [cbn; now rewrite Hlen|].
           right. exists (req :: pre), last, (text :: texts'), text', llmk.
           split; [now rewrite Hreq|]. split; [now rewrite Htexts|].
           split; [|exact Hlast]. econstructor; eassumption.
        -- destruct IH as (pre & req1 & post & texts & llmk & Hreq & Hserved & Hraise);
             [unfold len in *; cbn [length] in *; lia|].
           exists (req :: pre), req1, post, (text :: texts), llmk.
           split; [now rewrite Hreq|]. split; [|exact Hraise].
           econstructor; eassumption.
    + exists [], req, rest, [], llm. split; [reflexivity|]. split; [constructor|exact Ecall].
Qed.

End Trace.

(** C1, as the code has it. [fallback_sequential] calls the requests in
    order, pausing one second after each but the last.  When every call
    returns, it returns the mapping in which every key holds the text of the
    last request with that id: its keys are exactly the request ids, one
    entry per id.  It catches nothing: when the call of a request raises, it
    raises that exception there and then and returns no mapping.  It returns
    whenever each of its calls does.  [_collect_results] gives every fetched
    outcome an entry, wherever it stands among the outcomes: every key holds
    the text of the last outcome with that id, which is the text blocks of a
    succeeded outcome, joined, and the empty string for any other outcome;
    the keys are exactly the outcomes' ids. *)
Theorem fallback_returns_all_or_raises :
  (forall (S : Type) (messages_create : S -> create_kwargs -> outcome response * S)
          (settings : Settings) (service0 : S) (requests : list request)
          (model : option string) (max_tokens : option Z) (temperature : option Q),
      let call :=
        request_call messages_create settings
          (str_or model (analysis_model settings))
          (int_or max_tokens (Models.max_tokens settings))
          (default (1 # 2)%Q temperature) in
      let run :=
        fallback_sequential messages_create settings service0 requests
          model max_tokens temperature in
      match run.1 with
      | Returned results =>
          (exists texts,
              (forall key, results !! key
                           = last_entry key (zip (custom_id <$> requests) texts))
              /\ length texts = length requests
              /\ ((requests = [] /\ run.2 = new_client service0)
                  \/ exists pre last texts' text llm,
                       requests = pre ++ [last] /\ texts = texts' ++ [text]
                       /\ served call (new_client service0) pre texts' llm
                       /\ call last llm = (Returned text, run.2)))
          /\ dom results = request_ids requests
          /\ (NoDup (custom_id <$> requests) -> size results = length requests)
      | Raised e =>
          exists pre req post texts llm,
            requests = pre ++ req :: post
            /\ served call (new_client service0) pre texts llm
            /\ call req llm = (Raised e, run.2)
      end)
  /\ (forall (S : Type) (messages_create : S -> create_kwargs -> outcome response * S)
            (settings : Settings) (service0 : S) (requests : list request)
            (model : option string) (max_tokens : option Z) (temperature : option Q),
        (forall req llm, exists text llm',
            request_call messages_create settings
              (str_or model (analysis_model settings))
              (int_or max_tokens (Models.max_tokens settings))
              (default (1 # 2)%Q temperature) req llm = (Returned text, llm')) ->
        exists results llm,
          fallback_sequential messages_create settings service0 requests
            model max_tokens temperature = (Returned results, llm)
          /\ dom results = request_ids requests)
  /\ (forall events : list batch_event,
        (forall key,
            _collect_results events !! key
            = last_entry key
                ((fun ev => (event_custom_id ev, outcome_text (result ev))) <$> events))
        /\ dom (_collect_results events) = event_ids events
        /\ forall pre ev post,
             events = pre ++ ev :: post ->
             event_custom_id ev ∉ event_custom_id <$> post ->
             _collect_results events !! event_custom_id ev
             = Some (outcome_text (result ev))).
Proof.
  split; [|split].
  - intros S create settings service0 requests model max_tokens temperature call run.
    subst run. unfold fallback_sequential. cbv zeta.
    pose proof (fallback_loop_trace create settings
                  (str_or model (analysis_model settings))
                  (int_or max_tokens (Models.max_tokens settings))
                  (default (1 # 2)%Q temperature)
                  (len requests) requests 0 ∅ (new_client service0) eq_refl) as Htrace.
    pose proof (fallback_loop_spec create settings
                  (str_or model (analysis_model settings))
                  (int_or max_tokens (Models.max_tokens settings))
                  (default (1 # 2)%Q temperature)
                  (len requests) requests 0 ∅ (new_client service0)) as Hspec.
    destruct (fallback_loop _ _ _ _ _ _ _ requests _ _) as [[r|e] llm]; cbn [fst snd] in *.
    + destruct Htrace as (texts & Hr & Hlen & Hrun).
      assert (Hdom : dom r = request_ids requests) by (rewrite Hspec; set_solver).
      split; [|split; [exact Hdom|]].
      * exists texts. split; [|split; [exact Hlen|exact Hrun]].
        intros key. rewrite Hr, filled_lookup.
        destruct (last_entry key _); [reflexivity|apply lookup_empty].
      * intros Hnodup. rewrite <- size_dom, Hdom. now apply request_ids_size.
    + exact Htrace.
  - intros S create settings service0 requests model max_tokens temperature Hok.
    unfold fallback_sequential.
    destruct (fallback_loop_returns create settings
                (str_or model (analysis_model settings))
                (int_or max_tokens (Models.max_tokens settings))
                (default (1 # 2)%Q temperature)
                (len requests) requests) with (i := 0) (results := (∅ : gmap string string))
                (llm := new_client service0) as (r & llm & Hrun).
    { exact Hok. }
    pose proof (fallback_loop_spec create settings
                  (str_or model (analysis_model settings))
                  (int_or max_tokens (Models.max_tokens settings))
                  (default (1 # 2)%Q temperature)
                  (len requests) requests 0 ∅ (new_client service0)) as Hspec.
    rewrite Hrun in Hspec |- *. cbn [fst] in Hspec.
    exists r, llm. split; [reflexivity|]. rewrite Hspec. set_solver.
  - intros events. split; [|split].
    + intros key. rewrite collect_results_filled, filled_lookup.
      destruct (last_entry key _); [reflexivity|apply lookup_empty].
    + unfold _collect_results. fold collect_step. rewrite collect_from_dom. set_solver.
    + intros pre ev post -> Hlast.
      rewrite collect_results_last by exact Hlast. now rewrite event_text_outcome_text.
Qed.

Lemma fallback_returns_all_or_raises_witness :
  exists results llm,
    fallback_sequential echo_service default_settings tt two_requests None None None
    = (Returned results, llm)
    /\ dom results = request_ids two_requests.
Proof.
  destruct fallback_returns_all_or_raises as (_ & Hreturns & _).
  apply Hreturns. intros req llm. apply complete_first_attempt.
  intros kw s. eexists _, _. reflexivity.
Defined.

(** C1 as stated fails: the first of two requests is answered and the
    second is refused with status 400, which is not retried; the fallback
    raises that error and returns no mapping, so the first request has no
    entry either. *)
Lemma failed_call_aborts_the_fallback :
  (fallback_sequential scripted default_settings second_call_refused two_requests
     None None None).1
  = Raised (APIStatusError 400)
  /\ returned (fallback_sequential scripted default_settings second_call_refused
                 two_requests None None None).1
     = None
  /\ (complete scripted default_settings "analyse" [] (Some "claude-sonnet-4-20250514")
        (Some 4096) (Some (1 # 2)%Q) (new_client second_call_refused)).1
     = Returned "first"
  /\ length two_requests = 2%nat.
Proof. repeat split. Qed.

End BatchFacts.

Module StyleExtractorFacts.
Import PyStr Json StyleExtractor.

(** *** Lines *)

Lemma split_nonempty (sep : ascii) (s : string) : split sep s <> [].
Proof.
  destruct s as [|c rest]; cbn; [discriminate|].
  destruct (Ascii.eqb c sep); [discriminate|].
  destruct (split sep rest); discriminate.
Qed.

Lemma split_app (sep : ascii) (s t : string) :
  split sep (s +:+ String sep t) = split sep s ++ split sep t.
Proof.
  induction s as [|c s IH]; rewrite ?BatchFacts.append_empty_l, ?BatchFacts.append_cons; cbn [split].
  - rewrite Ascii.eqb_refl. reflexivity.
  - destruct (Ascii.eqb c sep); [now rewrite IH|].
    rewrite IH. pose proof (split_nonempty sep s) as Hne.
    destruct (split sep s); [contradiction|reflexivity].
Qed.

Lemma split_one_line (sep : ascii) (s : string) :
  ~ In sep (list_ascii_of_string s) -> split sep s = [s].
Proof.
  induction s as [|c s IH]; cbn [list_ascii_of_string split]; intros Hno; [reflexivity|].
  destruct (Ascii.eqb_spec c sep) as [->|_]; [exfalso; apply Hno; now left|].
  rewrite IH; [reflexivity|]. intros Hin. apply Hno. now right.
Qed.

Lemma join_cons (c : ascii) (line : string) (lines : list string) :
  join LF (String c line :: lines) = String c (join LF (line :: lines)).
Proof. destruct lines; reflexivity. Qed.

Lemma join_split (s : string) : join LF (split (ascii_of_nat 10) s) = s.
Proof.
  induction s as [|c s IH]; cbn [split]; [reflexivity|].
  pose proof (split_nonempty (ascii_of_nat 10) s) as Hne.
  destruct (Ascii.eqb_spec c (ascii_of_nat 10)) as [->|_];
    destruct (split (ascii_of_nat 10) s) as [|line lines]; try contradiction.
  - change (join LF (EmptyString :: line :: lines))
      with (String (ascii_of_nat 10) (join LF (line :: lines))).
    now rewrite IH.
  - now rewrite join_cons, IH.
Qed.

(** *** Stripping *)

Lemma list_of_append (s t : string) :
  list_ascii_of_string (s +:+ t) = list_ascii_of_string s ++ list_ascii_of_string t.
Proof.
  induction s as [|c s IH]; [reflexivity|].
  rewrite BatchFacts.append_cons. cbn [list_ascii_of_string]. now rewrite IH.
Qed.

Lemma string_of_app (l k : list ascii) :
  string_of_list_ascii (l ++ k) = string_of_list_ascii l +:+ string_of_list_ascii k.
Proof.
  induction l as [|c l IH]; [reflexivity|].
  cbn [app string_of_list_ascii]. now rewrite IH, BatchFacts.append_cons.
Qed.

Lemma reversed_app (s t : string) : reversed (s +:+ t) = reversed t +:+ reversed s.
Proof.
  unfold reversed.
  now rewrite !rev_append_rev, !app_nil_r, list_of_append, rev_app_distr, string_of_app.
Qed.

Lemma reversed_involutive (s : string) : reversed (reversed s) = s.
Proof.
  unfold reversed. rewrite !rev_append_rev, !app_nil_r.
  now rewrite list_ascii_of_string_of_list_ascii, rev_involutive,
    string_of_list_ascii_of_string.
Qed.

Lemma lstrip_backtick (s : string) : lstrip (String BACKTICK s) = String BACKTICK s.
Proof. destruct s as [|b [|c s]]; reflexivity. Qed.

Lemma is_space2_backtick (b : ascii) : is_space2 b BACKTICK = false.
Proof. unfold is_space2. cbn. now rewrite andb_false_r. Qed.

Lemma is_space3_backtick (a b : ascii) : is_space3 a b BACKTICK = false.
Proof.
  unfold is_space3. cbn.
  now rewrite !andb_false_r.
Qed.

Lemma lstrip_reversed_backtick (s : string) :
  lstrip_reversed (String BACKTICK s) = String BACKTICK s.
Proof.
  destruct s as [|b [|a s]]; cbn [lstrip_reversed]; try reflexivity;
    change (is_space BACKTICK) with false; cbv iota;
    rewrite ?is_space2_backtick, ?is_space3_backtick; reflexivity.
Qed.

(** A text between two backticks is not changed by [strip]. *)
Lemma strip_between_backticks (s : string) :
  strip (String BACKTICK (s +:+ String BACKTICK EmptyString))
  = String BACKTICK (s +:+ String BACKTICK EmptyString).
Proof.
  unfold strip. rewrite lstrip_backtick. unfold rstrip.
  change (String BACKTICK (s +:+ String BACKTICK EmptyString))
    with (String BACKTICK s +:+ String BACKTICK EmptyString).
  rewrite reversed_app.
  change (reversed (String BACKTICK EmptyString)) with (String BACKTICK EmptyString).
  rewrite BatchFacts.append_cons, BatchFacts.append_empty_l, lstrip_reversed_backtick.
  change (String BACKTICK (reversed (String BACKTICK s)))
    with (reversed (String BACKTICK EmptyString) +:+ reversed (String BACKTICK s)).
  now rewrite <- reversed_app, reversed_involutive.
Qed.

Lemma is_space2_fence (c : ascii) : is_space2 BACKTICK c = false.
Proof. reflexivity. Qed.

Lemma is_space3_fence (b c : ascii) : is_space3 BACKTICK b c = false.
Proof. reflexivity. Qed.

(** Stripping the end of a text leaves a fence at its start in place. *)
Lemma lstrip_reversed_keeps_fence (n : nat) :
  forall x : string,
    (String.length x <= n)%nat ->
    exists x', lstrip_reversed (x +:+ FENCE) = x' +:+ FENCE.
Proof.
  induction n as [|n IH]; intros x Hlen.
  - destruct x; [|cbn in Hlen; lia]. now exists EmptyString.
  - destruct x as [|c x1]; [now exists EmptyString|].
    rewrite BatchFacts.append_cons. cbn [lstrip_reversed]. cbn [String.length] in Hlen.
    destruct (is_space c); [apply IH; lia|].
    destruct x1 as [|b x2].
    + now exists (String c EmptyString).
    + rewrite BatchFacts.append_cons. cbn [String.length] in Hlen.
      destruct (is_space2 b c); [apply IH; lia|].
      destruct x2 as [|a x3].
      * now exists (String c (String b EmptyString)).
      * rewrite BatchFacts.append_cons. cbn [String.length] in Hlen.
        destruct (is_space3 a b c); [apply IH; lia|].
        now exists (String c (String b (String a x3))).
Qed.

Lemma startswith_fence (s : string) : startswith (FENCE +:+ s) "```" = true.
Proof. unfold FENCE. rewrite !BatchFacts.append_cons, BatchFacts.append_empty_l. destruct s; reflexivity. Qed.

Lemma strip_keeps_fence (info : string) :
  startswith (strip (FENCE +:+ info)) "```" = true.
Proof.
  unfold strip. change (FENCE +:+ info) with (String BACKTICK (String BACKTICK (String BACKTICK info))).
  rewrite lstrip_backtick. unfold rstrip.
  change (String BACKTICK (String BACKTICK (String BACKTICK info))) with (FENCE +:+ info).
  rewrite reversed_app. change (reversed FENCE) with FENCE.
  destruct (lstrip_reversed_keeps_fence _ (reversed info) (le_n _)) as [x' ->].
  rewrite reversed_app. change (reversed FENCE) with FENCE.
  apply startswith_fence.
Qed.

(** A text made of an opening fence with any info string, a body none of
    whose lines starts with a fence, and a closing fence is handed to the
    decoder as its body. *)
Lemma unfenced_fenced (info body : string) :
  ~ In (ascii_of_nat 10) (list_ascii_of_string info) ->
  Forall (fun line => startswith (strip line) "```" = false)
         (split (ascii_of_nat 10) body) ->
  unfenced (FENCE +:+ info +:+ LF +:+ body +:+ LF +:+ FENCE) = body.
Proof.
  intros Hinfo Hbody. unfold unfenced.
  assert (Hstrip : strip (FENCE +:+ info +:+ LF +:+ body +:+ LF +:+ FENCE)
                   = FENCE +:+ info +:+ LF +:+ body +:+ LF +:+ FENCE).
  { replace (FENCE +:+ info +:+ LF +:+ body +:+ LF +:+ FENCE)
      with (String BACKTICK
              ((String BACKTICK (String BACKTICK info) +:+ LF +:+ body +:+ LF
                +:+ String BACKTICK (String BACKTICK EmptyString))
               +:+ String BACKTICK EmptyString)).
    - apply strip_between_backticks.
    - unfold FENCE. rewrite !BatchFacts.append_cons, BatchFacts.append_empty_l.
      rewrite !BatchFacts.append_assoc. reflexivity. }
  cbv zeta. rewrite Hstrip.
  rewrite startswith_fence.
  change (FENCE +:+ info +:+ LF +:+ body +:+ LF +:+ FENCE)
    with (FENCE +:+ (info +:+ (String (ascii_of_nat 10) (body +:+ (String (ascii_of_nat 10) FENCE))))).
  rewrite <- BatchFacts.append_assoc, split_app, split_app.
  rewrite (split_one_line _ (FENCE +:+ info)).
  - rewrite !List.filter_app. cbn [List.filter].
    rewrite strip_keeps_fence. cbn [negb app].
    change (startswith (strip FENCE) "```") with true. cbn [negb].
    rewrite app_nil_r.
    rewrite List.forallb_filter_id; [apply join_split|].
    apply forallb_forall. intros line Hline.
    rewrite List.Forall_forall in Hbody. now rewrite (Hbody line Hline).
  - rewrite list_of_append. intros Hin. apply in_app_or in Hin as [Hin|Hin]; [|auto].
    cbn in Hin. unfold ascii_of_nat in Hin. cbn in Hin.
    destruct Hin as [H|[H|[H|[]]]]; discriminate.
Qed.

(** A text that does not start with a fence is handed over stripped and
    otherwise as it is. *)
Lemma unfenced_plain (text : string) :
  startswith (strip text) "```" = false -> unfenced text = strip text.
Proof. intros Hplain. unfold unfenced. cbv zeta. now rewrite Hplain. Qed.

Example unfenced_fenced_text : unfenced fenced_text = object_text.
Proof.
  apply (unfenced_fenced "json" object_text).
  - intros [H|[H|[H|[H|[]]]]]; discriminate.
  - repeat constructor.
Qed.

Section AnyDecoder.
Variable loads : string -> outcome json.

(** What [_parse_json] returns and what it raises, by what the decoder does
    with the unfenced text and with the substring between the braces. *)
Lemma parse_json_cases (text : string) :
  let t := unfenced text in
  let sub := substr t (find "{" t) (rfind "}" t + 1) in
  let second := (find "{" t >=? 0) && (rfind "}" t + 1 >? find "{" t) in
  (forall v,
      _parse_json loads text = Returned v
      <-> loads t = Returned v
          \/ (loads t = Raised JSONDecodeError /\ second = true /\ loads sub = Returned v)
          \/ (loads t = Raised JSONDecodeError
              /\ (second = false \/ loads sub = Raised JSONDecodeError)
              /\ v = parse_error_record t))
  /\ (forall e,
        _parse_json loads text = Raised e
        <-> e <> JSONDecodeError
            /\ (loads t = Raised e
                \/ (loads t = Raised JSONDecodeError /\ second = true
                    /\ loads sub = Raised e))).
Proof.
  intros t sub second. unfold _parse_json. cbv zeta. fold t. fold sub. fold second.
  destruct (loads t) as [v0|e0]; [|destruct e0];
    try (split; [intros v|intros e]; split; naive_solver).
  destruct second; [destruct (loads sub) as [v1|e1]; [|destruct e1]|];
    split; [intros v|intros e| | | | | | | | | | | | | | | |]; try (split; naive_solver).
Qed.

End AnyDecoder.

(** The texts the specification names give the results it names, for any
    decoder that does with them what [json.loads] does. *)
Lemma parse_json_examples (loads : string -> outcome json) :
  unfenced fenced_text = object_text
  /\ (forall v, loads object_text = Returned v ->
                _parse_json loads fenced_text = Returned v)
  /\ (forall v, loads embedded_text = Raised JSONDecodeError ->
                loads object_text = Returned v ->
                _parse_json loads embedded_text = Returned v)
  /\ (loads plain_text = Raised JSONDecodeError ->
      _parse_json loads plain_text
      = Returned (JObject [("raw", JString "no json here"); ("parse_error", JBool true)])).
Proof.
  split; [reflexivity|]. split; [|split].
  - intros v Hobject. apply (proj1 (parse_json_cases loads fenced_text)). now left.
  - intros v Hwhole Hobject. apply (proj1 (parse_json_cases loads embedded_text)).
    right. left. auto.
  - intros Hplain. apply (proj1 (parse_json_cases loads plain_text)).
    right. right. split; [exact Hplain|]. split; [now left|reflexivity].
Qed.

Example parse_json_stand_in_examples :
  _parse_json stand_in_loads fenced_text = Returned object_value
  /\ _parse_json stand_in_loads embedded_text = Returned object_value
  /\ _parse_json stand_in_loads plain_text
     = Returned (JObject [("raw", JString "no json here"); ("parse_error", JBool true)]).
Proof. repeat split. Qed.

(** C6 on the code. [_parse_json] hands the stripped text, without the
    lines of a code fence when it starts with one, to the decoder; when the
    decoder raises [JSONDecodeError] and the text has a brace span, it hands
    that span over; it returns the first document decoded, and the
    raw/parse-error record exactly when the direct attempt failed and the
    second one failed too or there was no span to try.  It catches
    [JSONDecodeError] and nothing else: whatever else the decoder raises on
    the unfenced text, or on the span, is raised by [_parse_json].  A body
    between an opening fence with any info string and a closing fence is
    handed over as it is, when none of its lines starts with a fence.  The
    three
    texts of the examples give the documented results for every decoder that
    decodes them as [json.loads] does.  The integer literal of 4301 digits
    and the 100000 opening brackets reach the decoder as they are, and the
    [ValueError] and the [RecursionError] that [json.loads] raises on them
    are raised by [_parse_json]. *)
Theorem parse_json_raises_with_the_decoder :
  (forall (loads : string -> outcome json) (text : string),
      let t := unfenced text in
      let sub := substr t (find "{" t) (rfind "}" t + 1) in
      let second := (find "{" t >=? 0) && (rfind "}" t + 1 >? find "{" t) in
      (forall v,
          _parse_json loads text = Returned v
          <-> loads t = Returned v
              \/ (loads t = Raised JSONDecodeError /\ second = true
                  /\ loads sub = Returned v)
              \/ (loads t = Raised JSONDecodeError
                  /\ (second = false \/ loads sub = Raised JSONDecodeError)
                  /\ v = parse_error_record t))
      /\ (forall e,
            _parse_json loads text = Raised e
            <-> e <> JSONDecodeError
                /\ (loads t = Raised e
                    \/ (loads t = Raised JSONDecodeError /\ second = true
                        /\ loads sub = Raised e))))
  /\ (forall info body : string,
        ~ In (ascii_of_nat 10) (list_ascii_of_string info) ->
        Forall (fun line => startswith (strip line) "```" = false)
               (split (ascii_of_nat 10) body) ->
        unfenced (FENCE +:+ info +:+ LF +:+ body +:+ LF +:+ FENCE) = body)
  /\ (forall (loads : string -> outcome json) (v : json),
        loads object_text = Returned v ->
        loads embedded_text = Raised JSONDecodeError ->
        loads plain_text = Raised JSONDecodeError ->
        _parse_json loads fenced_text = Returned v
        /\ _parse_json loads embedded_text = Returned v
        /\ _parse_json loads plain_text
           = Returned (JObject [("raw", JString "no json here");
                                ("parse_error", JBool true)]))
  /\ (forall (loads : string -> outcome json) (text : string) (e : exn),
        e <> JSONDecodeError ->
        loads (unfenced text) = Raised e ->
        _parse_json loads text = Raised e)
  /\ unfenced long_integer = long_integer
  /\ unfenced deep_nesting = deep_nesting
  /\ (forall loads : string -> outcome json,
        loads long_integer = Raised ValueError ->
        _parse_json loads long_integer = Raised ValueError)
  /\ (forall loads : string -> outcome json,
        loads deep_nesting = Raised RecursionError ->
        _parse_json loads deep_nesting = Raised RecursionError)
  /\ _parse_json stand_in_loads long_integer = Raised ValueError
  /\ _parse_json stand_in_loads deep_nesting = Raised RecursionError.
Proof.
  assert (Hraise : forall (loads : string -> outcome json) (text : string) (e : exn),
            e <> JSONDecodeError ->
            loads (unfenced text) = Raised e ->
            _parse_json loads text = Raised e).
  { intros loads text e Hne Hfirst.
    apply (proj2 (parse_json_cases loads text)). split; [exact Hne|now left]. }
  assert (Hlong : unfenced long_integer = long_integer)
    by (apply String.eqb_eq; vm_compute; reflexivity).
  assert (Hdeep : unfenced deep_nesting = deep_nesting)
    by (apply String.eqb_eq; vm_compute; reflexivity).
  split; [exact parse_json_cases|]. split; [exact unfenced_fenced|].
  split.
  { intros loads v Hobject Hembedded Hplain.
    destruct (parse_json_examples loads) as (_ & Hfenced & Hsecond & Hrecord).
    split; [now apply Hfenced|]. split; [now apply Hsecond|now apply Hrecord]. }
  split; [exact Hraise|]. split; [exact Hlong|]. split; [exact Hdeep|].
  split; [|split; [|split]].
  - intros loads Hloads. apply Hraise; [discriminate|now rewrite Hlong].
  - intros loads Hloads. apply Hraise; [discriminate|now rewrite Hdeep].
  - apply Hraise; [discriminate|]. rewrite Hlong. vm_compute. reflexivity.
  - apply Hraise; [discriminate|]. rewrite Hdeep. vm_compute. reflexivity.
Qed.

End StyleExtractorFacts.

Module EmptyInputFacts.
Import Sampler Chunker StyleExtractor.

(** C9 as stated fails: on an empty input both functions return the empty
    list; neither raises. *)
Lemma empty_input_returns_empty :
  stratified_sample (G:=unit) [] default_settings 42 = Returned []
  /\ raises (stratified_sample (G:=unit) [] default_settings 42) = false
  /\ chunk_articles [] default_settings (fun _ => 1) = [].
Proof. repeat split. Qed.

(** C9, as the code has it. Given no documents, [stratified_sample] returns
    the empty sample and [chunk_articles] the empty list of chunks, for every
    setting, seed, generator and token counter; the empty corpus is refused
    by their caller, [StyleExtractor.run], which raises a [RuntimeError]
    before it samples. *)
Theorem empty_input_is_refused_by_the_caller :
  forall (G : Type) (R : RandomSource G),
    RandomLaws G ->
    forall (settings : Settings) (seed : Z) (token_counter : string -> Z),
      stratified_sample [] settings seed = Returned []
      /\ chunk_articles [] settings token_counter = []
      /\ run_sample [] settings
         = Raised (RuntimeError "No articles in corpus. Run `rewriter import` first.").
Proof.
  intros G R laws settings seed token_counter. repeat split.
  unfold stratified_sample, proportional_allocation, sorted_groups.
  cbn [group_by_category foldl fmap list_fmap for_each mbind outcome_bind].
  replace (len (@nil Article) >? target_count settings (len (@nil Article))) with false
    by (symmetry; rewrite Z.gtb_ltb; apply Z.ltb_ge; unfold target_count, len; cbn; lia).
  cbn [mret outcome_ret mbind outcome_bind]. f_equal.
  apply Permutation_nil_r. apply (shuffle_permutes G laws).
Qed.

Lemma empty_input_is_refused_by_the_caller_witness :
  stratified_sample (G:=unit) [] default_settings 42 = Returned []
  /\ chunk_articles [] default_settings (fun _ => 1) = []
  /\ run_sample (G:=unit) [] default_settings
     = Raised (RuntimeError "No articles in corpus. Run `rewriter import` first.").
Proof.
  exact (empty_input_is_refused_by_the_caller unit PrefixRandom SamplerFacts.prefix_random_laws
           default_settings 42 (fun _ => 1)).
Defined.

End EmptyInputFacts.

Module ExamplesFacts.
Import Sampler Examples.

Lemma where_eq_spec (labels : list Z) (c : Z) :
  forall (k i : nat),
    i ∈ where_eq labels c k <-> exists j, i = (k + j)%nat /\ labels !! j = Some c.
Proof.
  induction labels as [|l labels IH]; intros k i; cbn [where_eq].
  - split; [intros Hin; inversion Hin|intros (j & _ & Hj); discriminate].
  - assert (Htail : i ∈ where_eq labels c (Datatypes.S k)
                    <-> exists j, i = (k + Datatypes.S j)%nat /\ labels !! j = Some c).
    { rewrite IH. split; intros (j & -> & Hj); exists j; split; auto; lia. }
    destruct (Z.eqb_spec l c) as [->|Hne].
    + rewrite elem_of_cons, Htail. split.
      * intros [->|(j & -> & Hj)]; [exists 0%nat|exists (Datatypes.S j)]; split; auto; lia.
      * intros ([|j] & -> & Hj); [left; lia|right; exists j; auto].
    + rewrite Htail. split.
      * intros (j & -> & Hj). exists (Datatypes.S j). auto.
      * intros ([|j] & -> & Hj); [cbn in Hj; congruence|exists j; auto].
Qed.

Lemma where_eq_lt (labels : list Z) (c : Z) (i : nat) :
  i ∈ where_eq labels c 0 -> (i < length labels)%nat /\ labels !! i = Some c.
Proof.
  intros Hin. apply where_eq_spec in Hin as (j & -> & Hj).
  split; [apply lookup_lt_Some in Hj; lia|exact Hj].
Qed.

Lemma index_lookup {A : Type} (l : list A) (i : nat) (x : A) :
  l !! i = Some x -> index l i = Returned x.
Proof. unfold index. now intros ->. Qed.

Lemma rows_spec {A : Type} (m : list A) (indices : list nat) :
  Forall (fun i => (i < length m)%nat) indices ->
  exists xs, rows m indices = Returned xs
             /\ Forall2 (fun i x => m !! i = Some x) indices xs.
Proof.
  induction 1 as [|i indices Hi _ (xs & IHr & IHx)]; [exists []; split; [reflexivity|constructor]|].
  destruct (lookup_lt_is_Some_2 m i Hi) as [x Hx].
  exists (x :: xs). cbn [rows]. rewrite (index_lookup _ _ _ Hx). cbn [mbind outcome_bind].
  rewrite IHr. split; [reflexivity|now constructor].
Qed.

(** [argmax_from] either keeps the best so far, which then bounds the whole
    list, or moves to a position of the list whose value does. *)
Lemma argmax_from_spec (l : list Q) :
  forall (best_i : nat) (best : Q) (i : nat),
    (argmax_from best_i best i l = best_i /\ Forall (fun x => (x <= best)%Q) l)
    \/ (exists j x, argmax_from best_i best i l = (i + j)%nat
                    /\ l !! j = Some x /\ (best <= x)%Q
                    /\ Forall (fun y => (y <= x)%Q) l).
Proof.
  induction l as [|x l IH]; intros best_i best i; cbn [argmax_from].
  - left. split; [reflexivity|constructor].
  - destruct (Qlt_le_dec best x) as [Hlt|Hle].
    + right. destruct (IH i x (Datatypes.S i)) as [[-> Hall]|(j & y & -> & Hj & Hxy & Hall)].
      * exists 0%nat, x. repeat split; [lia|now apply Qlt_le_weak|].
        constructor; [apply Qle_refl|exact Hall].
      * exists (Datatypes.S j), y. repeat split; [lia|exact Hj| |].
        -- eapply Qle_trans; [apply Qlt_le_weak; exact Hlt|exact Hxy].
        -- constructor; [exact Hxy|exact Hall].
    + destruct (IH best_i best (Datatypes.S i)) as [[-> Hall]|(j & y & -> & Hj & Hby & Hall)].
      * left. split; [reflexivity|]. constructor; [exact Hle|exact Hall].
      * right. exists (Datatypes.S j), y. repeat split; [lia|exact Hj|exact Hby|].
        constructor; [eapply Qle_trans; eassumption|exact Hall].
Qed.

Lemma argmax_spec (l : list Q) :
  l <> [] ->
  exists best, l !! argmax l = Some best /\ Forall (fun x => (x <= best)%Q) l.
Proof.
  destruct l as [|x l]; [congruence|intros _]. cbn [argmax].
  destruct (argmax_from_spec l 0 x 1) as [[-> Hall]|(j & y & -> & Hj & Hxy & Hall)].
  - exists x. split; [reflexivity|]. constructor; [apply Qle_refl|exact Hall].
  - exists y. split; [exact Hj|]. constructor; [exact Hxy|exact Hall].
Qed.

Section Clusters.
Context {vec vectorizer : Type}.
Variable cosine_similarity : vec -> vec -> Q.
Variable m : selector_model (vec:=vec) (vectorizer:=vectorizer).
Variables (labels : list Z) (centers : list vec).

Hypothesis labels_rows : length labels = length (_tfidf_matrix m).
Hypothesis ids_rows : length (_article_ids m) = length (_tfidf_matrix m).
Hypothesis ids_present : Forall is_Some (_article_ids m).

Lemma cluster_step_spec (examples : list FewShotExample) (c : Z) :
  0 <= c -> (Z.to_nat c < length centers)%nat ->
((c ∉ labels)
   /\ cluster_step cosine_similarity m labels centers examples c = Returned examples)
  \/ (c ∈ labels
      /\ exists e, cluster_step cosine_similarity m labels centers examples c
                   = Returned (examples ++ [e])
                   /\ cluster_id e = c
                   /\ representative cosine_similarity m labels centers e).
Proof.
  intros Hc Hcenter. unfold cluster_step.
  destruct (where_eq labels c 0) as [|i0 indices0] eqn:Eidx.
  - left. split; [|reflexivity].
    intros Hin. apply list_elem_of_lookup in Hin as [j Hj].
    assert (Hmem : j ∈ where_eq labels c 0) by (apply where_eq_spec; exists j; auto).
    rewrite Eidx in Hmem. inversion Hmem.
  - right. rewrite <- Eidx.
    assert (Hmembers : Forall (fun i => (i < length (_tfidf_matrix m))%nat) (where_eq labels c 0)).
    { apply Forall_forall. intros i Hi. apply where_eq_lt in Hi as [Hi _]. lia. }
    destruct (rows_spec (_tfidf_matrix m) _ Hmembers) as (vs & -> & Hvs).
    cbn [mbind outcome_bind].
    destruct (lookup_lt_is_Some_2 centers _ Hcenter) as [centroid Hcentroid].
    rewrite (index_lookup _ _ _ Hcentroid). cbn [mbind outcome_bind].
    set (distances := (fun v => cosine_similarity v centroid) <$> vs).
    assert (Hlen : length vs = length (where_eq labels c 0))
      by (symmetry; eapply Forall2_length; exact Hvs).
    assert (Hne : distances <> []).
    { unfold distances. destruct vs; [rewrite Eidx in Hlen; discriminate|discriminate]. }
    destruct (argmax_spec distances Hne) as (best & Hbest & Hall).
    assert (Hpos : (argmax distances < length (where_eq labels c 0))%nat).
    { apply lookup_lt_Some in Hbest.
      assert (length distances = length vs) by apply length_fmap. lia. }
    destruct (lookup_lt_is_Some_2 _ _ Hpos) as [best_idx Hbest_idx].
    rewrite (index_lookup _ _ _ Hbest_idx). cbn [mbind outcome_bind].
    assert (Hmember : best_idx ∈ where_eq labels c 0)
      by (apply list_elem_of_lookup; eauto).
    apply where_eq_lt in Hmember as [Hrange Hlabel].
    destruct (lookup_lt_is_Some_2 (_article_ids m) best_idx ltac:(lia)) as [aid Haid].
    rewrite (index_lookup _ _ _ Haid). cbn [mbind outcome_bind].
    rewrite (index_lookup _ _ _ Hbest). cbn [mbind outcome_bind].
    assert (Hsome : is_Some aid)
      by (eapply Forall_forall; [exact ids_present|apply list_elem_of_lookup; eauto]).
    destruct Hsome as [aid_z ->].
    split.
    { apply list_elem_of_lookup. eauto. }
    eexists. split; [reflexivity|]. split; [reflexivity|].
    (* the vector of the chosen member *)
    destruct (Forall2_lookup_l _ _ _ _ _ Hvs Hbest_idx) as (v & Hv & Hrow).
    assert (Hbest_v : best = cosine_similarity v centroid).
    { pose proof Hbest as Hb. unfold distances in Hb at 2.
      rewrite list_lookup_fmap, Hv in Hb. cbn in Hb. congruence. }
    exists best_idx, v, centroid. cbn [cluster_id article_id distance_to_centroid].
    repeat split; auto.
    + now rewrite Hbest_v.
    + intros j w Hj Hw.
      assert (Hjm : j ∈ where_eq labels c 0) by (apply where_eq_spec; exists j; auto).
      apply list_elem_of_lookup in Hjm as [p Hp].
      destruct (Forall2_lookup_l _ _ _ _ _ Hvs Hp) as (w' & Hw' & Hrow').
      assert (w' = w) by congruence. subst w'.
      rewrite <- Hbest_v.
      apply (proj1 (Forall_forall _ _) Hall (cosine_similarity w centroid)).
      apply list_elem_of_lookup. exists p. unfold distances at 1.
      now rewrite list_lookup_fmap, Hw'.
Qed.

(** The loop over the cluster ids [s, s + k): one example per non-empty
    cluster, in order, and none for an empty one. *)
Lemma clusters_loop_spec (k : nat) :
  forall (s : nat) (examples : list FewShotExample),
    (s + k <= length centers)%nat ->
    exists new,
      for_each (cluster_step cosine_similarity m labels centers)
               (Z.of_nat <$> seq s k) examples = Returned (examples ++ new)
      /\ cluster_id <$> new = filter (fun c => c ∈ labels) (Z.of_nat <$> seq s k)
      /\ Forall (representative cosine_similarity m labels centers) new.
Proof.
  induction k as [|k IH]; intros s examples Hk.
  - exists []. cbn. rewrite app_nil_r. repeat split. constructor.
  - cbn [seq fmap list_fmap for_each].
    destruct (cluster_step_spec examples (Z.of_nat s)) as [[Hout ->]|(Hin & e & -> & He & Hrep)];
      [lia|rewrite Nat2Z.id; lia| |]; cbn [mbind outcome_bind].
    + destruct (IH (Datatypes.S s) examples ltac:(lia)) as (new & -> & Hids & Hreps).
      exists new. rewrite filter_cons_False by exact Hout. auto.
    + destruct (IH (Datatypes.S s) (examples ++ [e]) ltac:(lia)) as (new & -> & Hids & Hreps).
      exists (e :: new). rewrite filter_cons_True by exact Hin.
      rewrite <- app_assoc. cbn [app fmap list_fmap]. rewrite He, Hids.
      repeat split. now constructor.
Qed.

End Clusters.

Lemma py_range_elem (n c : Z) : c ∈ py_range n <-> 0 <= c < n.
Proof.
  unfold py_range. rewrite list_elem_of_fmap. split.
  - intros (i & -> & Hi). apply elem_of_seq in Hi. lia.
  - intros Hc. exists (Z.to_nat c). split; [lia|]. apply elem_of_seq. lia.
Qed.

Lemma py_range_nodup (n : Z) : NoDup (py_range n).
Proof.
  unfold py_range. apply NoDup_fmap_2; [|apply NoDup_seq].
  intros i j Hij. lia.
Qed.

(** C7. [build_clusters] clusters with [k = min(configured target, corpus
    size)], and, given the labels and centres the clustering returns for
    that [k] (one label per document, [k] centres), produces exactly one
    example per non-empty cluster, in cluster order: a member of the cluster
    whose vector no other member beats in cosine similarity to the
    cluster's centroid, with one minus that similarity as its distance.  An
    empty cluster gets no example. *)
Theorem build_clusters_one_example_per_cluster :
  forall (vec vectorizer : Type)
         (fit_transform : list string -> vectorizer * list vec)
         (kmeans : Z -> list vec -> outcome (list Z * list vec))
         (cosine_similarity : vec -> vec -> Q)
         (articles : list Article) (settings : Settings)
         (labels : list Z) (centers : list vec),
    let texts := (fun a => title a +:+ " " +:+ content a) <$> articles in
    let k := Z.min (n_clusters settings) (len articles) in
    let m := {| _vectorizer := (fit_transform texts).1;
                _tfidf_matrix := (fit_transform texts).2;
                _article_ids := id <$> articles |} in
    articles <> [] ->
    Forall (fun a => is_Some (id a)) articles ->
    length (fit_transform texts).2 = length articles ->
    kmeans k (fit_transform texts).2 = Returned (labels, centers) ->
    length labels = length articles ->
    len centers = k ->
    exists examples,
      build_clusters fit_transform kmeans cosine_similarity articles settings
      = Returned (examples, m)
      /\ cluster_id <$> examples = filter (fun c => c ∈ labels) (py_range k)
      /\ NoDup (cluster_id <$> examples)
      /\ (forall c, c ∈ cluster_id <$> examples <-> 0 <= c < k /\ c ∈ labels)
      /\ Forall (representative cosine_similarity m labels centers) examples.
Proof.
  intros vec vectorizer fit_transform kmeans cosine_similarity articles settings
         labels centers texts k m Hne Hids Hrows Hkmeans Hlabels Hcenters.
  subst texts k m. unfold build_clusters.
  destruct articles as [|a0 articles0]; [congruence|]. cbv beta iota.
  set (articles := a0 :: articles0) in *.
  destruct (fit_transform _) as [vz matrix]. cbn [fst snd] in *.
  rewrite Hkmeans. cbn [mbind outcome_bind].
  set (k := Z.min (n_clusters settings) (len articles)) in *.
  set (m := {| _vectorizer := vz; _tfidf_matrix := matrix; _article_ids := id <$> articles |}).
  destruct (clusters_loop_spec cosine_similarity m labels centers) with
    (k := Z.to_nat k) (s := 0%nat) (examples := @nil FewShotExample)
    as (new & Hrun & Hcids & Hreps).
  - subst m. cbn [_tfidf_matrix]. lia.
  - subst m. cbn [_tfidf_matrix _article_ids]. rewrite length_fmap. lia.
  - subst m. cbn [_article_ids]. apply Forall_fmap. exact Hids.
  - unfold len in Hcenters. lia.
  - exists new. fold (py_range k) in Hrun, Hcids. rewrite Hrun.
    cbn [mbind outcome_bind mret outcome_ret app].
    split; [reflexivity|]. split; [exact Hcids|]. rewrite Hcids.
    split; [apply NoDup_filter, py_range_nodup|]. split; [|exact Hreps].
    intros c. rewrite list_elem_of_filter, py_range_elem. tauto.
Qed.

(** Three documents and two clusters: the first and the third document
    share cluster 0, whose centre is the first document's vector, so the
    first document represents it at distance 0. *)
Lemma build_clusters_one_example_per_cluster_witness :
  exists examples,
    build_clusters toy_fit_transform toy_kmeans dot [article_1; article_2; article_3]
      {| model := "m"; analysis_model := "m"; max_tokens := 1; temperature := 0%Q;
         sample_fraction := 0%Q; chunk_max_tokens := 1; chunk_articles_cap := 1;
         n_clusters := 2; n_examples := 3 |}
    = Returned (examples,
                {| _vectorizer := tt;
                   _tfidf_matrix := [[1%Q; 0%Q]; [0%Q; 1%Q]; [(3 # 5)%Q; (4 # 5)%Q]];
                   _article_ids := [Some 1; Some 2; Some 3] |})
    /\ cluster_id <$> examples = [0; 1]
    /\ article_id <$> examples = [1; 2].
Proof.
  destruct (build_clusters_one_example_per_cluster (list Q) unit
              toy_fit_transform toy_kmeans dot [article_1; article_2; article_3]
              {| model := "m"; analysis_model := "m"; max_tokens := 1; temperature := 0%Q;
                 sample_fraction := 0%Q; chunk_max_tokens := 1; chunk_articles_cap := 1;
                 n_clusters := 2; n_examples := 3 |}
              [0; 1; 0] [[1%Q; 0%Q]; [0%Q; 1%Q]])
    as (examples & Hrun & Hcids & _); try reflexivity.
  - discriminate.
  - repeat constructor; eexists; reflexivity.
  - exists examples. split; [exact Hrun|]. split; [exact Hcids|].
    vm_compute in Hrun. injection Hrun as <-. reflexivity.
Defined.

(** *** Retrieval over two examples *)

Example build_clusters_two_documents :
  build_clusters toy_fit_transform toy_kmeans dot [article_1; article_2] default_settings
  = Returned (two_examples, two_model).
Proof. reflexivity. Qed.

(** C8 on the code. The query is the text of the second example, so its
    similarity is 1 with the second example and 0 with the first.  Asked for
    two results, [find_similar] returns the first example first: the ids it
    ranked, [2; 1], go through [get_articles_by_ids], which orders by id.
    Asked for one it returns the second example; asked for none it returns
    both, [argsort(...)[-0:]] being the whole array. *)
Theorem find_similar_returns_id_order :
  (title article_2 +:+ " " +:+ content article_2 = "beta two")
  /\ (dot (toy_vector "beta two") (toy_vector "alpha one") == 0)%Q
  /\ (dot (toy_vector "beta two") (toy_vector "beta two") == 1)%Q
  /\ find_similar toy_transform dot two_model two_store "beta two" 2
     = Returned [article_1; article_2]
  /\ find_similar toy_transform dot two_model two_store "beta two" 1
     = Returned [article_2]
  /\ find_similar toy_transform dot two_model two_store "beta two" 0
     = Returned [article_1; article_2].
Proof. repeat split. Qed.

End ExamplesFacts.

Module ChunkerMoreFacts.
Import Chunker ChunkerNotions.

Lemma greedy_snoc settings tc (cs : list (list Article)) (c next : list Article) :
  greedy settings tc (cs ++ [c]) ->
  follows settings tc c next ->
  greedy settings tc (cs ++ [c; next]).
Proof.
  induction cs as [|x cs IH]; intros Hg Hf.
  - cbn. auto.
  - cbn [app greedy] in Hg |- *. destruct Hg as [Hx Hg].
    split; [|now apply IH].
    destruct cs as [|y cs]; exact Hx.
Qed.

Lemma follows_grow settings tc (c next : list Article) (a : Article) :
  next <> [] -> follows settings tc c next -> follows settings tc c (next ++ [a]).
Proof. destruct next; [congruence|auto]. Qed.

Lemma greedy_grow_last settings tc (cs : list (list Article)) (c : list Article)
    (a : Article) :
  c <> [] ->
  greedy settings tc (cs ++ [c]) ->
  greedy settings tc (cs ++ [c ++ [a]]).
Proof.
  intros Hc. induction cs as [|x cs IH]; intros Hg.
  - cbn. auto.
  - cbn [app greedy] in Hg |- *. destruct Hg as [Hx Hg].
    split; [|now apply IH].
    destruct cs as [|y cs]; cbn [app] in *; [now apply follows_grow|exact Hx].
Qed.

(** While the loop runs, the closed chunks and the running one are greedy. *)
Lemma chunk_loop_greedy settings tc (articles : list Article) :
  match current_chunk (chunk_loop settings tc articles) with
  | [] => chunks (chunk_loop settings tc articles) = []
  | _ :: _ =>
      greedy settings tc
        (chunks (chunk_loop settings tc articles)
         ++ [current_chunk (chunk_loop settings tc articles)])
  end.
Proof.
  induction articles as [|a l IH] using rev_ind; [reflexivity|].
  pose proof (ChunkerFacts.chunk_loop_inv settings tc l) as [_ _ _ Htok _].
  unfold chunk_loop in *. rewrite foldl_app. cbn [foldl].
  set (st := foldl (chunk_step settings tc) _ l) in *.
  unfold chunk_step.
  destruct (current_chunk st) as [|b rest] eqn:Ecur.
  - cbn [chunks current_chunk app]. rewrite IH, Ecur. cbn. auto.
  - destruct ((current_tokens st + tc (article_text a) >? chunk_max_tokens settings)
              || (len (b :: rest) >=? chunk_articles_cap settings)) eqn:Eclose.
    + cbn [chunks current_chunk app].
      rewrite <- app_assoc. cbn [app]. apply greedy_snoc; [exact IH|].
      cbn [follows]. unfold closes. rewrite <- Htok.
      apply orb_true_iff in Eclose as [E|E].
      * left. rewrite Z.gtb_ltb in E. apply Z.ltb_lt in E. lia.
      * right. rewrite Z.geb_leb in E. apply Z.leb_le in E. lia.
    + rewrite Ecur. cbn [chunks current_chunk].
      change (b :: rest ++ [a]) with ((b :: rest) ++ [a]).
      apply greedy_grow_last; [discriminate|exact IH].
Qed.

(** X1. [chunk_articles] packs greedily: every chunk after the first starts
    with the document that closed the chunk before it, because adding it
    would have exceeded the token budget or because that chunk had reached
    the item cap.  No chunk is closed early. *)
Theorem chunk_articles_greedy :
  forall (articles : list Article) (settings : Settings) (token_counter : string -> Z),
    greedy settings token_counter (chunk_articles articles settings token_counter).
Proof.
  intros articles settings tc. unfold chunk_articles.
  pose proof (chunk_loop_greedy settings tc articles) as Hg.
  destruct (current_chunk (chunk_loop settings tc articles)) as [|b rest].
  - rewrite Hg. exact I.
  - exact Hg.
Qed.

Lemma chunk_loop_all_fit settings tc (articles : list Article) :
  Forall (fun a => 0 <= tc (article_text a)) articles ->
  chunk_tokens tc articles <= chunk_max_tokens settings ->
  len articles <= chunk_articles_cap settings ->
  chunk_loop settings tc articles
  = {| chunks := []; current_chunk := articles;
       current_tokens := chunk_tokens tc articles |}.
Proof.
  induction articles as [|a l IH] using rev_ind; intros Hpos Htok Hlen; [reflexivity|].
  apply Forall_app in Hpos as [Hl Ha]. inversion Ha as [|? ? Ha0 _]; subst.
  rewrite ChunkerFacts.chunk_tokens_snoc in Htok |- *.
  unfold len in Hlen. rewrite length_app in Hlen. cbn [length] in Hlen.
  unfold chunk_loop in *. rewrite foldl_app. cbn [foldl].
  rewrite IH; [|exact Hl|lia|unfold len; lia].
  unfold chunk_step. cbn [current_chunk current_tokens chunks].
  destruct l as [|b rest]; [reflexivity|].
  replace ((chunk_tokens tc (b :: rest) + tc (article_text a) >? chunk_max_tokens settings)
           || (len (b :: rest) >=? chunk_articles_cap settings)) with false; [reflexivity|].
  symmetry. apply orb_false_iff. split.
  - rewrite Z.gtb_ltb. apply Z.ltb_ge. lia.
  - rewrite Z.geb_leb. apply Z.leb_gt. unfold len. lia.
Qed.

(** X2. A non-empty sample that fits the token budget and the item cap as
    a whole, with no negative token count, becomes exactly one chunk. *)
Theorem chunk_articles_single :
  forall (articles : list Article) (settings : Settings) (token_counter : string -> Z),
    articles <> [] ->
    Forall (fun a => 0 <= token_counter (article_text a)) articles ->
    chunk_tokens token_counter articles <= chunk_max_tokens settings ->
    len articles <= chunk_articles_cap settings ->
    chunk_articles articles settings token_counter = [articles].
Proof.
  intros articles settings tc Hne Hpos Htok Hlen. unfold chunk_articles.
  rewrite (chunk_loop_all_fit settings tc articles Hpos Htok Hlen).
  cbn [current_chunk chunks]. destruct articles; [congruence|reflexivity].
Qed.

Lemma chunk_articles_single_witness :
  chunk_articles Sampler.small_corpus default_settings (fun _ => 100)
  = [Sampler.small_corpus].
Proof.
  apply chunk_articles_single.
  - discriminate.
  - repeat constructor; lia.
  - vm_compute. discriminate.
  - vm_compute. discriminate.
Defined.

Lemma concat_len_bounds (cs : list (list Article)) (cap : Z) :
  Forall (fun c => 1 <= len c <= cap) cs ->
  len cs <= len (concat cs) <= cap * len cs.
Proof.
  induction 1 as [|c cs Hc _ IH]; [unfold len; cbn; lia|].
  cbn [concat]. rewrite SamplerFacts.len_app.
  assert (len (c :: cs) = 1 + len cs) by (unfold len; cbn [length]; lia).
  nia.
Qed.

(** X3. [chunk_articles] makes at most one chunk per document, and with an
    item cap of at least 1 no chunk holds more documents than the cap, so
    the number of chunks is at least the number of documents divided by the
    cap. *)
Theorem chunk_articles_count :
  forall (articles : list Article) (settings : Settings) (token_counter : string -> Z),
    1 <= chunk_articles_cap settings ->
    Forall (fun c => 1 <= len c <= chunk_articles_cap settings)
           (chunk_articles articles settings token_counter)
    /\ len (chunk_articles articles settings token_counter) <= len articles
    /\ len articles
       <= chunk_articles_cap settings * len (chunk_articles articles settings token_counter).
Proof.
  intros articles settings tc Hcap.
  destruct (ChunkerFacts.chunk_loop_inv settings tc articles) as [Hne Hok Hord _ Hcur].
  assert (Hall : Forall (fun c => c <> [] /\ chunk_ok settings tc c)
                        (chunk_articles articles settings tc)
                 /\ concat (chunk_articles articles settings tc) = articles).
  { unfold chunk_articles.
    destruct (current_chunk (chunk_loop settings tc articles)) as [|b rest] eqn:Ecur.
    - rewrite app_nil_r in Hord. split; [|exact Hord].
      apply Forall_and. auto.
    - split; [|rewrite concat_app; cbn; now rewrite app_nil_r].
      apply Forall_app. split; [apply Forall_and; auto|].
      constructor; [|constructor]. split; [discriminate|].
      destruct Hcur as [Hcur|Hcur]; [discriminate|exact Hcur]. }
  destruct Hall as [Hall Hcat].
  assert (Hlens : Forall (fun c => 1 <= len c <= chunk_articles_cap settings)
                         (chunk_articles articles settings tc)).
  { eapply Forall_impl; [exact Hall|]. cbn. intros c [Hc [[_ Hl]|Hone]].
    - destruct c; [congruence|]. unfold len in *. cbn [length] in *. lia.
    - unfold len. lia. }
  split; [exact Hlens|].
  pose proof (concat_len_bounds _ _ Hlens) as Hb. rewrite Hcat in Hb. lia.
Qed.

Lemma chunk_articles_count_witness :
  Forall (fun c => 1 <= len c <= 2)
         (chunk_articles Sampler.seven_articles
            {| model := "m"; analysis_model := "m"; max_tokens := 1; temperature := 0%Q;
               sample_fraction := 0%Q; chunk_max_tokens := 1000; chunk_articles_cap := 2;
               n_clusters := 2; n_examples := 3 |} (fun _ => 100))
  /\ len (chunk_articles Sampler.seven_articles
            {| model := "m"; analysis_model := "m"; max_tokens := 1; temperature := 0%Q;
               sample_fraction := 0%Q; chunk_max_tokens := 1000; chunk_articles_cap := 2;
               n_clusters := 2; n_examples := 3 |} (fun _ => 100)) <= 7
  /\ 7 <= 2 * len (chunk_articles Sampler.seven_articles
            {| model := "m"; analysis_model := "m"; max_tokens := 1; temperature := 0%Q;
               sample_fraction := 0%Q; chunk_max_tokens := 1000; chunk_articles_cap := 2;
               n_clusters := 2; n_examples := 3 |} (fun _ => 100)).
Proof.
  apply (chunk_articles_count Sampler.seven_articles
           {| model := "m"; analysis_model := "m"; max_tokens := 1; temperature := 0%Q;
              sample_fraction := 0%Q; chunk_max_tokens := 1000; chunk_articles_cap := 2;
              n_clusters := 2; n_examples := 3 |} (fun _ => 100)).
  vm_compute. discriminate.
Defined.

End ChunkerMoreFacts.

Module SamplerMoreFacts.
Import Sampler SamplerNotions SamplerFacts.

(** *** Slices as prefixes and suffixes *)

Lemma slice_take_drop {A} (l : list A) (a b : Z) :
  0 <= a <= b -> b <= len l ->
  slice l a b = take (Z.to_nat (b - a)) (drop (Z.to_nat a) l).
Proof.
  intros Hab Hb. unfold slice, clamp_index.
  destruct (a <? 0) eqn:Ea; [apply Z.ltb_lt in Ea; lia|].
  destruct (b <? 0) eqn:Eb; [apply Z.ltb_lt in Eb; lia|].
  rewrite !Z.min_l by lia. f_equal. lia.
Qed.

Lemma slice_to_end {A} (l : list A) (a : Z) :
  0 <= a <= len l -> slice l a (len l) = drop (Z.to_nat a) l.
Proof.
  intros Ha. rewrite slice_take_drop by lia.
  apply take_ge. rewrite length_drop. unfold len. lia.
Qed.

Lemma time_slice_inner (cat_articles : list Article) (n_slices slice_size s : Z) :
  0 <= s < n_slices - 1 -> 0 <= slice_size ->
  (s + 1) * slice_size <= len cat_articles ->
  time_slice cat_articles n_slices slice_size s
  = take (Z.to_nat slice_size) (drop (Z.to_nat (s * slice_size)) cat_articles).
Proof.
  intros Hs Hss Hfit. unfold time_slice.
  replace (s <? n_slices - 1) with true by (symmetry; apply Z.ltb_lt; lia).
  rewrite slice_take_drop by nia. do 2 f_equal. lia.
Qed.

Lemma time_slice_last (cat_articles : list Article) (n_slices slice_size s : Z) :
  n_slices - 1 <= s -> 0 <= s * slice_size <= len cat_articles ->
  time_slice cat_articles n_slices slice_size s
  = drop (Z.to_nat (s * slice_size)) cat_articles.
Proof.
  intros Hs Hfit. unfold time_slice.
  replace (s <? n_slices - 1) with false by (symmetry; apply Z.ltb_ge; lia).
  now apply slice_to_end.
Qed.

(** The slices from [s] on make up the rest of the category. *)
Lemma time_slices_partition_from (cat_articles : list Article) (n_slices slice_size : Z) :
  0 <= slice_size -> n_slices * slice_size <= len cat_articles ->
  forall (k s : nat),
    n_slices = Z.of_nat (s + Datatypes.S k) ->
    concat (time_slice cat_articles n_slices slice_size <$> (Z.of_nat <$> seq s (Datatypes.S k)))
    = drop (Z.to_nat (Z.of_nat s * slice_size)) cat_articles.
Proof.
  intros Hss Hfit. induction k as [|k IH]; intros s Hns.
  - cbn [seq fmap list_fmap concat]. rewrite app_nil_r.
    apply time_slice_last; nia.
  - change (Z.of_nat <$> seq s (Datatypes.S (Datatypes.S k)))
      with (Z.of_nat s :: (Z.of_nat <$> seq (Datatypes.S s) (Datatypes.S k))).
    rewrite fmap_cons. cbn [concat]. rewrite (IH (Datatypes.S s)) by lia.
    rewrite time_slice_inner by nia.
    replace (Z.to_nat (Z.of_nat (Datatypes.S s) * slice_size))
      with (Z.to_nat (Z.of_nat s * slice_size) + Z.to_nat slice_size)%nat by nia.
    rewrite <- drop_drop. apply take_drop.
Qed.

Lemma elem_of_take_list {A} (x : A) (n : nat) (l : list A) : x ∈ take n l -> x ∈ l.
Proof. intros Hx. rewrite <- (take_drop n l). apply elem_of_app. now left. Qed.

Lemma elem_of_drop_list {A} (x : A) (n : nat) (l : list A) : x ∈ drop n l -> x ∈ l.
Proof. intros Hx. rewrite <- (take_drop n l). apply elem_of_app. now right. Qed.

Lemma insert_by_date_sorted (a : Article) (l : list Article) :
  StronglySorted by_date l -> StronglySorted by_date (insert_by_date a l).
Proof.
  unfold by_date. induction 1 as [|b l Hl IH Hb]; cbn [insert_by_date].
  - constructor; constructor.
  - destruct (date_key a <=? date_key b) eqn:Ele.
    + apply Z.leb_le in Ele. constructor; [now constructor|].
      constructor; [exact Ele|]. eapply Forall_impl; [exact Hb|]. cbn. intros c Hc. lia.
    + apply Z.leb_gt in Ele. constructor; [exact IH|].
      rewrite insert_by_date_perm. constructor; [lia|exact Hb].
Qed.

Lemma sort_by_date_sorted (l : list Article) : StronglySorted by_date (sort_by_date l).
Proof.
  unfold sort_by_date. induction l as [|a l IH]; [constructor|].
  cbn [foldr]. now apply insert_by_date_sorted.
Qed.

Lemma sorted_groups_sorted (articles : list Article) :
  Forall (StronglySorted by_date) (sorted_groups articles).
Proof.
  unfold sorted_groups. apply Forall_fmap, Forall_forall.
  intros kv _. apply sort_by_date_sorted.
Qed.

(** *** Grouping neither loses nor invents documents *)

Lemma dict_append_perm cat a d :
  concat ((dict_append cat a d).*2) ≡ₚ a :: concat (d.*2).
Proof.
  induction d as [|[k v] d IH]; [reflexivity|].
  cbn [dict_append]. destruct (String.eqb k cat).
  - rewrite !fmap_cons. cbn [snd concat].
    rewrite <- app_assoc. cbn [app].
    symmetry. apply Permutation_middle.
  - rewrite !fmap_cons. cbn [snd concat]. rewrite IH.
    symmetry. apply Permutation_middle.
Qed.

Lemma group_by_category_perm articles :
  concat ((group_by_category articles).*2) ≡ₚ articles.
Proof.
  unfold group_by_category.
  induction articles as [|a l IH] using rev_ind; [reflexivity|].
  rewrite foldl_app. cbn [foldl]. rewrite dict_append_perm, IH.
  apply Permutation_cons_append.
Qed.

Lemma sorted_groups_perm articles : concat (sorted_groups articles) ≡ₚ articles.
Proof.
  rewrite <- (group_by_category_perm articles) at 2. unfold sorted_groups.
  induction (group_by_category articles) as [|[k v] d IH]; [reflexivity|].
  rewrite !fmap_cons. cbn [snd concat]. now rewrite sort_by_date_perm, IH.
Qed.

Lemma dict_append_keyed cat a d :
  primary_category a = cat ->
  Forall (fun kv => Forall (fun x => primary_category x = kv.1) kv.2) d ->
  Forall (fun kv => Forall (fun x => primary_category x = kv.1) kv.2) (dict_append cat a d).
Proof.
  intros <-. induction d as [|[k v] d IH]; intros Hd.
  - constructor; [|constructor]. cbn. constructor; [reflexivity|constructor].
  - inversion Hd as [|? ? Hv Hd']; subst. cbn [dict_append].
    destruct (String.eqb_spec k (primary_category a)) as [->|Hne].
    + constructor; [|exact Hd']. cbn in *. apply Forall_app. split; [exact Hv|].
      constructor; [reflexivity|constructor].
    + constructor; [exact Hv|]. now apply IH.
Qed.

Lemma group_by_category_keyed articles :
  Forall (fun kv => Forall (fun x => primary_category x = kv.1) kv.2)
         (group_by_category articles).
Proof.
  unfold group_by_category.
  induction articles as [|a l IH] using rev_ind; [constructor|].
  rewrite foldl_app. cbn [foldl]. now apply dict_append_keyed.
Qed.

Lemma sorted_groups_one_category articles :
  Forall one_category (sorted_groups articles).
Proof.
  unfold sorted_groups. pose proof (group_by_category_keyed articles) as Hk.
  induction Hk as [|[k v] d Hv _ IH]; [constructor|].
  rewrite fmap_cons. constructor; [|exact IH]. cbn [snd fst] in *.
  intros a b Ha Hb.
  rewrite sort_by_date_perm in Ha, Hb.
  rewrite Forall_forall in Hv. now rewrite (Hv a Ha), (Hv b Hb).
Qed.

Lemma cat_quota_whole target_n n_cat n_all :
  1 <= n_cat -> n_cat <= n_all -> n_all <= target_n ->
  n_cat <= cat_quota target_n n_cat n_all.
Proof.
  intros Hcat Hall Htarget. unfold cat_quota, py_round.
  assert (Hdiv : n_cat <= (target_n * n_cat) / n_all)
    by (apply Z.div_le_lower_bound; [lia|nia]).
  set (d := (target_n * n_cat) / n_all) in *.
  repeat match goal with |- context [if ?c then _ else _] => destruct c end; lia.
Qed.

Lemma total_len_bounds (groups : list (list Article)) :
  Forall (fun grp => len grp <= total_len groups) groups.
Proof.
  assert (Hpos : forall l : list (list Article), 0 <= total_len l).
  { induction l as [|x l IH]; [cbn; lia|].
    rewrite total_len_cons. pose proof (len_nonneg x). lia. }
  induction groups as [|x l IH]; [constructor|].
  rewrite total_len_cons. constructor; [specialize (Hpos l); lia|].
  eapply Forall_impl; [exact IH|]. cbn. intros y Hy. pose proof (len_nonneg x). lia.
Qed.

Lemma parts_whole target_n n_all (groups parts : list (list Article)) :
  Forall2 (fun grp part =>
             len grp <= cat_quota target_n (len grp) n_all -> part = grp) groups parts ->
  Forall (fun grp => len grp <= cat_quota target_n (len grp) n_all) groups ->
  parts = groups.
Proof.
  induction 1 as [|grp part groups parts Hp _ IH]; intros Hall; [reflexivity|].
  inversion Hall as [|? ? Hg Hall']; subst. now rewrite (Hp Hg), IH.
Qed.

(** *** What the time-slice loop picks *)

Section Picks.
Context {G : Type} `{RandomSource G}.
Hypothesis laws : RandomLaws G.

Lemma slice_step_picks (cat_articles : list Article) (n_slices slice_size : Z)
    (st : slice_state) (s m : Z) :
  len (time_slice cat_articles n_slices slice_size s) = m ->
  0 <= remainder st / (n_slices - s) ->
  exists r g',
    slice_step cat_articles n_slices slice_size st s
    = Returned {| selected := selected st ++ r;
                  remainder := remainder st - Z.min (remainder st / (n_slices - s)) m;
                  rng := g' |}
    /\ len r = Z.min (remainder st / (n_slices - s)) m
    /\ r ⊆+ time_slice cat_articles n_slices slice_size s.
Proof.
  intros Hm Hx. unfold slice_step. cbv zeta. fold (time_slice cat_articles n_slices slice_size s).
  rewrite Hm.
  pose proof (len_nonneg (time_slice cat_articles n_slices slice_size s)).
  destruct (sample_in_range G laws Article (rng st)
              (time_slice cat_articles n_slices slice_size s)
              (Z.min (remainder st / (n_slices - s)) m))
    as (r & g' & -> & Hr & Hsub); [lia|].
  exists r, g'. split; [reflexivity|]. split; [exact Hr|exact Hsub].
Qed.

(** From slice [s] on, with [k + 1] slices and at least as many documents
    left to pick: every slice gives at least one document, all of them its
    own, and together they give the remainder. *)
Lemma slices_from_parts (cat_articles : list Article) (n_slices : Z) :
  forall (k s : nat) (st : slice_state),
    n_slices = Z.of_nat (s + Datatypes.S k) ->
    1 <= len cat_articles / n_slices ->
    Z.of_nat (Datatypes.S k) <= remainder st
      <= len cat_articles - Z.of_nat s * (len cat_articles / n_slices) ->
    exists parts g',
      for_each (slice_step cat_articles n_slices (len cat_articles / n_slices))
               (Z.of_nat <$> seq s (Datatypes.S k)) st
      = Returned {| selected := selected st ++ concat parts; remainder := 0; rng := g' |}
      /\ Forall2 (fun i part =>
                    part <> []
                    /\ part ⊆+ time_slice cat_articles n_slices
                                 (len cat_articles / n_slices) i)
                 (Z.of_nat <$> seq s (Datatypes.S k)) parts
      /\ concat parts
         ⊆+ drop (Z.to_nat (Z.of_nat s * (len cat_articles / n_slices))) cat_articles
      /\ len (concat parts) = remainder st.
Proof.
  set (L := len cat_articles). set (ss := L / n_slices).
  induction k as [|k IH]; intros s st Hns Hss Hrem.
  - (* the last slice *)
    assert (Hfit : n_slices * ss <= L) by (apply Z.mul_div_le; lia).
    assert (Hslice : time_slice cat_articles n_slices ss (Z.of_nat s)
                     = drop (Z.to_nat (Z.of_nat s * ss)) cat_articles).
    { unfold time_slice.
      replace (Z.of_nat s <? n_slices - 1) with false by (symmetry; apply Z.ltb_ge; lia).
      apply slice_to_end. fold L. nia. }
    destruct (slice_step_picks cat_articles n_slices ss st (Z.of_nat s)
                (L - Z.of_nat s * ss)) as (r & g' & Hrun & Hr & Hsub).
    { rewrite Hslice. assert (0 <= Z.of_nat s * ss <= L) as Hp by nia.
      revert Hp. generalize (Z.of_nat s * ss). intros p Hp.
      unfold L, len in *. rewrite length_drop. lia. }
    { apply Z.div_pos; lia. }
    replace (n_slices - Z.of_nat s) with 1 in * by lia.
    rewrite Z.div_1_r, Z.min_l in * by lia.
    exists [r], g'. cbn [seq fmap list_fmap for_each concat]. rewrite Hrun, app_nil_r.
    cbn [mbind outcome_bind]. rewrite Z.sub_diag.
    split; [reflexivity|]. split; [|split; [now rewrite <- Hslice|exact Hr]].
    constructor; [|constructor]. split; [|exact Hsub].
    intros ->. unfold len in Hr. cbn in Hr. lia.
  - (* an earlier slice *)
    assert (Hfit : n_slices * ss <= L) by (apply Z.mul_div_le; lia).
    set (d := n_slices - Z.of_nat s).
    assert (Hd : d = Z.of_nat (Datatypes.S (Datatypes.S k))) by lia.
    assert (Hx : 1 <= remainder st / d) by (apply Z.div_le_lower_bound; lia).
    assert (Hslice : time_slice cat_articles n_slices ss (Z.of_nat s)
                     = take (Z.to_nat ss) (drop (Z.to_nat (Z.of_nat s * ss)) cat_articles)).
    { unfold time_slice.
      replace (Z.of_nat s <? n_slices - 1) with true by (symmetry; apply Z.ltb_lt; lia).
      rewrite slice_take_drop by (fold L; nia). do 2 f_equal. lia. }
    destruct (slice_step_picks cat_articles n_slices ss st (Z.of_nat s) ss)
      as (r & g' & Hrun & Hr & Hsub).
    { rewrite Hslice. assert (0 <= Z.of_nat s * ss /\ Z.of_nat s * ss + ss <= L) as Hp by nia.
      revert Hp. generalize (Z.of_nat s * ss). intros p Hp.
      unfold len. rewrite length_take, length_drop. unfold L, len in Hp. lia. }
    { fold d. lia. }
    fold d in Hrun, Hr.
    set (n := Z.min (remainder st / d) ss) in *.
    pose proof (Z.div_mod (remainder st) d ltac:(lia)) as Hdm.
    pose proof (Z.mod_pos_bound (remainder st) d ltac:(lia)) as Hmod.
    assert (Hlow : Z.of_nat (Datatypes.S k) <= remainder st - n).
    { assert (remainder st - remainder st / d >= d - 1) by nia. lia. }
    assert (Hup : remainder st - n <= L - Z.of_nat (Datatypes.S s) * ss).
    { destruct (Z.le_gt_cases ss (remainder st / d)) as [Hcap|Hfree].
      - replace n with ss by lia. lia.
      - replace n with (remainder st / d) by lia.
        assert ((d - 1) * (remainder st / d) <= (d - 1) * (ss - 1)) by nia.
        nia. }
    destruct (IH (Datatypes.S s)
                {| selected := selected st ++ r; remainder := remainder st - n; rng := g' |})
      as (parts & g'' & Hrest & Hparts & Hdrop & Hlen); cbn [remainder selected rng];
      [lia|exact Hss|lia|].
    exists (r :: parts), g''.
    change (Z.of_nat <$> seq s (Datatypes.S (Datatypes.S k)))
      with (Z.of_nat s :: (Z.of_nat <$> seq (Datatypes.S s) (Datatypes.S k))).
    cbn [for_each concat]. rewrite Hrun. cbn [mbind outcome_bind].
    rewrite Hrest, app_assoc. cbn [selected remainder] in Hlen |- *.
    split; [reflexivity|]. split; [|split].
    + constructor; [|exact Hparts]. split; [|exact Hsub].
      intros ->. unfold len in Hr. cbn in Hr. lia.
    + rewrite <- (take_drop (Z.to_nat ss) (drop (Z.to_nat (Z.of_nat s * ss)) cat_articles)).
      apply submseteq_app; [now rewrite <- Hslice|].
      rewrite drop_drop.
      replace (Z.to_nat (Z.of_nat s * ss) + Z.to_nat ss)%nat
        with (Z.to_nat (Z.of_nat (Datatypes.S s) * ss)) by nia.
      exact Hdrop.
    + rewrite len_app, Hr, Hlen. lia.
Qed.

Lemma time_slices_parts (cat_articles : list Article) (cat_n : Z)
    (sel : list Article) (g : G) :
  1 <= cat_n < len cat_articles ->
  exists parts g',
    time_slices cat_articles cat_n sel g = Returned (sel ++ concat parts, g')
    /\ Forall2 (fun i part =>
                  part <> []
                  /\ part ⊆+ time_slice cat_articles (Z.min cat_n 4)
                               (len cat_articles / Z.min cat_n 4) i)
               (py_range (Z.min cat_n 4)) parts
    /\ concat parts ⊆+ cat_articles
    /\ len (concat parts) = cat_n.
Proof.
  intros Hq. unfold time_slices, py_range.
  set (n_slices := Z.min cat_n 4).
  assert (Hns : 1 <= n_slices <= cat_n) by (unfold n_slices; lia).
  destruct (Z.to_nat n_slices) as [|k] eqn:Ek; [lia|].
  destruct (slices_from_parts cat_articles n_slices k 0
              {| selected := sel; remainder := cat_n; rng := g |})
    as (parts & g' & -> & Hparts & Hsub & Hlen); cbn [remainder selected rng].
  - lia.
  - apply Z.div_le_lower_bound; lia.
  - lia.
  - exists parts, g'. cbn [mbind outcome_bind mret outcome_ret selected rng].
    split; [reflexivity|]. split; [exact Hparts|]. split; [|exact Hlen].
    cbn in Hsub. exact Hsub.
Qed.

Lemma category_step_picks (target_n n_all : Z) (sel : list Article) (g : G)
    (cat_articles : list Article) :
  1 <= len cat_articles ->
  exists picked g',
    category_step target_n n_all (sel, g) cat_articles = Returned (sel ++ picked, g')
    /\ picked <> [] /\ picked ⊆+ cat_articles
    /\ (len cat_articles <= cat_quota target_n (len cat_articles) n_all ->
        picked = cat_articles).
Proof.
  intros Hne. unfold category_step.
  pose proof (cat_quota_bounds target_n (len cat_articles) n_all Hne) as Hq.
  destruct (cat_quota target_n (len cat_articles) n_all >=? len cat_articles) eqn:Eall.
  - exists cat_articles, g. split; [reflexivity|]. split; [|split; [reflexivity|auto]].
    intros ->. unfold len in Hne. cbn in Hne. lia.
  - rewrite Z.geb_leb in Eall. apply Z.leb_gt in Eall. cbn [fst snd].
    destruct (time_slices_parts cat_articles
                (cat_quota target_n (len cat_articles) n_all) sel g ltac:(lia))
      as (parts & g' & -> & _ & Hsub & Hlen).
    exists (concat parts), g'. split; [reflexivity|].
    split; [|split; [exact Hsub|intros Hge; exfalso; lia]].
    intros Hnil. rewrite Hnil in Hlen. change (len (@nil Article)) with 0 in Hlen. lia.
Qed.

Lemma allocation_picks (target_n n_all : Z) (groups : list (list Article)) :
  Forall (fun grp => 1 <= len grp) groups ->
  forall (sel : list Article) (g : G),
    exists parts g',
      for_each (category_step target_n n_all) groups (sel, g)
      = Returned (sel ++ concat parts, g')
      /\ Forall2 (fun grp part =>
                    part <> [] /\ part ⊆+ grp
                    /\ (len grp <= cat_quota target_n (len grp) n_all -> part = grp))
                 groups parts.
Proof.
  induction 1 as [|grp groups Hg _ IH]; intros sel g.
  - exists [], g. cbn. rewrite app_nil_r. split; [reflexivity|constructor].
  - cbn [for_each].
    destruct (category_step_picks target_n n_all sel g grp Hg)
      as (p1 & g1 & -> & Hne & Hsub & Hall).
    cbn [mbind outcome_bind].
    destruct (IH (sel ++ p1) g1) as (parts & g2 & -> & Hparts).
    exists (p1 :: parts), g2. cbn [concat]. rewrite app_assoc.
    split; [reflexivity|]. constructor; [auto|exact Hparts].
Qed.

Lemma elem_of_concat {A} (x : A) (ls : list (list A)) :
  x ∈ concat ls <-> exists l, x ∈ l /\ l ∈ ls.
Proof.
  induction ls as [|l ls IH]; cbn [concat].
  - split; [intros Hx; inversion Hx|intros (l & _ & Hl); inversion Hl].
  - rewrite elem_of_app, IH. split.
    + intros [Hx|(l' & Hx & Hl')]; [exists l; split; [exact Hx|left]|].
      exists l'. split; [exact Hx|now right].
    + intros (l' & Hx & Hl'). apply elem_of_cons in Hl' as [->|Hl']; [now left|].
      right. eauto.
Qed.

Lemma submseteq_nodup {A} (l k : list A) : l ⊆+ k -> NoDup k -> NoDup l.
Proof.
  intros Hsub Hk. apply submseteq_Permutation in Hsub as [k' Hperm].
  rewrite Hperm in Hk. now apply NoDup_app in Hk as [Hl _].
Qed.

Lemma parts_submseteq (groups parts : list (list Article)) :
  Forall2 (fun grp part => part ⊆+ grp) groups parts ->
  concat parts ⊆+ concat groups.
Proof.
  induction 1 as [|grp part groups parts Hp _ IH]; [reflexivity|].
  cbn [concat]. now apply submseteq_app.
Qed.

(** The selection before the overshoot correction. *)
Lemma proportional_allocation_picks (articles : list Article) (settings : Settings) (g : G) :
  exists sel g',
    proportional_allocation articles settings g = Returned (sel, g')
    /\ sel ⊆+ articles
    /\ (forall a, a ∈ articles -> represented sel a)
    /\ (len articles <= target_count settings (len articles) -> sel ≡ₚ articles).
Proof.
  unfold proportional_allocation.
  destruct (sorted_groups_spec articles) as [Htotal Hne].
  destruct (allocation_picks (target_count settings (len articles)) (len articles)
              (sorted_groups articles) Hne [] g) as (parts & g' & Hrun & Hparts).
  exists (concat parts), g'. split; [exact Hrun|]. split; [|split].
  - etransitivity; [|apply Permutation_submseteq, sorted_groups_perm].
    apply parts_submseteq. eapply Forall2_impl; [exact Hparts|]. cbn. tauto.
  - intros a Ha. rewrite <- (sorted_groups_perm articles) in Ha.
    apply elem_of_concat in Ha as (grp & Hagrp & Hgrp).
    apply list_elem_of_lookup in Hgrp as [i Hi].
    destruct (Forall2_lookup_l _ _ _ _ _ Hparts Hi) as (part & Hpart & Hpne & Hpsub & _).
    destruct part as [|b part]; [congruence|].
    assert (Hb : b ∈ grp) by (eapply elem_of_submseteq; [|exact Hpsub]; left).
    exists b. split.
    + apply elem_of_concat. exists (b :: part). split; [left|].
      apply list_elem_of_lookup. eauto.
    + pose proof (sorted_groups_one_category articles) as Hone.
      rewrite Forall_forall in Hone.
      apply (Hone grp); [apply list_elem_of_lookup; eauto|exact Hb|exact Hagrp].
  - intros Hwhole. transitivity (concat (sorted_groups articles));
      [|apply sorted_groups_perm].
    assert (Heq : parts = sorted_groups articles); [|now rewrite Heq].
    apply (parts_whole (target_count settings (len articles)) (len articles)).
    + eapply Forall2_impl; [exact Hparts|]. cbn. tauto.
    + pose proof (total_len_bounds (sorted_groups articles)) as Hsmall.
      rewrite Htotal in Hsmall.
      rewrite Forall_forall in Hsmall, Hne. apply Forall_forall. intros grp Hgrp.
      apply cat_quota_whole; [apply Hne, Hgrp|apply Hsmall, Hgrp|exact Hwhole].
Qed.

Lemma stratified_sample_of_allocation (articles : list Article) (settings : Settings)
    (seed : Z) :
  exists sel g sample,
    proportional_allocation articles settings (rng_seed seed) = Returned (sel, g)
    /\ stratified_sample articles settings seed = Returned sample
    /\ sample ⊆+ sel
    /\ (len sel <= target_count settings (len articles) -> sample ≡ₚ sel).
Proof.
  unfold stratified_sample.
  destruct (proportional_allocation_picks articles settings (rng_seed seed))
    as (sel & g & Hrun & _).
  exists sel, g. rewrite Hrun. cbn [mbind outcome_bind].
  destruct (len sel >? target_count settings (len articles)) eqn:Eover.
  - rewrite Z.gtb_ltb in Eover. apply Z.ltb_lt in Eover.
    assert (Htarget : 10 <= target_count settings (len articles))
      by (unfold target_count; lia).
    destruct (sample_in_range G laws Article g sel (target_count settings (len articles)))
      as (r & g' & -> & _ & Hsub); [lia|].
    cbn [mbind outcome_bind mret outcome_ret].
    exists (rng_shuffle g' r).1. split; [reflexivity|]. split; [reflexivity|].
    split; [|lia].
    etransitivity; [apply Permutation_submseteq, (shuffle_permutes G laws)|exact Hsub].
  - cbn [mbind outcome_bind mret outcome_ret].
    exists (rng_shuffle g sel).1. split; [reflexivity|]. split; [reflexivity|].
    split; [apply Permutation_submseteq|intros _]; apply (shuffle_permutes G laws).
Qed.

End Picks.

(** X4. Sampling is without replacement: for every corpus
    [stratified_sample] returns a sub-multiset of the corpus, so no document
    is in the sample more often than in the corpus, and a corpus without
    repeated documents gives a sample without repeated documents. *)
Theorem stratified_sample_without_replacement :
  forall (G : Type) (R : RandomSource G),
    RandomLaws G ->
    forall (articles : list Article) (settings : Settings) (seed : Z),
      exists sample,
        stratified_sample articles settings seed = Returned sample
        /\ sample ⊆+ articles
        /\ (NoDup articles -> NoDup sample).
Proof.
  intros G R laws articles settings seed.
  destruct (stratified_sample_of_allocation laws articles settings seed)
    as (sel & g & sample & Halloc & Hrun & Hsub & _).
  destruct (proportional_allocation_picks laws articles settings (rng_seed seed))
    as (sel' & g' & Halloc' & Hsel & _).
  rewrite Halloc in Halloc'. injection Halloc' as <- <-.
  exists sample. split; [exact Hrun|].
  assert (Hsample : sample ⊆+ articles) by (etransitivity; eassumption).
  split; [exact Hsample|]. intros Hnodup. eapply submseteq_nodup; eassumption.
Qed.

Lemma stratified_sample_without_replacement_witness :
  exists sample,
    stratified_sample (G:=unit) fifty_articles default_settings 42 = Returned sample
    /\ sample ⊆+ fifty_articles
    /\ (NoDup fifty_articles -> NoDup sample).
Proof.
  exact (stratified_sample_without_replacement unit PrefixRandom prefix_random_laws
           fifty_articles default_settings 42).
Defined.

(** X5. A corpus that is not larger than the target count
    [max(10, int(len(articles) * sample_fraction))], in particular every
    corpus of at most ten documents, is returned whole: the sample is a
    permutation of the corpus. *)
Theorem stratified_sample_whole_corpus :
  forall (G : Type) (R : RandomSource G),
    RandomLaws G ->
    forall (articles : list Article) (settings : Settings) (seed : Z),
      len articles <= target_count settings (len articles) ->
      exists sample,
        stratified_sample articles settings seed = Returned sample
        /\ sample ≡ₚ articles.
Proof.
  intros G R laws articles settings seed Hsmall.
  destruct (stratified_sample_of_allocation laws articles settings seed)
    as (sel & g & sample & Halloc & Hrun & _ & Hperm).
  destruct (proportional_allocation_picks laws articles settings (rng_seed seed))
    as (sel' & g' & Halloc' & _ & _ & Hwhole).
  rewrite Halloc in Halloc'. injection Halloc' as <- <-.
  specialize (Hwhole Hsmall).
  exists sample. split; [exact Hrun|].
  rewrite Hperm; [exact Hwhole|].
  unfold len. rewrite (Permutation_length Hwhole). exact Hsmall.
Qed.

Lemma stratified_sample_whole_corpus_witness :
  exists sample,
    stratified_sample (G:=unit) seven_articles default_settings 42 = Returned sample
    /\ sample ≡ₚ seven_articles.
Proof.
  apply (stratified_sample_whole_corpus unit PrefixRandom prefix_random_laws
           seven_articles default_settings 42).
  vm_compute. discriminate.
Defined.

(** X6. Chronological balance: a category whose quota [cat_n] is below its
    size is cut into [min(cat_n, 4)] time slices, and every one of these
    slices contributes at least one document, all of them taken from that
    slice without replacement. *)
Theorem time_slices_every_slice :
  forall (G : Type) (R : RandomSource G),
    RandomLaws G ->
    forall (cat_articles : list Article) (cat_n : Z) (sel : list Article) (g : G),
      1 <= cat_n < len cat_articles ->
      exists parts g',
        time_slices cat_articles cat_n sel g = Returned (sel ++ concat parts, g')
        /\ Forall2 (fun s part =>
                      part <> []
                      /\ part ⊆+ time_slice cat_articles (Z.min cat_n 4)
                                   (len cat_articles / Z.min cat_n 4) s)
                   (py_range (Z.min cat_n 4)) parts.
Proof.
  intros G R laws cat_articles cat_n sel g Hq.
  destruct (time_slices_parts laws cat_articles cat_n sel g Hq)
    as (parts & g' & Hrun & Hparts & _).
  exists parts, g'. split; [exact Hrun|exact Hparts].
Qed.

Lemma time_slices_every_slice_witness :
  exists parts g',
    time_slices (G:=unit) seven_articles 6 [] tt = Returned ([] ++ concat parts, g')
    /\ Forall2 (fun s part =>
                  part <> []
                  /\ part ⊆+ time_slice seven_articles (Z.min 6 4)
                               (len seven_articles / Z.min 6 4) s)
               (py_range (Z.min 6 4)) parts.
Proof.
  apply (time_slices_every_slice unit PrefixRandom prefix_random_laws
           seven_articles 6 [] tt).
  vm_compute. split; [discriminate|reflexivity].
Defined.

(** X17. The time slices of a category are chronological and leave no
    document out: every group that [stratified_sample] slices is sorted by
    date, its [min(cat_n, 4)] slices, put one after the other, are the group
    itself (the last slice runs to the end of the group), and every document
    of a slice is dated no later than every document of a later slice. *)
Theorem time_slices_are_chronological :
  forall (articles cat_articles : list Article) (cat_n : Z),
    cat_articles ∈ sorted_groups articles ->
    1 <= cat_n ->
    let n_slices := Z.min cat_n 4 in
    let slice_size := len cat_articles / n_slices in
    StronglySorted by_date cat_articles
    /\ concat (time_slice cat_articles n_slices slice_size <$> py_range n_slices)
       = cat_articles
    /\ (forall (s s' : Z) (a b : Article),
          0 <= s < s' -> s' < n_slices ->
          a ∈ time_slice cat_articles n_slices slice_size s ->
          b ∈ time_slice cat_articles n_slices slice_size s' ->
          by_date a b).
Proof.
  intros articles cat_articles cat_n Hgrp Hq n_slices slice_size.
  assert (Hsorted : StronglySorted by_date cat_articles)
    by (apply (proj1 (Forall_forall _ _) (sorted_groups_sorted articles)), Hgrp).
  assert (Hns : 1 <= n_slices <= 4) by (unfold n_slices; lia).
  pose proof (len_nonneg cat_articles) as HL.
  assert (Hss : 0 <= slice_size) by (apply Z.div_pos; lia).
  assert (Hfit : n_slices * slice_size <= len cat_articles)
    by (apply Z.mul_div_le; lia).
  split; [exact Hsorted|]. split.
  - unfold py_range. destruct (Z.to_nat n_slices) as [|k] eqn:Ek; [lia|].
    rewrite (time_slices_partition_from cat_articles n_slices slice_size Hss Hfit k 0)
      by lia.
    reflexivity.
  - intros s s' a b Hs Hs' Ha Hb.
    rewrite time_slice_inner in Ha by nia.
    set (p := Z.to_nat ((s + 1) * slice_size)).
    assert (Hbefore : a ∈ take p cat_articles).
    { replace p with (Z.to_nat (s * slice_size) + Z.to_nat slice_size)%nat
        by (unfold p; nia).
      rewrite <- take_take_drop. apply elem_of_app. now right. }
    assert (Hafter : b ∈ drop p cat_articles).
    { assert (Hb' : b ∈ drop (Z.to_nat (s' * slice_size)) cat_articles).
      { destruct (Z.lt_ge_cases s' (n_slices - 1)) as [Hinner|Hlast].
        - rewrite time_slice_inner in Hb by nia. now apply elem_of_take_list in Hb.
        - rewrite time_slice_last in Hb by nia. exact Hb. }
      replace (Z.to_nat (s' * slice_size))
        with (p + Z.to_nat ((s' - s - 1) * slice_size))%nat in Hb' by (unfold p; nia).
      rewrite <- drop_drop in Hb'. now apply elem_of_drop_list in Hb'. }
    rewrite <- (take_drop p cat_articles) in Hsorted.
    apply (StronglySorted_app_1_elem_of _ _ _ _ _ Hsorted Hbefore Hafter).
Qed.

Lemma time_slices_are_chronological_witness :
  StronglySorted by_date (sort_by_date seven_articles)
  /\ concat (time_slice (sort_by_date seven_articles) (Z.min 6 4)
                        (len (sort_by_date seven_articles) / Z.min 6 4)
               <$> py_range (Z.min 6 4))
     = sort_by_date seven_articles
  /\ (forall (s s' : Z) (a b : Article),
        0 <= s < s' -> s' < Z.min 6 4 ->
        a ∈ time_slice (sort_by_date seven_articles) (Z.min 6 4)
              (len (sort_by_date seven_articles) / Z.min 6 4) s ->
        b ∈ time_slice (sort_by_date seven_articles) (Z.min 6 4)
              (len (sort_by_date seven_articles) / Z.min 6 4) s' ->
        by_date a b).
Proof.
  apply (time_slices_are_chronological seven_articles (sort_by_date seven_articles) 6).
  - vm_compute. left.
  - lia.
Defined.

(** X7. Category coverage: the proportional allocation picks at least one
    document of every primary category of the corpus, and when it does not
    overshoot the target count, the returned sample is a permutation of that
    selection, so every primary category of the corpus is in the sample. *)
Theorem stratified_sample_covers_categories :
  forall (G : Type) (R : RandomSource G),
    RandomLaws G ->
    forall (articles : list Article) (settings : Settings) (seed : Z),
      exists sel g sample,
        proportional_allocation articles settings (rng_seed seed) = Returned (sel, g)
        /\ stratified_sample articles settings seed = Returned sample
        /\ (forall a, a ∈ articles -> represented sel a)
        /\ (len sel <= target_count settings (len articles) ->
            forall a, a ∈ articles -> represented sample a).
Proof.
  intros G R laws articles settings seed.
  destruct (stratified_sample_of_allocation laws articles settings seed)
    as (sel & g & sample & Halloc & Hrun & _ & Hperm).
  destruct (proportional_allocation_picks laws articles settings (rng_seed seed))
    as (sel' & g' & Halloc' & _ & Hcover & _).
  rewrite Halloc in Halloc'. injection Halloc' as <- <-.
  exists sel, g, sample. split; [exact Halloc|]. split; [exact Hrun|].
  split; [exact Hcover|]. intros Hfit a Ha.
  destruct (Hcover a Ha) as (b & Hb & Hcat).
  exists b. split; [|exact Hcat]. now rewrite (Hperm Hfit).
Qed.

Lemma stratified_sample_covers_categories_witness :
  exists sel g sample,
    proportional_allocation (G:=unit) fifty_articles default_settings (rng_seed 42)
    = Returned (sel, g)
    /\ stratified_sample fifty_articles default_settings 42 = Returned sample
    /\ (forall a, a ∈ fifty_articles -> represented sel a)
    /\ (len sel <= target_count default_settings (len fifty_articles) ->
        forall a, a ∈ fifty_articles -> represented sample a).
Proof.
  exact (stratified_sample_covers_categories unit PrefixRandom prefix_random_laws
           fifty_articles default_settings 42).
Defined.

End SamplerMoreFacts.

Module ClientUsageFacts.
Import Client Batch ClientUsage ClientFacts.

Lemma track_usage_spec (u : raw_usage) (t : usage) :
  counters (_track_usage u t).2 = add_while_present (counters t) (reported u)
  /\ (_track_usage u t).1
     = if forallb (fun r => bool_decide (is_Some r)) (reported u)
       then Returned tt else Raised TypeError.
Proof.
  destruct u as [[i|] [o|] [cr|] [cc|]]; split; reflexivity.
Qed.

Section AnyService.
Context {S : Type}.
Variable messages_create : S -> create_kwargs -> outcome raw_response * S.
Variable kw : create_kwargs.

(** A run of the loop over the attempts [i, i + k): the answers it meets
    are a run [errs] of retried errors, each followed by its sleep, and
    then the attempts are used up, or an answer ends the loop. *)
Lemma complete_loop_trace (k : nat) :
  forall (i : nat) (c : client (S:=S)),
    let run := ClientUsage.complete_loop messages_create (Z.of_nat <$> seq i k) kw c in
    exists errs : list exn,
      Forall (fun e => retryable e = true) errs
      /\ (length errs <= k)%nat
      /\ answers messages_create kw (service c) (length errs) = Raised <$> errs
      /\ slept run.2 = slept c ++ delays_from (Z.of_nat i) errs
      /\ if (length errs =? k)%nat
         then run.1 = Raised (RuntimeError "Failed after 10 retries")
              /\ service run.2 = service_after messages_create kw (service c) k
              /\ totals run.2 = totals c
         else service run.2
              = service_after messages_create kw (service c) (Datatypes.S (length errs))
              /\ match (messages_create
                          (service_after messages_create kw (service c) (length errs))
                          kw).1 with
                 | Returned resp =>
                     counters (totals run.2)
                     = add_while_present (counters (totals c)) (reported (raw_usage_of resp))
                     /\ run.1
                        = if forallb (fun r => bool_decide (is_Some r))
                                     (reported (raw_usage_of resp))
                          then Returned (first_text (raw_content resp))
                          else Raised TypeError
                 | Raised e =>
                     retryable e = false /\ run.1 = Raised e /\ totals run.2 = totals c
                 end.
Proof.
  induction k as [|k IH]; intros i c run.
  - exists []. cbn. rewrite app_nil_r. repeat split; auto.
  - subst run. cbn [seq fmap list_fmap ClientUsage.complete_loop].
    destruct (messages_create (service c) kw) as [o s'] eqn:Ecall.
    assert (Hstop : forall (r : outcome string) (c' : client (S:=S)),
      slept c' = slept c -> service c' = s' ->
      match o with
      | Returned resp =>
          counters (totals c')
          = add_while_present (counters (totals c)) (reported (raw_usage_of resp))
          /\ r = if forallb (fun r => bool_decide (is_Some r))
                            (reported (raw_usage_of resp))
                 then Returned (first_text (raw_content resp))
                 else Raised TypeError
      | Raised e => retryable e = false /\ r = Raised e /\ totals c' = totals c
      end ->
      exists errs : list exn,
        Forall (fun e => retryable e = true) errs
        /\ (length errs <= Datatypes.S k)%nat
        /\ answers messages_create kw (service c) (length errs) = Raised <$> errs
        /\ slept (r, c').2 = slept c ++ delays_from (Z.of_nat i) errs
        /\ if (length errs =? Datatypes.S k)%nat
           then (r, c').1 = Raised (RuntimeError "Failed after 10 retries")
                /\ service (r, c').2
                   = service_after messages_create kw (service c) (Datatypes.S k)
                /\ totals (r, c').2 = totals c
           else service (r, c').2
                = service_after messages_create kw (service c) (Datatypes.S (length errs))
                /\ match (messages_create
                            (service_after messages_create kw (service c) (length errs))
                            kw).1 with
                   | Returned resp =>
                       counters (totals (r, c').2)
                       = add_while_present (counters (totals c))
                                           (reported (raw_usage_of resp))
                       /\ (r, c').1
                          = if forallb (fun r => bool_decide (is_Some r))
                                       (reported (raw_usage_of resp))
                            then Returned (first_text (raw_content resp))
                            else Raised TypeError
                   | Raised e =>
                       retryable e = false /\ (r, c').1 = Raised e
                       /\ totals (r, c').2 = totals c
                   end).
    { intros r c' Hslept Hsvc Ho. exists []. cbn [length Nat.eqb answers delays_from
        fmap list_fmap service_after fst snd].
      rewrite Ecall, app_nil_r. cbn [fst snd].
      split; [constructor|]. split; [lia|]. split; [reflexivity|].
      split; [exact Hslept|]. split; [exact Hsvc|exact Ho]. }
    assert (Hnext : forall e : exn,
      o = Raised e -> retryable e = true ->
      let run := ClientUsage.complete_loop messages_create
                   (Z.of_nat <$> seq (Datatypes.S i) k) kw
                   (sleep (retry_delay (Z.of_nat i) e) (with_service s' c)) in
      exists errs : list exn,
        Forall (fun e => retryable e = true) errs
        /\ (length errs <= Datatypes.S k)%nat
        /\ answers messages_create kw (service c) (length errs) = Raised <$> errs
        /\ slept run.2 = slept c ++ delays_from (Z.of_nat i) errs
        /\ if (length errs =? Datatypes.S k)%nat
           then run.1 = Raised (RuntimeError "Failed after 10 retries")
                /\ service run.2
                   = service_after messages_create kw (service c) (Datatypes.S k)
                /\ totals run.2 = totals c
           else service run.2
                = service_after messages_create kw (service c) (Datatypes.S (length errs))
                /\ match (messages_create
                            (service_after messages_create kw (service c) (length errs))
                            kw).1 with
                   | Returned resp =>
                       counters (totals run.2)
                       = add_while_present (counters (totals c))
                                           (reported (raw_usage_of resp))
                       /\ run.1
                          = if forallb (fun r => bool_decide (is_Some r))
                                       (reported (raw_usage_of resp))
                            then Returned (first_text (raw_content resp))
                            else Raised TypeError
                   | Raised e =>
                       retryable e = false /\ run.1 = Raised e /\ totals run.2 = totals c
                   end).
    { intros e -> He run.
      destruct (IH (Datatypes.S i) (sleep (retry_delay (Z.of_nat i) e) (with_service s' c)))
        as (errs & Herrs & Hlen & Hanswers & Hslept & Hend).
      fold run in Hslept, Hend. cbn [sleep with_service service slept totals] in *.
      exists (e :: errs). cbn [length Nat.eqb answers delays_from fmap list_fmap
        service_after]. rewrite Ecall. cbn [fst snd].
      split; [now constructor|]. split; [lia|]. split; [now rewrite Hanswers|].
      split.
      - rewrite Hslept, <- app_assoc. cbn [app].
        replace (Z.of_nat (Datatypes.S i)) with (Z.of_nat i + 1) by lia. reflexivity.
      - exact Hend. }
    destruct o as [resp|e].
    + destruct (track_usage_spec (raw_usage_of resp) (totals (with_service s' c)))
        as [Hcounters Htracked].
      destruct (_track_usage (raw_usage_of resp) (totals (with_service s' c)))
        as [tracked t] eqn:Etrack.
      cbn [fst snd] in Hcounters, Htracked. cbn [with_service totals] in Hcounters.
      assert (Htext : extract_text_blocks (raw_content resp) = first_text (raw_content resp))
        by apply BatchFacts.extract_text_first.
      destruct tracked as [[]|e]; apply Hstop; try reflexivity;
        (split; [exact Hcounters|]);
        destruct (forallb _ _); try discriminate; congruence.
    + destruct e as [msg| | | |ra|code|name];
        try (apply Hstop; repeat split; reflexivity).
      * destruct ra as [ra|]; apply (Hnext (RateLimitError _) eq_refl eq_refl).
      * destruct ((code >=? 500) || (code =? 529)) eqn:Ecode.
        -- apply (Hnext (APIStatusError code) eq_refl). exact Ecode.
        -- apply Hstop; repeat split; try reflexivity. exact Ecode.
Qed.

End AnyService.

(** X8. One call of [LLMClient.complete], whatever the service answers:
    the answers it meets are a run of at most [MAX_RETRIES] retried errors
    (rate limits and server errors), the sleeps it makes are exactly their
    delays, and the service is called once more than it sleeps unless the
    attempts are used up.  After [MAX_RETRIES] such errors it raises the
    [RuntimeError], and after an error that is not retried it raises that
    error; in both cases the four counters are as before.  After a response
    every counter has taken its number of the response's usage, in the
    order input, output, cache read, cache creation, up to the first number
    that is [None]: with all four numbers the call returns the first text
    block of that response, and with one of them missing it raises
    [TypeError] with the counters before it already increased. *)
Theorem complete_accounts_for_usage :
  forall (S : Type) (messages_create : S -> create_kwargs -> outcome raw_response * S)
         (settings : Settings) (system : string) (messages : list message)
         (model : option string) (max_tokens : option Z) (temperature : option Q)
         (c : client (S:=S)),
    let kwargs := complete_kwargs settings system messages model max_tokens temperature in
    let run := ClientUsage.complete messages_create settings system messages model
                 max_tokens temperature c in
    exists errs : list exn,
      Forall (fun e => retryable e = true) errs
      /\ len errs <= MAX_RETRIES
      /\ answers messages_create kwargs (service c) (length errs) = Raised <$> errs
      /\ slept run.2 = slept c ++ delays_from 0 errs
      /\ if len errs =? MAX_RETRIES
         then run.1 = Raised (RuntimeError "Failed after 10 retries")
              /\ service run.2 = service_after messages_create kwargs (service c) 10
              /\ totals run.2 = totals c
         else service run.2
              = service_after messages_create kwargs (service c) (Datatypes.S (length errs))
              /\ match (messages_create
                          (service_after messages_create kwargs (service c) (length errs))
                          kwargs).1 with
                 | Returned resp =>
                     counters (totals run.2)
                     = add_while_present (counters (totals c)) (reported (raw_usage_of resp))
                     /\ run.1
                        = if forallb (fun r => bool_decide (is_Some r))
                                     (reported (raw_usage_of resp))
                          then Returned (first_text (raw_content resp))
                          else Raised TypeError
                 | Raised e =>
                     retryable e = false /\ run.1 = Raised e /\ totals run.2 = totals c
                 end.
Proof.
  intros S create settings system messages model max_tokens temperature c kwargs run.
  destruct (complete_loop_trace create kwargs 10 0 c)
    as (errs & Herrs & Hlen & Hanswers & Hslept & Hend).
  exists errs. split; [exact Herrs|]. split; [unfold len, MAX_RETRIES; lia|].
  split; [exact Hanswers|]. split; [exact Hslept|].
  unfold len, MAX_RETRIES.
  destruct (Nat.eqb_spec (length errs) 10) as [Heq|Hne].
  - replace (Z.of_nat (length errs) =? 10) with true by (symmetry; apply Z.eqb_eq; lia).
    exact Hend.
  - replace (Z.of_nat (length errs) =? 10) with false by (symmetry; apply Z.eqb_neq; lia).
    exact Hend.
Qed.

(** With all four numbers in every usage, the call is the one of the retry
    policy: the same result, sleeps, service and counters. *)
Lemma complete_with_full_usage {S : Type}
    (messages_create : S -> create_kwargs -> outcome response * S)
    (kw : create_kwargs) (attempts : list Z) :
  forall c : client (S:=S),
    ClientUsage.complete_loop
      (fun s kwargs => (outcome_bind _ _ (fun r => Returned (raw_of r))
                          (messages_create s kwargs).1,
                        (messages_create s kwargs).2))
      attempts kw c
    = Client.complete_loop messages_create attempts kw c.
Proof.
  induction attempts as [|attempt rest IH]; intros c; [reflexivity|].
  cbn [ClientUsage.complete_loop Client.complete_loop].
  destruct (messages_create (service c) kw) as [[resp|e] s']; cbn [fst snd outcome_bind].
  - reflexivity.
  - destruct e as [msg| | | |ra|code|name]; try reflexivity.
    + destruct ra; apply IH.
    + destruct ((code >=? 500) || (code =? 529)); [apply IH|reflexivity].
Qed.

End ClientUsageFacts.

Module BatchMoreFacts.
Import Client Batch BatchPolling.

(** X9. The sequential fallback sends, for each request, the parameters
    that the batch submission files for it: the call [fallback_sequential]
    makes for a request is the retry loop of [complete] over the [params] of
    [submit_batch], provided the model name both resolve
    ([model or settings.analysis_model]) is not empty; [complete] would
    replace an empty name by [settings.model]. *)
Theorem fallback_sends_batch_params :
  forall (S : Type) (messages_create : S -> create_kwargs -> outcome response * S)
         (settings : Settings) (model : option string) (max_tokens : option Z)
         (temperature : option Q) (req : request) (llm : client (S:=S)),
    str_or model (analysis_model settings) <> "" ->
    request_call messages_create settings
      (str_or model (analysis_model settings))
      (int_or max_tokens (Models.max_tokens settings))
      (default (1 # 2)%Q temperature) req llm
    = complete_loop messages_create (Sampler.py_range MAX_RETRIES)
        (submit_params settings model max_tokens temperature req) llm.
Proof.
  intros S create settings model max_tokens temperature req llm Hmodel.
  unfold request_call, complete. cbv zeta. f_equal.
  unfold complete_kwargs, submit_params. cbv zeta. f_equal.
  - cbn [str_or]. destruct (String.eqb_spec (str_or model (analysis_model settings)) "");
      [contradiction|reflexivity].
  - cbn [int_or].
    destruct (int_or max_tokens (Models.max_tokens settings) =? 0) eqn:Ezero; [|reflexivity].
    apply Z.eqb_eq in Ezero. rewrite Ezero.
    unfold int_or in Ezero |- *. destruct max_tokens as [n|]; [|now symmetry].
    destruct (n =? 0) eqn:En; [now symmetry|]. apply Z.eqb_neq in En. contradiction.
  - destruct (system req) as [s|]; reflexivity.
Qed.

Lemma fallback_sends_batch_params_witness :
  request_call echo_service default_settings
    (str_or None (analysis_model default_settings))
    (int_or None (Models.max_tokens default_settings))
    (default (1 # 2)%Q None) {| custom_id := "chunk_0"; system := Some "analyse"; messages := [] |}
    (new_client tt)
  = complete_loop echo_service (Sampler.py_range MAX_RETRIES)
      (submit_params default_settings None None None
         {| custom_id := "chunk_0"; system := Some "analyse"; messages := [] |})
      (new_client tt).
Proof.
  apply (fallback_sends_batch_params unit echo_service default_settings None None None).
  vm_compute. discriminate.
Defined.

Section Answering.
Context {S : Type}.
Variable messages_create : S -> create_kwargs -> outcome response * S.
Hypothesis answers : forall kw s, exists resp s', messages_create s kw = (Returned resp, s').

Lemma complete_answered (settings : Settings) (system : string) (messages : list message)
    (model : option string) (max_tokens : option Z) (temperature : option Q)
    (llm : client (S:=S)) :
  exists text llm',
    complete messages_create settings system messages model max_tokens temperature llm
    = (Returned text, llm')
    /\ slept llm' = slept llm.
Proof.
  unfold complete.
  change (Sampler.py_range MAX_RETRIES) with (0 :: (Z.of_nat <$> seq 1 9)).
  cbn [complete_loop].
  match goal with |- context [messages_create ?s ?kw] =>
    destruct (answers kw s) as (resp & s' & ->) end.
  eexists _, _. split; reflexivity.
Qed.

(** The pauses of the loop from index [i] on: one second after every
    request but the one of index [n - 1]. *)
Lemma fallback_loop_pauses (settings : Settings) (model : string) (max_tokens : Z)
    (temperature : Q) (n : Z) (requests : list request) :
  forall (i : Z) (results : gmap string string) (llm : client (S:=S)),
    0 <= i -> i + len requests = n ->
    exists r llm',
      fallback_loop messages_create settings model max_tokens temperature
        n i requests results llm = (Returned r, llm')
      /\ slept llm' = slept llm ++ replicate (length requests - 1) 1%Q.
Proof.
  induction requests as [|req rest IH]; intros i results llm Hi Hn.
  - exists results, llm. cbn. now rewrite app_nil_r.
  - cbn [fallback_loop]. unfold request_call.
    destruct (complete_answered settings (default "" (system req)) (messages req)
                (Some model) (Some max_tokens) (Some temperature) llm)
      as (text & llm1 & -> & Hslept).
    unfold len in Hn. cbn [length] in Hn.
    destruct rest as [|req' rest'].
    + replace (i <? n - 1) with false by (symmetry; apply Z.ltb_ge; cbn in Hn; lia).
      cbn [fallback_loop length replicate]. eexists _, _. split; [reflexivity|].
      now rewrite app_nil_r.
    + replace (i <? n - 1) with true by (symmetry; apply Z.ltb_lt; cbn in Hn; lia).
      destruct (IH (i + 1) (<[custom_id req := text]> results) (sleep 1%Q llm1))
        as (r & llm' & Hrun & Hpauses); [lia|unfold len; cbn [length] in *; lia|].
      exists r, llm'. split; [exact Hrun|].
      rewrite Hpauses. cbn [sleep slept]. rewrite Hslept, <- app_assoc.
      replace (length (req :: req' :: rest') - 1)%nat
        with (Datatypes.S (length (req' :: rest') - 1)) by (cbn [length]; lia).
      reflexivity.
Qed.

End Answering.

Section Polling.
Context {B : Type}.
Variable retrieve : B -> string -> outcome string * B.
Variable results : B -> string -> list batch_event.

Lemma wait_for_batch_pending (batch_id : string) (k : nat) :
  forall (fuel : nat) (p : poller),
    (forall i, (i < k)%nat -> pending retrieve batch_id (batches p) i) ->
    (k <= fuel)%nat ->
    wait_for_batch retrieve results fuel batch_id p
    = wait_for_batch retrieve results (fuel - k) batch_id
        {| batches := poll_state retrieve batch_id (batches p) k;
           waited := waited p ++ replicate k POLL_INTERVAL |}.
Proof.
  induction k as [|k IH]; intros fuel p Hpending Hfuel.
  - cbn [poll_state replicate]. rewrite app_nil_r, Nat.sub_0_r. now destruct p.
  - destruct fuel as [|fuel]; [lia|].
    destruct (Hpending 0%nat ltac:(lia)) as (status & Hanswer & Hstatus).
    unfold poll_answer in Hanswer. cbn [poll_state] in Hanswer.
    cbn [wait_for_batch].
    destruct (retrieve (batches p) batch_id) as [batch b] eqn:Epoll.
    cbn [fst] in Hanswer. subst batch. rewrite Hstatus.
    rewrite IH; cbn [batches waited].
    + cbn [poll_state replicate]. rewrite Epoll. cbn [snd].
      rewrite <- app_assoc. reflexivity.
    + intros i Hi. specialize (Hpending (Datatypes.S i) ltac:(lia)).
      unfold pending, poll_answer in Hpending |- *. cbn [poll_state] in Hpending.
      now rewrite Epoll in Hpending.
    + lia.
Qed.

End Polling.

(** X18. Against a service that answers every request, the sequential
    fallback returns an entry for every request id after pausing one second
    between consecutive requests and not after the last one: its sleeps are
    [len(requests) - 1] pauses of one second. *)
Theorem fallback_sequential_pauses_between :
  forall (S : Type) (messages_create : S -> create_kwargs -> outcome response * S)
         (settings : Settings) (service0 : S) (requests : list request)
         (model : option string) (max_tokens : option Z) (temperature : option Q),
    (forall kw s, exists resp s', messages_create s kw = (Returned resp, s')) ->
    exists results llm,
      fallback_sequential messages_create settings service0 requests
        model max_tokens temperature = (Returned results, llm)
      /\ dom results = request_ids requests
      /\ slept llm = replicate (length requests - 1) 1%Q.
Proof.
  intros S create settings service0 requests model max_tokens temperature Hanswers.
  unfold fallback_sequential. cbv zeta.
  destruct (fallback_loop_pauses create Hanswers settings
              (str_or model (analysis_model settings))
              (int_or max_tokens (Models.max_tokens settings))
              (default (1 # 2)%Q temperature) (len requests) requests 0 ∅
              (new_client service0)) as (r & llm & Hrun & Hpauses); [lia|lia|].
  exists r, llm. split; [exact Hrun|]. split; [|exact Hpauses].
  pose proof (BatchFacts.fallback_loop_spec create settings
                (str_or model (analysis_model settings))
                (int_or max_tokens (Models.max_tokens settings))
                (default (1 # 2)%Q temperature) (len requests) requests 0 ∅
                (new_client service0)) as Hspec.
  rewrite Hrun in Hspec. cbn [fst] in Hspec. rewrite Hspec. set_solver.
Qed.

Lemma fallback_sequential_pauses_between_witness :
  exists results llm,
    fallback_sequential echo_service default_settings tt two_requests None None None
    = (Returned results, llm)
    /\ dom results = request_ids two_requests
    /\ slept llm = replicate (length two_requests - 1) 1%Q.
Proof.
  apply (fallback_sequential_pauses_between unit echo_service default_settings tt
           two_requests None None None).
  intros kw s. eexists _, _. reflexivity.
Defined.

Lemma never_ended_pending (batch_id : string) (i : nat) :
  forall n : nat, pending never_ended batch_id n i.
Proof.
  induction i as [|i IH]; intros n.
  - exists "in_progress". split; reflexivity.
  - apply (IH (Datatypes.S n)).
Qed.

(** X10. [wait_for_batch] returns at the first poll that finds the batch
    ended: after [k] polls that find it in progress and one that finds it
    ended, it has slept [k] times, [POLL_INTERVAL] = 30 seconds each, and
    returns the results collected from the batch's outcomes. *)
Theorem wait_for_batch_returns_when_ended :
  forall (B : Type) (retrieve : B -> string -> outcome string * B)
         (results : B -> string -> list batch_event)
         (batch_id : string) (p : poller (B:=B)) (k fuel : nat),
    (forall i, (i < k)%nat -> pending retrieve batch_id (batches p) i) ->
    poll_answer retrieve batch_id (batches p) k = Returned "ended" ->
    (k < fuel)%nat ->
    wait_for_batch retrieve results fuel batch_id p
    = Some (Returned (_collect_results
                        (results (poll_state retrieve batch_id (batches p) (Datatypes.S k))
                                 batch_id)),
            {| batches := poll_state retrieve batch_id (batches p) (Datatypes.S k);
               waited := waited p ++ replicate k POLL_INTERVAL |}).
Proof.
  intros B retrieve results batch_id p k fuel Hpending Hended Hfuel.
  rewrite (wait_for_batch_pending retrieve results batch_id k fuel p Hpending) by lia.
  destruct (fuel - k)%nat as [|rest] eqn:Erest; [lia|].
  cbn [wait_for_batch batches waited].
  unfold poll_answer in Hended.
  assert (Hnext : poll_state retrieve batch_id (batches p) (Datatypes.S k)
                  = (retrieve (poll_state retrieve batch_id (batches p) k) batch_id).2).
  { clear. generalize (batches p). induction k as [|k IH]; intros b; [reflexivity|].
    cbn [poll_state]. apply IH. }
  rewrite Hnext.
  destruct (retrieve (poll_state retrieve batch_id (batches p) k) batch_id) as [batch b].
  cbn [fst snd] in *. subst batch. reflexivity.
Qed.

Lemma wait_for_batch_returns_when_ended_witness :
  wait_for_batch third_poll one_event 5 "batch_1" {| batches := 0%nat; waited := [] |}
  = Some (Returned (_collect_results (one_event 3%nat "batch_1")),
          {| batches := 3%nat; waited := [] ++ replicate 2 POLL_INTERVAL |}).
Proof.
  apply (wait_for_batch_returns_when_ended nat third_poll one_event "batch_1"
           {| batches := 0%nat; waited := [] |} 2 5).
  - intros i Hi. exists "in_progress".
    destruct i as [|[|i]]; [split; reflexivity|split; reflexivity|lia].
  - reflexivity.
  - lia.
Defined.

(** X11. [wait_for_batch] has no timeout: while every poll finds the batch
    in progress, the loop goes on; no number of iterations makes it return
    or raise. *)
Theorem wait_for_batch_never_gives_up :
  forall (B : Type) (retrieve : B -> string -> outcome string * B)
         (results : B -> string -> list batch_event)
         (batch_id : string) (p : poller (B:=B)),
    (forall i, pending retrieve batch_id (batches p) i) ->
    forall fuel : nat, wait_for_batch retrieve results fuel batch_id p = None.
Proof.
  intros B retrieve results batch_id p Hpending fuel.
  rewrite (wait_for_batch_pending retrieve results batch_id fuel fuel p) by auto.
  now rewrite Nat.sub_diag.
Qed.

Lemma wait_for_batch_never_gives_up_witness :
  wait_for_batch never_ended one_event 1000 "batch_1" {| batches := 0%nat; waited := [] |}
  = None.
Proof.
  apply (wait_for_batch_never_gives_up nat never_ended one_event "batch_1"
           {| batches := 0%nat; waited := [] |}).
  intros i. apply never_ended_pending.
Defined.

End BatchMoreFacts.

Module AnalysisFacts.
Import Client Batch Chunker Analysis.

Lemma chunk_custom_id_inj (i j : Z) : chunk_custom_id i = chunk_custom_id j -> i = j.
Proof.
  unfold chunk_custom_id. intros Heq.
  cbv beta iota delta [String.append] in Heq. injection Heq as Heq.
  now apply (inj pretty) in Heq.
Qed.

Section AnalyzeChunks.
Context {S : Type}.
Variable messages_create : S -> create_kwargs -> outcome response * S.
Variable CHUNK_ANALYSIS_SYSTEM : string.
Variable CHUNK_ANALYSIS_USER : string -> string.
Variable strftime : Z -> string.
Variable count_tokens : string -> Z.
Variable submit_and_wait : list request -> outcome (gmap string string).

#[local] Abbreviation build_requests :=
  (Analysis.build_requests CHUNK_ANALYSIS_SYSTEM CHUNK_ANALYSIS_USER strftime).
#[local] Abbreviation save_analyses := (Analysis.save_analyses count_tokens).

Lemma build_requests_ids (chunks : list (list Article)) :
  forall i : Z,
    custom_id <$> build_requests i chunks
    = (fun k => chunk_custom_id (i + Z.of_nat k)) <$> seq 0 (length chunks).
Proof.
  induction chunks as [|chunk rest IH]; intros i; [reflexivity|].
  cbn [Analysis.build_requests fmap list_fmap length seq chunk_request custom_id].
  rewrite Z.add_0_r. f_equal.
  change (list_fmap request string custom_id (build_requests (i + 1) rest))
    with (custom_id <$> build_requests (i + 1) rest).
  rewrite IH, <- fmap_S_seq, <- list_fmap_compose.
  apply list_fmap_ext. intros _ k _. cbn. f_equal. lia.
Qed.

Lemma build_requests_nodup (chunks : list (list Article)) (i : Z) :
  NoDup (custom_id <$> build_requests i chunks).
Proof.
  rewrite build_requests_ids. apply NoDup_fmap_2; [|apply NoDup_seq].
  intros k1 k2 Heq. apply chunk_custom_id_inj in Heq. lia.
Qed.

Lemma save_analyses_ids (results : gmap string string) (chunks : list (list Article)) :
  forall i : Z,
    chunk_id <$> save_analyses results i chunks
    = (fun k => i + Z.of_nat k) <$> seq 0 (length chunks).
Proof.
  induction chunks as [|chunk rest IH]; intros i; [reflexivity|].
  cbn [Analysis.save_analyses fmap list_fmap length seq chunk_analysis chunk_id].
  rewrite Z.add_0_r. f_equal.
  change (list_fmap ChunkAnalysis Z chunk_id (save_analyses results (i + 1) rest))
    with (chunk_id <$> save_analyses results (i + 1) rest).
  rewrite IH, <- fmap_S_seq, <- list_fmap_compose.
  apply list_fmap_ext. intros _ k _. cbn. lia.
Qed.

Lemma save_analyses_articles (results : gmap string string) (chunks : list (list Article)) :
  forall i : Z, article_ids <$> save_analyses results i chunks = truthy_ids <$> chunks.
Proof.
  induction chunks as [|chunk rest IH]; intros i; [reflexivity|].
  cbn [Analysis.save_analyses fmap list_fmap chunk_analysis article_ids]. f_equal. apply IH.
Qed.

Lemma save_analyses_texts (results : gmap string string) (chunks : list (list Article)) :
  forall i : Z,
    Forall2 (fun req a => analysis_text a = default "" (results !! custom_id req))
            (build_requests i chunks) (save_analyses results i chunks).
Proof.
  induction chunks as [|chunk rest IH]; intros i; [constructor|].
  cbn [Analysis.build_requests Analysis.save_analyses]. constructor; [reflexivity|apply IH].
Qed.

Lemma sequential_results_texts (settings : Settings) (service0 : S)
    (requests : list request) (results : gmap string string)
    (analyses : list ChunkAnalysis) :
  (fallback_sequential messages_create settings service0 requests None None None).1
  = Returned results ->
  Forall2 (fun req a => analysis_text a = default "" (results !! custom_id req))
          requests analyses ->
  Forall2 (fun req a => results !! custom_id req = Some (analysis_text a))
          requests analyses.
Proof.
  intros Hrun Htexts. unfold fallback_sequential in Hrun. cbv zeta in Hrun.
  pose proof (BatchFacts.fallback_loop_spec messages_create settings
                (str_or None (analysis_model settings))
                (int_or None (Models.max_tokens settings))
                (default (1 # 2)%Q None) (len requests) requests 0 ∅
                (new_client service0)) as Hspec.
  rewrite Hrun in Hspec.
  assert (Hdom : forall req, req ∈ requests -> is_Some (results !! custom_id req)).
  { intros req Hreq. apply elem_of_dom. rewrite Hspec. unfold request_ids.
    apply elem_of_union_r, elem_of_list_to_set, list_elem_of_fmap. eauto. }
  clear Hrun Hspec. induction Htexts as [|req a requests analyses Htext _ IH]; [constructor|].
  constructor.
  - destruct (Hdom req ltac:(left)) as [text Hlookup].
    rewrite Htext, Hlookup. reflexivity.
  - apply IH. intros req' Hreq'. apply Hdom. now right.
Qed.

End AnalyzeChunks.

(** X12. [_analyze_chunks] gives the requests of the chunks pairwise
    distinct custom ids and never raises what the batch path raised: it
    raises only what the sequential path raises when that path is taken
    ([use_batch] off, or the batch path failed).  When it returns, there is
    one analysis per chunk, numbered 0, 1, 2, ... in the order of the chunks
    and carrying the non-zero ids of the chunk's documents; on the batch
    path the text of an analysis is the result filed under its request's
    id, or the empty string if the results lack that id, and on the
    sequential path it is always an entry of the results. *)
Theorem analyze_chunks_one_analysis_per_chunk :
  forall (S : Type) (messages_create : S -> create_kwargs -> outcome response * S)
         (CHUNK_ANALYSIS_SYSTEM : string) (CHUNK_ANALYSIS_USER : string -> string)
         (strftime : Z -> string) (count_tokens : string -> Z)
         (submit_and_wait : list request -> outcome (gmap string string))
         (settings : Settings) (service0 : S) (sample : list Article) (use_batch : bool),
    let chunks := chunk_articles sample settings count_tokens in
    let requests :=
      Analysis.build_requests CHUNK_ANALYSIS_SYSTEM CHUNK_ANALYSIS_USER strftime 0 chunks in
    let sequential :=
      (fallback_sequential messages_create settings service0 requests None None None).1 in
    NoDup (custom_id <$> requests)
    /\ match _analyze_chunks messages_create CHUNK_ANALYSIS_SYSTEM CHUNK_ANALYSIS_USER
                strftime count_tokens submit_and_wait settings service0 sample use_batch with
       | Returned analyses =>
           chunk_id <$> analyses = Sampler.py_range (len chunks)
           /\ article_ids <$> analyses = truthy_ids <$> chunks
           /\ ((use_batch = true
                /\ exists results,
                     submit_and_wait requests = Returned results
                     /\ Forall2 (fun req a =>
                                   analysis_text a = default "" (results !! custom_id req))
                                requests analyses)
               \/ ((use_batch = false \/ raises (submit_and_wait requests) = true)
                   /\ exists results,
                        sequential = Returned results
                        /\ Forall2 (fun req a =>
                                      results !! custom_id req = Some (analysis_text a))
                                   requests analyses))
       | Raised e =>
           sequential = Raised e
           /\ (use_batch = false \/ raises (submit_and_wait requests) = true)
       end.
Proof.
  intros S create SYSTEM USER strftime count_tokens submit_and_wait settings service0
         sample use_batch chunks requests sequential.
  split; [apply build_requests_nodup|].
  unfold _analyze_chunks, execute. cbv zeta. fold chunks. fold requests. fold sequential.
  assert (Hshape : forall results,
    chunk_id <$> Analysis.save_analyses count_tokens results 0 chunks
    = Sampler.py_range (len chunks)
    /\ article_ids <$> Analysis.save_analyses count_tokens results 0 chunks
       = truthy_ids <$> chunks).
  { intros results. split; [|apply save_analyses_articles].
    rewrite save_analyses_ids. unfold Sampler.py_range, len. rewrite Nat2Z.id.
    apply list_fmap_ext. intros _ k _. lia. }
  assert (Hseq : forall results,
    sequential = Returned results ->
    Forall2 (fun req a => results !! custom_id req = Some (analysis_text a))
            requests (Analysis.save_analyses count_tokens results 0 chunks)).
  { intros results Hrun.
    apply (sequential_results_texts create settings service0 requests results _ Hrun).
    apply save_analyses_texts. }
  destruct use_batch.
  - destruct (submit_and_wait requests) as [results|e] eqn:Ebatch.
    + cbn [mbind outcome_bind mret outcome_ret].
      destruct (Hshape results) as [Hids Harts].
      split; [exact Hids|]. split; [exact Harts|]. left. split; [reflexivity|].
      exists results. split; [reflexivity|apply save_analyses_texts].
    + destruct sequential as [results|e'] eqn:Eseq; cbn [mbind outcome_bind mret outcome_ret].
      * destruct (Hshape results) as [Hids Harts].
        split; [exact Hids|]. split; [exact Harts|]. right. split; [now right|].
        exists results. split; [reflexivity|now apply Hseq].
      * split; [reflexivity|now right].
  - destruct sequential as [results|e'] eqn:Eseq; cbn [mbind outcome_bind mret outcome_ret].
    + destruct (Hshape results) as [Hids Harts].
      split; [exact Hids|]. split; [exact Harts|]. right. split; [now left|].
      exists results. split; [reflexivity|now apply Hseq].
    + split; [reflexivity|now left].
Qed.

End AnalysisFacts.

Module CorpusStoreFacts.
Import CorpusStore.

Lemma count_categories_labels (articles : list Article) :
  count_categories articles = foldl (fun dist cat => dict_incr cat dist) [] (labels articles).
Proof.
  unfold count_categories, labels. generalize (@nil (string * Z)) as dist.
  induction articles as [|a l IH]; intros dist; [reflexivity|].
  cbn [foldl fmap list_fmap concat]. rewrite foldl_app. apply IH.
Qed.

Lemma occurrences_snoc (cat c : string) (l : list string) :
  occurrences cat (l ++ [c])
  = occurrences cat l + (if String.eqb cat c then 1 else 0).
Proof.
  unfold occurrences, len. rewrite List.filter_app, length_app. cbn [List.filter].
  destruct (String.eqb cat c); cbn [length]; lia.
Qed.

Lemma occurrences_nonneg (cat : string) (l : list string) : 0 <= occurrences cat l.
Proof. unfold occurrences, len. lia. Qed.

Lemma dict_get_cons (k0 : string) (v0 : Z) (dist : list (string * Z)) (k : string) :
  dict_get ((k0, v0) :: dist) k = if String.eqb k0 k then Some v0 else dict_get dist k.
Proof. unfold dict_get. cbn [List.find fst]. now destruct (String.eqb k0 k). Qed.

Lemma dict_get_incr (c : string) (dist : list (string * Z)) (k : string) :
  dict_get (dict_incr c dist) k
  = if String.eqb k c then Some (default 0 (dict_get dist c) + 1) else dict_get dist k.
Proof.
  induction dist as [|[k0 v0] dist IH]; cbn [dict_incr].
  - rewrite dict_get_cons, (String.eqb_sym c k). now destruct (String.eqb k c).
  - destruct (String.eqb_spec k0 c) as [->|Hne]; rewrite !dict_get_cons.
    + rewrite String.eqb_refl, (String.eqb_sym c k).
      now destruct (String.eqb k c).
    + rewrite IH. destruct (String.eqb_spec k c) as [Hk|Hk]; [|reflexivity].
      rewrite Hk. destruct (String.eqb_spec k0 c); [contradiction|reflexivity].
Qed.

Lemma dict_incr_keys (c : string) (dist : list (string * Z)) :
  NoDup dist.*1 ->
  NoDup (dict_incr c dist).*1
  /\ (forall k, k ∈ (dict_incr c dist).*1 <-> k = c \/ k ∈ dist.*1).
Proof.
  induction dist as [|[k0 v0] dist IH]; intros Hnd; cbn [dict_incr].
  - split; [apply NoDup_singleton|]. intros k. cbn. rewrite list_elem_of_singleton.
    split; [auto|]. intros [->|Hk]; [reflexivity|inversion Hk].
  - rewrite fmap_cons in Hnd. apply NoDup_cons in Hnd as [Hk0 Hnd].
    destruct (String.eqb_spec k0 c) as [->|Hne].
    + rewrite !fmap_cons. cbn [fst]. split; [now apply NoDup_cons|].
      intros k. rewrite elem_of_cons. tauto.
    + destruct (IH Hnd) as [Hnd' Hkeys]. rewrite !fmap_cons. cbn [fst]. split.
      * apply NoDup_cons. split; [|exact Hnd'].
        rewrite Hkeys. intros [->|Hin]; [now apply Hne|contradiction].
      * intros k. rewrite !elem_of_cons, Hkeys. tauto.
Qed.

Lemma total_incr (c : string) (dist : list (string * Z)) :
  total (dict_incr c dist) = total dist + 1.
Proof.
  unfold total. induction dist as [|[k0 v0] dist IH]; cbn [dict_incr]; [reflexivity|].
  destruct (String.eqb k0 c); cbn [foldr snd] in *; lia.
Qed.

(** The counting loop, after the labels [l]. *)
Lemma count_loop_spec (l : list string) :
  let dist := foldl (fun dist cat => dict_incr cat dist) [] l in
  NoDup dist.*1
  /\ (forall k, dict_get dist k
                = if occurrences k l =? 0 then None else Some (occurrences k l))
  /\ total dist = len l.
Proof.
  induction l as [|c l IH] using rev_ind; cbv zeta.
  - split; [constructor|]. split; [reflexivity|reflexivity].
  - rewrite foldl_app. cbn [foldl]. cbv zeta in IH. destruct IH as (Hnd & Hget & Htotal).
    split; [now apply dict_incr_keys|]. split.
    + intros k. rewrite dict_get_incr, occurrences_snoc.
      pose proof (occurrences_nonneg k l) as Hk.
      destruct (String.eqb_spec k c) as [->|Hne].
      * rewrite Hget. pose proof (occurrences_nonneg c l).
        destruct (occurrences c l =? 0) eqn:Ezero.
        -- apply Z.eqb_eq in Ezero. rewrite Ezero. reflexivity.
        -- destruct (occurrences c l + 1 =? 0) eqn:Ezero'; [apply Z.eqb_eq in Ezero'; lia|].
           reflexivity.
      * rewrite Hget, Z.add_0_r. reflexivity.
    + rewrite total_incr, Htotal. unfold len. rewrite length_app. cbn [length]. lia.
Qed.

Lemma insert_by_count_perm (p : string * Z) (l : list (string * Z)) :
  insert_by_count p l ≡ₚ p :: l.
Proof.
  induction l as [|q l IH]; [reflexivity|]. cbn [insert_by_count].
  destruct (- p.2 <=? - q.2); [reflexivity|]. rewrite IH. apply perm_swap.
Qed.

Lemma sort_by_count_perm (l : list (string * Z)) : sort_by_count l ≡ₚ l.
Proof.
  unfold sort_by_count. induction l as [|p l IH]; [reflexivity|].
  cbn [foldr]. now rewrite insert_by_count_perm, IH.
Qed.

Lemma insert_by_count_sorted (p : string * Z) (l : list (string * Z)) :
  StronglySorted (fun a b => b.2 <= a.2) l ->
  StronglySorted (fun a b => b.2 <= a.2) (insert_by_count p l).
Proof.
  induction 1 as [|q l Hl IH Hq]; cbn [insert_by_count].
  - constructor; [constructor|constructor].
  - destruct (- p.2 <=? - q.2) eqn:Ele.
    + apply Z.leb_le in Ele. constructor; [now constructor|].
      constructor; [lia|]. eapply Forall_impl; [exact Hq|]. cbn. intros b Hb. lia.
    + apply Z.leb_gt in Ele. constructor; [exact IH|].
      rewrite insert_by_count_perm. constructor; [lia|exact Hq].
Qed.

Lemma sort_by_count_sorted (l : list (string * Z)) :
  StronglySorted (fun a b => b.2 <= a.2) (sort_by_count l).
Proof.
  unfold sort_by_count. induction l as [|p l IH]; [constructor|].
  cbn [foldr]. now apply insert_by_count_sorted.
Qed.

Lemma dict_get_elem (dist : list (string * Z)) (k : string) (v : Z) :
  NoDup dist.*1 -> ((k, v) ∈ dist <-> dict_get dist k = Some v).
Proof.
  unfold dict_get. induction dist as [|[k0 v0] dist IH]; intros Hnd.
  - split; [intros Hin; inversion Hin|discriminate].
  - rewrite fmap_cons in Hnd. apply NoDup_cons in Hnd as [Hk0 Hnd].
    cbn [List.find fst]. rewrite elem_of_cons.
    destruct (String.eqb_spec k0 k) as [->|Hne].
    + cbn. split.
      * intros [Heq|Hin]; [now injection Heq as ->|].
        exfalso. apply Hk0. apply list_elem_of_fmap. now exists (k, v).
      * intros Heq. injection Heq as ->. now left.
    + rewrite <- (IH Hnd). split; [|auto].
      intros [Heq|Hin]; [injection Heq as -> ->; contradiction|exact Hin].
Qed.

Lemma total_perm (l1 l2 : list (string * Z)) : l1 ≡ₚ l2 -> total l1 = total l2.
Proof.
  unfold total.
  induction 1 as [|x l1 l2 _ IH|x y l|l1 l2 l3 _ IH1 _ IH2]; cbn [foldr] in *; lia.
Qed.

(** X13. [get_categories_distribution] lists every category label of the
    corpus once, with the number of its occurrences among the labels of all
    articles, and no other key; the counts add up to the number of labels;
    and the entries are in order of non-increasing count. *)
Theorem categories_distribution_counts :
  forall articles : list Article,
    let dist := get_categories_distribution articles in
    NoDup dist.*1
    /\ (forall cat n, (cat, n) ∈ dist <-> n = occurrences cat (labels articles) /\ 0 < n)
    /\ total dist = len (labels articles)
    /\ StronglySorted (fun a b => b.2 <= a.2) dist.
Proof.
  intros articles dist. subst dist. unfold get_categories_distribution.
  pose proof (count_loop_spec (labels articles)) as Hspec. cbv zeta in Hspec.
  rewrite <- count_categories_labels in Hspec. destruct Hspec as (Hnd & Hget & Htotal).
  pose proof (sort_by_count_perm (count_categories articles)) as Hperm.
  split; [now rewrite Hperm|]. split; [|split].
  - intros cat n. rewrite Hperm, (dict_get_elem _ cat n Hnd), Hget.
    pose proof (occurrences_nonneg cat (labels articles)) as Hk.
    destruct (occurrences cat (labels articles) =? 0) eqn:Ezero.
    + apply Z.eqb_eq in Ezero. split; [discriminate|lia].
    + apply Z.eqb_neq in Ezero. split; [intros Heq; injection Heq as <-; lia|].
      intros [-> _]. reflexivity.
  - now rewrite (total_perm _ _ Hperm).
  - apply sort_by_count_sorted.
Qed.

End CorpusStoreFacts.

Module ExamplesMoreFacts.
Import Sampler Examples ExamplesNotions ExamplesFacts.

(** *** Sorting *)

Lemma insert_by_value_perm (p : nat * Q) (l : list (nat * Q)) :
  insert_by_value p l ≡ₚ p :: l.
Proof.
  induction l as [|q l IH]; [reflexivity|]. cbn [insert_by_value].
  destruct (Qle_bool p.2 q.2); [reflexivity|]. rewrite IH. apply perm_swap.
Qed.

Lemma argsort_perm (values : list Q) : argsort values ≡ₚ seq 0 (length values).
Proof.
  unfold argsort.
  assert (Hsort : forall l : list (nat * Q), foldr insert_by_value [] l ≡ₚ l).
  { induction l as [|p l IH]; [reflexivity|]. cbn [foldr].
    now rewrite insert_by_value_perm, IH. }
  rewrite Hsort. rewrite fst_zip; [reflexivity|]. rewrite length_seq. lia.
Qed.

Lemma insert_by_id_perm (a : Article) (l : list Article) : insert_by_id a l ≡ₚ a :: l.
Proof.
  induction l as [|b l IH]; [reflexivity|]. cbn [insert_by_id].
  destruct (row_id a <=? row_id b); [reflexivity|]. rewrite IH. apply perm_swap.
Qed.

Lemma sort_by_id_perm (l : list Article) : foldr insert_by_id [] l ≡ₚ l.
Proof.
  induction l as [|a l IH]; [reflexivity|]. cbn [foldr].
  now rewrite insert_by_id_perm, IH.
Qed.

Lemma insert_by_id_sorted (a : Article) (l : list Article) :
  StronglySorted by_id l -> StronglySorted by_id (insert_by_id a l).
Proof.
  unfold by_id. induction 1 as [|b l Hl IH Hb]; cbn [insert_by_id].
  - constructor; constructor.
  - destruct (row_id a <=? row_id b) eqn:Ele.
    + apply Z.leb_le in Ele. constructor; [now constructor|].
      constructor; [exact Ele|]. eapply Forall_impl; [exact Hb|]. cbn. intros c Hc. lia.
    + apply Z.leb_gt in Ele. constructor; [exact IH|].
      rewrite insert_by_id_perm. constructor; [lia|exact Hb].
Qed.

Lemma sort_by_id_sorted (l : list Article) : StronglySorted by_id (foldr insert_by_id [] l).
Proof.
  induction l as [|a l IH]; [constructor|]. cbn [foldr]. now apply insert_by_id_sorted.
Qed.

Lemma insert_by_cluster_perm (e : FewShotExample) (l : list FewShotExample) :
  insert_by_cluster e l ≡ₚ e :: l.
Proof.
  induction l as [|f l IH]; [reflexivity|]. cbn [insert_by_cluster].
  destruct (cluster_id e <=? cluster_id f); [reflexivity|]. rewrite IH. apply perm_swap.
Qed.

Lemma get_example_article_ids_perm (st : store) :
  get_example_article_ids st ≡ₚ article_id <$> examples st.
Proof.
  unfold get_example_article_ids. apply fmap_Permutation.
  induction (examples st) as [|e l IH]; [reflexivity|]. cbn [foldr].
  now rewrite insert_by_cluster_perm, IH.
Qed.

(** *** The store query *)

Lemma get_articles_by_ids_spec (st : store) (ids : list Z) :
  StronglySorted by_id (get_articles_by_ids st ids)
  /\ (forall a, a ∈ get_articles_by_ids st ids <-> a ∈ articles st /\ row_id a ∈ ids)
  /\ (NoDup (row_id <$> articles st) -> len (get_articles_by_ids st ids) <= len ids).
Proof.
  unfold get_articles_by_ids. destruct ids as [|i ids].
  - split; [constructor|]. split; [|intros _; reflexivity].
    intros a. split; [intros Ha; inversion Ha|intros [_ Ha]; inversion Ha].
  - set (wanted := i :: ids).
    split; [apply sort_by_id_sorted|]. split.
    + intros a. rewrite sort_by_id_perm. rewrite list_elem_of_In, List.filter_In.
      rewrite <- list_elem_of_In, bool_decide_eq_true. reflexivity.
    + intros Hnd. unfold len. rewrite (Permutation_length (sort_by_id_perm _)).
      apply inj_le. rewrite <- (length_fmap row_id).
      apply submseteq_length, NoDup_submseteq.
      * clear -Hnd. induction (articles st) as [|a l IH]; [constructor|].
        rewrite fmap_cons in Hnd. apply NoDup_cons in Hnd as [Ha Hl].
        cbn [List.filter]. destruct (bool_decide (row_id a ∈ wanted)); [|now apply IH].
        rewrite fmap_cons. apply NoDup_cons. split; [|now apply IH].
        intros Hin. apply Ha. apply list_elem_of_fmap in Hin as (b & Hb & Hin).
        apply list_elem_of_fmap. exists b. split; [exact Hb|].
        apply list_elem_of_In in Hin. apply List.filter_In in Hin as [Hin _].
        now apply list_elem_of_In.
      * intros x Hx. apply list_elem_of_fmap in Hx as (a & -> & Ha).
        apply list_elem_of_In, List.filter_In in Ha as [_ Ha].
        now apply bool_decide_eq_true in Ha.
Qed.

Section Retrieval.
Context {vec vectorizer : Type}.
Variable transform : vectorizer -> string -> vec.
Variable cosine_similarity : vec -> vec -> Q.
Variable m : selector_model (vec:=vec) (vectorizer:=vectorizer).

Lemma positions_in_spec (article_ids : list (option Z)) (example_ids : list Z) :
  forall (k i : nat),
    i ∈ positions_in article_ids example_ids k
    <-> exists j a, i = (k + j)%nat /\ article_ids !! j = Some (Some a) /\ a ∈ example_ids.
Proof.
  induction article_ids as [|aid rest IH]; intros k i; cbn [positions_in].
  - split; [intros Hi; inversion Hi|intros (j & a & _ & Hj & _); discriminate].
  - assert (Htail : i ∈ positions_in rest example_ids (Datatypes.S k)
                    <-> exists j a, i = (k + Datatypes.S j)%nat
                                    /\ rest !! j = Some (Some a) /\ a ∈ example_ids).
    { rewrite IH. split; intros (j & a & -> & Hj); exists j, a; split; auto; lia. }
    destruct aid as [a0|].
    + destruct (bool_decide_reflect (a0 ∈ example_ids)) as [Hin|Hout].
      * rewrite elem_of_cons, Htail. split.
        -- intros [->|(j & a & -> & Hj & Ha)].
           ++ exists 0%nat, a0. split; [lia|]. split; [reflexivity|exact Hin].
           ++ exists (Datatypes.S j), a. auto.
        -- intros ([|j] & a & -> & Hj & Ha); [left; lia|right; exists j, a; auto].
      * rewrite Htail. split.
        -- intros (j & a & -> & Hj & Ha). exists (Datatypes.S j), a. auto.
        -- intros ([|j] & a & -> & Hj & Ha).
           ++ cbn in Hj. injection Hj as ->. contradiction.
           ++ exists j, a. auto.
    + rewrite Htail. split.
      * intros (j & a & -> & Hj & Ha). exists (Datatypes.S j), a. auto.
      * intros ([|j] & a & -> & Hj & Ha); [discriminate|exists j, a; auto].
Qed.

Lemma lookup_ids_spec (example_ids : list Z) (example_indices top_idx : list nat) :
  (forall ei, ei ∈ example_indices ->
              exists a, _article_ids m !! ei = Some (Some a) /\ a ∈ example_ids) ->
  Forall (fun i => (i < length example_indices)%nat) top_idx ->
  exists ids,
    lookup_ids m example_indices top_idx = Returned ids
    /\ length ids = length top_idx
    /\ Forall (fun a => a ∈ example_ids) ids.
Proof.
  intros Hpos. induction 1 as [|i top_idx Hi _ IH]; cbn [lookup_ids].
  - exists []. repeat split. constructor.
  - destruct (lookup_lt_is_Some_2 _ _ Hi) as [ei Hei].
    rewrite (index_lookup _ _ _ Hei). cbn [mbind outcome_bind].
    destruct (Hpos ei) as (a & Ha & Hin); [apply list_elem_of_lookup; eauto|].
    rewrite (index_lookup _ _ _ Ha). cbn [mbind outcome_bind].
    destruct IH as (ids & -> & Hlen & Hall). cbn [mbind outcome_bind].
    exists (a :: ids). split; [reflexivity|]. split; [cbn; now rewrite Hlen|].
    now constructor.
Qed.

(** [find_similar] over a model whose matrix has a row for every article id
    and a store with at least one example among the model's articles. *)
Lemma find_similar_spec (st : store) (text : string) (n : Z) :
  length (_tfidf_matrix m) = length (_article_ids m) ->
  (exists e, e ∈ examples st /\ Some (article_id e) ∈ _article_ids m) ->
  exists result,
    find_similar transform cosine_similarity m st text n = Returned result
    /\ StronglySorted by_id result
    /\ (forall a, a ∈ result ->
                  a ∈ articles st /\ row_id a ∈ article_id <$> examples st)
    /\ (1 <= n -> NoDup (row_id <$> articles st) -> len result <= n).
Proof.
  intros Hrows (e & He & Hmodel). unfold find_similar.
  pose proof (get_example_article_ids_perm st) as Hperm.
  assert (Heid : article_id e ∈ get_example_article_ids st).
  { rewrite Hperm. apply list_elem_of_fmap. eauto. }
  destruct (get_example_article_ids st) as [|x0 xs] eqn:Eids; [inversion Heid|].
  rewrite <- Eids in *. clear Eids x0 xs. cbv zeta.
  set (example_ids := get_example_article_ids st) in *.
  set (example_indices := positions_in (_article_ids m) example_ids 0).
  assert (Hpos : forall ei, ei ∈ example_indices ->
                 exists a, _article_ids m !! ei = Some (Some a) /\ a ∈ example_ids).
  { intros ei Hei. apply positions_in_spec in Hei as (j & a & -> & Hj & Ha). eauto. }
  assert (Hsome : exists ei, ei ∈ example_indices).
  { apply list_elem_of_lookup in Hmodel as [j Hj]. exists j.
    apply positions_in_spec. exists j, (article_id e). auto. }
  destruct example_indices as [|i0 others] eqn:Eindices;
    [destruct Hsome as [ei Hei]; inversion Hei|].
  rewrite <- Eindices in *. clear Eindices i0 others.
  assert (Hrange : Forall (fun i => (i < length (_tfidf_matrix m))%nat) example_indices).
  { apply Forall_forall. intros ei Hei. destruct (Hpos ei Hei) as (a & Ha & _).
    apply lookup_lt_Some in Ha. lia. }
  destruct (rows_spec (_tfidf_matrix m) example_indices Hrange) as (vs & -> & Hvs).
  cbn [mbind outcome_bind].
  set (similarities := cosine_similarity (transform (_vectorizer m) text) <$> vs).
  set (top_n := Z.min n (len example_indices)).
  set (top_idx := reverse (slice_from (argsort similarities) (- top_n))).
  assert (Hsims : length similarities = length example_indices).
  { unfold similarities. rewrite length_fmap. symmetry. eapply Forall2_length. exact Hvs. }
  assert (Hargsort : length (argsort similarities) = length example_indices).
  { rewrite (Permutation_length (argsort_perm similarities)), length_seq. exact Hsims. }
  assert (Htop : Forall (fun i => (i < length example_indices)%nat) top_idx).
  { apply Forall_forall. intros i Hi. unfold top_idx, slice_from in Hi.
    rewrite elem_of_reverse in Hi.
    assert (Hin : i ∈ argsort similarities).
    { rewrite <- (take_drop (clamp_index (len (argsort similarities)) (- top_n))
                            (argsort similarities)).
      apply elem_of_app. right. exact Hi. }
    rewrite argsort_perm in Hin. apply elem_of_seq in Hin. lia. }
  destruct (lookup_ids_spec example_ids example_indices top_idx Hpos Htop)
    as (ids & -> & Hlen & Hids).
  cbn [mbind outcome_bind].
  destruct (get_articles_by_ids_spec st ids) as (Hsorted & Helems & Hcount).
  exists (get_articles_by_ids st ids). split; [reflexivity|]. split; [exact Hsorted|].
  split.
  - intros a Ha. apply Helems in Ha as [Hstore Hid]. split; [exact Hstore|].
    rewrite <- Hperm. apply (proj1 (Forall_forall _ _) Hids _ Hid).
  - intros Hn Hnd. specialize (Hcount Hnd).
    assert (len ids <= n); [|lia].
    unfold len. rewrite Hlen. unfold top_idx. rewrite length_reverse.
    unfold slice_from. rewrite length_drop, Hargsort.
    unfold clamp_index, len. rewrite Hargsort.
    assert (Hex : (1 <= length example_indices)%nat).
    { destruct Hsome as [ei Hei]. destruct example_indices; [inversion Hei|cbn; lia]. }
    assert (Htopn : 1 <= top_n <= n) by (unfold top_n, len; lia).
    destruct (- top_n <? 0) eqn:Eneg; [|apply Z.ltb_ge in Eneg; lia].
    unfold top_n, len in *. lia.
Qed.

End Retrieval.

(** *** The examples of [build_clusters] *)

Lemma nodup_fmap_transfer {A B C : Type} (f : A -> B) (g : A -> C) (l : list A) :
  (forall x y, x ∈ l -> y ∈ l -> f x = f y -> g x = g y) ->
  NoDup (g <$> l) -> NoDup (f <$> l).
Proof.
  induction l as [|x l IH]; intros Hfg Hnd; [constructor|].
  cbn [fmap list_fmap] in Hnd |- *. apply NoDup_cons in Hnd as [Hx Hl].
  apply NoDup_cons. split.
  - intros Hin. apply Hx. apply list_elem_of_fmap in Hin as (y & Hxy & Hy).
    apply list_elem_of_fmap. exists y. split; [|exact Hy].
    apply Hfg; [left|now right|exact Hxy].
  - apply IH; [|exact Hl]. intros y z Hy Hz. apply Hfg; now right.
Qed.

Section BuildClusters.
Context {vec vectorizer : Type}.
Variable fit_transform : list string -> vectorizer * list vec.
Variable kmeans : Z -> list vec -> outcome (list Z * list vec).
Variable cosine_similarity : vec -> vec -> Q.

Lemma build_clusters_examples (articles : list Article) (settings : Settings)
    (labels : list Z) (centers : list vec) :
  let texts := (fun a => title a +:+ " " +:+ content a) <$> articles in
  let k := Z.min (n_clusters settings) (len articles) in
  let m := {| _vectorizer := (fit_transform texts).1;
              _tfidf_matrix := (fit_transform texts).2;
              _article_ids := id <$> articles |} in
  articles <> [] ->
  Forall (fun a => is_Some (id a)) articles ->
  length (fit_transform texts).2 = length articles ->
  kmeans k (fit_transform texts).2 = Returned (labels, centers) ->
  length labels = length articles ->
  len centers = k ->
  exists examples,
    build_clusters fit_transform kmeans cosine_similarity articles settings
    = Returned (examples, m)
    /\ cluster_id <$> examples = filter (fun c => c ∈ labels) (py_range k)
    /\ Forall (representative cosine_similarity m labels centers) examples.
Proof.
  intros texts k m Hne Hids Hrows Hkmeans Hlabels Hcenters.
  subst texts k m. unfold build_clusters.
  destruct articles as [|a0 articles0]; [congruence|]. cbv beta iota.
  set (articles := a0 :: articles0) in *.
  destruct (fit_transform _) as [vz matrix]. cbn [fst snd] in *.
  rewrite Hkmeans. cbn [mbind outcome_bind].
  set (k := Z.min (n_clusters settings) (len articles)) in *.
  set (m := {| _vectorizer := vz; _tfidf_matrix := matrix; _article_ids := id <$> articles |}).
  destruct (clusters_loop_spec cosine_similarity m labels centers) with
    (k := Z.to_nat k) (s := 0%nat) (examples := @nil FewShotExample)
    as (new & Hrun & Hcids & Hreps).
  - subst m. cbn [_tfidf_matrix]. lia.
  - subst m. cbn [_tfidf_matrix _article_ids]. rewrite length_fmap. lia.
  - subst m. cbn [_article_ids]. apply Forall_fmap. exact Hids.
  - unfold len in Hcenters. lia.
  - exists new. fold (py_range k) in Hrun, Hcids. rewrite Hrun.
    cbn [mbind outcome_bind mret outcome_ret app].
    split; [reflexivity|]. split; [exact Hcids|exact Hreps].
Qed.

(** What the examples are, given that they represent their clusters. *)
Lemma representatives_distinct (m : selector_model (vec:=vec) (vectorizer:=vectorizer))
    (labels : list Z) (centers : list vec) (k : Z) (examples : list FewShotExample) :
  cluster_id <$> examples = filter (fun c => c ∈ labels) (py_range k) ->
  Forall (representative cosine_similarity m labels centers) examples ->
  (forall e, e ∈ examples -> Some (article_id e) ∈ _article_ids m)
  /\ len examples <= Z.max 0 k
  /\ (NoDup (_article_ids m) -> NoDup (article_id <$> examples))
  /\ (forall c, c ∈ labels -> 0 <= c < k -> examples <> []).
Proof.
  intros Hcids Hreps. split; [|split; [|split]].
  - intros e He. apply (proj1 (Forall_forall _ _) Hreps) in He.
    destruct He as (i & v & centroid & _ & Hid & _).
    apply list_elem_of_lookup. eauto.
  - unfold len. rewrite <- (length_fmap cluster_id), Hcids.
    pose proof (length_filter (fun c => c ∈ labels) (py_range k)) as Hle.
    unfold py_range in Hle at 2. rewrite length_fmap, length_seq in Hle. lia.
  - intros Hnd. apply (nodup_fmap_transfer article_id cluster_id).
    + intros e1 e2 He1 He2 Heq.
      apply (proj1 (Forall_forall _ _) Hreps) in He1, He2.
      destruct He1 as (i1 & _ & _ & Hl1 & Hid1 & _).
      destruct He2 as (i2 & _ & _ & Hl2 & Hid2 & _).
      rewrite Heq in Hid1.
      assert (i1 = i2) by (eapply NoDup_lookup; eassumption).
      subst i2. congruence.
    + rewrite Hcids. apply NoDup_filter, py_range_nodup.
  - intros c Hc Hrange Hnil.
    assert (Hin : c ∈ cluster_id <$> examples).
    { rewrite Hcids. apply list_elem_of_filter. split; [exact Hc|].
      now apply py_range_elem. }
    rewrite Hnil in Hin. inversion Hin.
Qed.

End BuildClusters.

(** X14. The examples [build_clusters] selects are articles of the corpus,
    at most [min(n_clusters, corpus size)] of them, and pairwise distinct
    when the corpus ids are, so that [save_examples] meets the
    [UNIQUE(article_id)] constraint of the examples table; a cluster label
    in range makes the list non-empty. *)
Theorem build_clusters_examples_distinct :
  forall (vec vectorizer : Type)
         (fit_transform : list string -> vectorizer * list vec)
         (kmeans : Z -> list vec -> outcome (list Z * list vec))
         (cosine_similarity : vec -> vec -> Q)
         (articles : list Article) (settings : Settings)
         (labels : list Z) (centers : list vec),
    let texts := (fun a => title a +:+ " " +:+ content a) <$> articles in
    let k := Z.min (n_clusters settings) (len articles) in
    articles <> [] ->
    Forall (fun a => is_Some (id a)) articles ->
    NoDup (id <$> articles) ->
    length (fit_transform texts).2 = length articles ->
    kmeans k (fit_transform texts).2 = Returned (labels, centers) ->
    length labels = length articles ->
    len centers = k ->
    exists examples m,
      build_clusters fit_transform kmeans cosine_similarity articles settings
      = Returned (examples, m)
      /\ NoDup (article_id <$> examples)
      /\ (forall e, e ∈ examples -> Some (article_id e) ∈ id <$> articles)
      /\ len examples <= k
      /\ (forall c, c ∈ labels -> 0 <= c < k -> examples <> []).
Proof.
  intros vec vectorizer fit_transform kmeans cosine_similarity articles settings
         labels centers texts k Hne Hids Hnd Hrows Hkmeans Hlabels Hcenters.
  destruct (build_clusters_examples fit_transform kmeans cosine_similarity articles
              settings labels centers Hne Hids Hrows Hkmeans Hlabels Hcenters)
    as (examples & Hrun & Hcids & Hreps).
  destruct (representatives_distinct cosine_similarity _ labels centers k examples
              Hcids Hreps) as (Hin & Hlen & Hdistinct & Hsome).
  eexists examples, _. split; [exact Hrun|].
  split; [apply Hdistinct; exact Hnd|]. split; [exact Hin|]. split; [|exact Hsome].
  pose proof (SamplerFacts.len_nonneg centers). lia.
Qed.

Lemma build_clusters_examples_distinct_witness :
  exists examples m,
    build_clusters toy_fit_transform toy_kmeans dot [article_1; article_2; article_3]
      {| model := "m"; analysis_model := "m"; max_tokens := 1; temperature := 0%Q;
         sample_fraction := 0%Q; chunk_max_tokens := 1; chunk_articles_cap := 1;
         n_clusters := 2; n_examples := 3 |}
    = Returned (examples, m)
    /\ NoDup (article_id <$> examples)
    /\ len examples <= 2.
Proof.
  destruct (build_clusters_examples_distinct (list Q) unit
              toy_fit_transform toy_kmeans dot [article_1; article_2; article_3]
              {| model := "m"; analysis_model := "m"; max_tokens := 1; temperature := 0%Q;
                 sample_fraction := 0%Q; chunk_max_tokens := 1; chunk_articles_cap := 1;
                 n_clusters := 2; n_examples := 3 |}
              [0; 1; 0] [[1%Q; 0%Q]; [0%Q; 1%Q]])
    as (examples & m & Hrun & Hnd & _ & Hlen & _); try reflexivity.
  - discriminate.
  - repeat constructor; eexists; reflexivity.
  - cbn. repeat constructor; set_solver.
  - exists examples, m. split; [exact Hrun|]. split; [exact Hnd|exact Hlen].
Defined.

(** X15. With a model that has a matrix row for every article id and a
    store in which some example is an article of the model,
    [find_similar] returns, whatever the text and [n], without an index
    error: its result is in ascending order of id, consists of articles of
    the store that are examples, and for [n >= 1] and distinct row ids has
    at most [n] articles. *)
Theorem find_similar_returns_examples :
  forall (vec vectorizer : Type) (transform : vectorizer -> string -> vec)
         (cosine_similarity : vec -> vec -> Q)
         (m : selector_model (vec:=vec) (vectorizer:=vectorizer))
         (st : store) (text : string) (n : Z),
    length (_tfidf_matrix m) = length (_article_ids m) ->
    (exists e, e ∈ examples st /\ Some (article_id e) ∈ _article_ids m) ->
    exists result,
      find_similar transform cosine_similarity m st text n = Returned result
      /\ StronglySorted by_id result
      /\ (forall a, a ∈ result ->
                    a ∈ articles st /\ row_id a ∈ article_id <$> examples st)
      /\ (1 <= n -> NoDup (row_id <$> articles st) -> len result <= n).
Proof.
  intros vec vectorizer transform cosine_similarity m st text n.
  apply find_similar_spec.
Qed.

Lemma find_similar_returns_examples_witness :
  exists result,
    find_similar toy_transform dot two_model two_store "beta two" 1 = Returned result
    /\ StronglySorted by_id result
    /\ (forall a, a ∈ result ->
                  a ∈ articles two_store /\ row_id a ∈ article_id <$> examples two_store)
    /\ (1 <= 1 -> NoDup (row_id <$> articles two_store) -> len result <= 1).
Proof.
  apply (find_similar_returns_examples (list Q) unit toy_transform dot two_model
           two_store "beta two" 1).
  - reflexivity.
  - exists {| article_id := 1; cluster_id := 0;
              distance_to_centroid := (1 - (1 * 1 + (0 * 0 + 0)))%Q |}.
    split; [left|left].
Defined.

(** X16. Selection and retrieval fit together: after [build_clusters] has
    run over a corpus with distinct ids and its examples have been saved,
    [find_similar] with the model it built returns for every text and [n],
    provided the clustering used some label in range; it raises neither of
    its two [RuntimeError]s nor an index error, and what it returns are
    examples of the corpus. *)
Theorem find_similar_after_build_clusters :
  forall (vec vectorizer : Type)
         (fit_transform : list string -> vectorizer * list vec)
         (transform : vectorizer -> string -> vec)
         (kmeans : Z -> list vec -> outcome (list Z * list vec))
         (cosine_similarity : vec -> vec -> Q)
         (st : store) (settings : Settings)
         (labels : list Z) (centers : list vec) (c : Z),
    let texts := (fun a => title a +:+ " " +:+ content a) <$> articles st in
    let k := Z.min (n_clusters settings) (len (articles st)) in
    articles st <> [] ->
    Forall (fun a => is_Some (id a)) (articles st) ->
    length (fit_transform texts).2 = length (articles st) ->
    kmeans k (fit_transform texts).2 = Returned (labels, centers) ->
    length labels = length (articles st) ->
    len centers = k ->
    c ∈ labels -> 0 <= c < k ->
    exists new m,
      build_clusters fit_transform kmeans cosine_similarity (articles st) settings
      = Returned (new, m)
      /\ forall (text : string) (n : Z),
           exists result,
             find_similar transform cosine_similarity m (save_examples st new) text n
             = Returned result
             /\ forall a, a ∈ result ->
                          a ∈ articles st /\ row_id a ∈ article_id <$> new.
Proof.
  intros vec vectorizer fit_transform transform kmeans cosine_similarity st settings
         labels centers c texts k Hne Hids Hrows Hkmeans Hlabels Hcenters Hc Hrange.
  destruct (build_clusters_examples fit_transform kmeans cosine_similarity (articles st)
              settings labels centers Hne Hids Hrows Hkmeans Hlabels Hcenters)
    as (new & Hrun & Hcids & Hreps).
  set (m := {| _vectorizer := (fit_transform texts).1;
               _tfidf_matrix := (fit_transform texts).2;
               _article_ids := id <$> articles st |}) in *.
  destruct (representatives_distinct cosine_similarity m labels centers k new
              Hcids Hreps) as (Hin & _ & _ & Hsome).
  exists new, m. split; [exact Hrun|]. intros text n.
  destruct new as [|e new']; [now destruct (Hsome c Hc Hrange)|].
  set (new := e :: new') in *.
  destruct (find_similar_spec transform cosine_similarity m (save_examples st new) text n)
    as (result & Hfind & _ & Helems & _).
  - unfold m. cbn [_tfidf_matrix _article_ids]. rewrite length_fmap. exact Hrows.
  - exists e. split; [left|]. apply Hin. left.
  - exists result. split; [exact Hfind|exact Helems].
Qed.

Lemma find_similar_after_build_clusters_witness :
  exists new m,
    build_clusters toy_fit_transform toy_kmeans dot (articles two_store) default_settings
    = Returned (new, m)
    /\ forall (text : string) (n : Z),
         exists result,
           find_similar toy_transform dot m (save_examples two_store new) text n
           = Returned result
           /\ forall a, a ∈ result ->
                        a ∈ articles two_store /\ row_id a ∈ article_id <$> new.
Proof.
  apply (find_similar_after_build_clusters (list Q) unit toy_fit_transform toy_transform
           toy_kmeans dot two_store default_settings [0; 1] [[1%Q; 0%Q]; [0%Q; 1%Q]] 0);
    try reflexivity.
  - cbn. discriminate.
  - cbn. repeat constructor; eexists; reflexivity.
  - left.
  - vm_compute. split; [discriminate|reflexivity].
Defined.

End ExamplesMoreFacts.
